(** * AI Study Buddy: the persistent vector store and its retrieval engine

    A shallow embedding of [src/core/vectordb.py], of
    [src/utils/helper.py] and of the upload handler of [src/app.py], with
    the properties of the store that the design document states and
    further properties that the code has.

    Modelling conventions.
    - Python [str] values are ASCII strings; file contents are byte lists.
    - A chunk dictionary is a record with the keys the code uses.  The
      dictionaries a caller passes to [build_vector_store] are heap
      objects, updated in place; a list of chunks is a list of
      references.  The chunks of a store file are kept by value: the
      dictionaries loaded from it are taken to be distinct objects.
    - A Python exception is a value of [exn]; a computation that can raise
      returns [result].  Stateful code runs in the monad [M], whose state
      holds the heap, the disk and the log of calls made to the embedding
      service.  An exception keeps the state reached so far, as in
      Python.
    - The disk holds three kinds of artifacts: the vector store file, the
      embedding cache files and the source documents.  Directories and
      log messages are left out.  Writes succeed; a file that cannot be
      unpickled is [Unreadable].
    - [hashlib.md5], the configured key, the embedding service, the
      ranking computed by FAISS and the floating point type of NumPy are
      external; they are the fields of an environment [env].  The texts
      PyPDF2 extracts from the pages of a document are an argument of
      [process_pdf]. *)

From Stdlib Require Import ZArith QArith Qround Qpower Lia Lqa String Ascii List Bool Sorted.
From Stdlib Require Import SpecFloat.
From stdpp Require Import base option list gmap strings pretty.

Set Default Proof Using "Type".
Local Open Scope string_scope.
Local Open Scope list_scope.
Local Open Scope nat_scope.

(** ** Python strings *)

Module PyStr.

Definition chars (s : string) : list ascii := list_ascii_of_string s.
Definition of_chars (l : list ascii) : string := string_of_list_ascii l.

Definition ascii_eqb (a b : ascii) : bool := Ascii.eqb a b.

(** [c.lower()] on one ASCII character. *)
Definition lower_char (c : ascii) : ascii :=
  let n := nat_of_ascii c in
  if (65 <=? n) && (n <=? 90) then ascii_of_nat (n + 32) else c.

(** [s.lower()] *)
Fixpoint lower (s : string) : string :=
  match s with
  | EmptyString => EmptyString
  | String c s' => String (lower_char c) (lower s')
  end.

(** [s.startswith(p)] *)
Fixpoint startswith (p s : string) : bool :=
  match p, s with
  | EmptyString, _ => true
  | String a p', String b s' => ascii_eqb a b && startswith p' s'
  | String _ _, EmptyString => false
  end.

(** [p in s] *)
Fixpoint contains (p s : string) : bool :=
  startswith p s ||
  match s with
  | EmptyString => false
  | String _ s' => contains p s'
  end.

(** [s.replace(old, new)] for a non-empty [old]: leftmost matches,
    not overlapping.  [skip] counts the characters of a match that are
    still to be dropped. *)
Fixpoint replace_from (old new : string) (skip : nat) (s : string) : string :=
  match s with
  | EmptyString => EmptyString
  | String c s' =>
      match skip with
      | S k => replace_from old new k s'
      | O =>
          if startswith old s
          then new ++ replace_from old new (String.length old - 1) s'
          else String c (replace_from old new 0 s')
      end
  end.

Definition replace (old new s : string) : string := replace_from old new 0 s.

(** Whitespace as [str.split()] sees it on ASCII text. *)
Definition isspace (c : ascii) : bool :=
  let n := nat_of_ascii c in
  ((9 <=? n) && (n <=? 13)) || ((28 <=? n) && (n <=? 32)).

(** [s.split()]: the maximal runs of non-whitespace characters.
    [cur] is the word being read, in reverse. *)
Fixpoint split_from (cur : list ascii) (s : string) : list string :=
  match s with
  | EmptyString =>
      match cur with [] => [] | _ => [of_chars (rev cur)] end
  | String c s' =>
      if isspace c
      then match cur with
           | [] => split_from [] s'
           | _ => of_chars (rev cur) :: split_from [] s'
           end
      else split_from (c :: cur) s'
  end.

Definition split (s : string) : list string := split_from [] s.

(** [sep.join(l)] *)
Fixpoint join (sep : string) (l : list string) : string :=
  match l with
  | [] => EmptyString
  | [w] => w
  | w :: l' => w ++ sep ++ join sep l'
  end.

(** Truthiness of a string. *)
Definition truthy (s : string) : bool :=
  match s with EmptyString => false | _ => true end.

(** [s.lstrip()], [s.rstrip()] and [s.strip()] *)
Fixpoint lstrip (s : string) : string :=
  match s with
  | EmptyString => EmptyString
  | String c s' => if isspace c then lstrip s' else s
  end.

Fixpoint rstrip (s : string) : string :=
  match s with
  | EmptyString => EmptyString
  | String c s' =>
      match rstrip s' with
      | EmptyString => if isspace c then EmptyString else String c EmptyString
      | r => String c r
      end
  end.

Definition strip (s : string) : string := rstrip (lstrip s).

(** [s.split(sep)] for a non-empty [sep]: the pieces between the
    leftmost, not overlapping matches of [sep], empty pieces included.
    [skip] counts the characters of a match that are still to be
    dropped; [cur] is the piece being read, in reverse. *)
Fixpoint split_on_from (sep : string) (skip : nat) (cur : list ascii) (s : string)
    : list string :=
  match s with
  | EmptyString => [of_chars (rev cur)]
  | String c s' =>
      match skip with
      | S k => split_on_from sep k cur s'
      | O =>
          if startswith sep s
          then of_chars (rev cur) :: split_on_from sep (String.length sep - 1) [] s'
          else split_on_from sep 0 (c :: cur) s'
      end
  end.

Definition split_on (sep s : string) : list string := split_on_from sep 0 [] s.

(** [c.isupper()] on one ASCII character. *)
Definition isupper (c : ascii) : bool :=
  let n := nat_of_ascii c in (65 <=? n) && (n <=? 90).

(** The line feed, and the blank line that separates paragraphs. *)
Definition newline : string := String "010"%char EmptyString.
Definition blank_line : string := newline ++ newline.

(** The characters of a string that are not white space. *)
Definition nonspace (s : string) : list ascii :=
  List.filter (fun c => negb (isspace c)) (chars s).

End PyStr.

(** ** [os.path] on POSIX paths *)

Module PosixPath.

Definition sep : ascii := "/"%char.
Definition dot : ascii := "."%char.

(** [os.path.join(a, b)] for a relative [b]. *)
Definition join (a b : string) : string :=
  if PyStr.startswith "/" b then b
  else match a with
       | EmptyString => b
       | _ => if PyStr.ascii_eqb (List.last (PyStr.chars a) sep) sep
              then a ++ b else a ++ "/" ++ b
       end.

(** [os.path.basename(p)]: what follows the last separator. *)
Fixpoint basename_from (acc : list ascii) (p : string) : string :=
  match p with
  | EmptyString => PyStr.of_chars (rev acc)
  | String c p' =>
      if PyStr.ascii_eqb c sep then basename_from [] p'
      else basename_from (c :: acc) p'
  end.

Definition basename (p : string) : string := basename_from [] p.

(** Position of the last dot of a name, if any. *)
Fixpoint rfind_dot (i : nat) (l : list ascii) : option nat :=
  match l with
  | [] => None
  | c :: l' =>
      match rfind_dot (S i) l' with
      | Some j => Some j
      | None => if PyStr.ascii_eqb c dot then Some i else None
      end
  end.

(** [os.path.splitext(name)[0]] for a name without separator: the
    extension starts at the last dot, unless only dots precede it. *)
Definition splitext_root (name : string) : string :=
  let cs := PyStr.chars name in
  match rfind_dot 0 cs with
  | None => name
  | Some i =>
      if existsb (fun c => negb (PyStr.ascii_eqb c dot)) (firstn i cs)
      then PyStr.of_chars (firstn i cs)
      else name
  end.

End PosixPath.

(** ** Regular expressions of [clean_text] *)

Module Re.

(** [re.sub(r'\s+', ' ', s)]: every maximal run of white space becomes
    one space.  [in_run] tells that the previous character was white
    space. *)
Fixpoint collapse_spaces (in_run : bool) (s : string) : string :=
  match s with
  | EmptyString => EmptyString
  | String c s' =>
      if PyStr.isspace c
      then if in_run then collapse_spaces true s'
           else String " " (collapse_spaces true s')
      else String c (collapse_spaces false s')
  end.

(** [\w] on ASCII text: letters, digits and the underscore. *)
Definition isword (c : ascii) : bool :=
  let n := nat_of_ascii c in
  ((48 <=? n) && (n <=? 57)) || ((65 <=? n) && (n <=? 90))
  || ((97 <=? n) && (n <=? 122)) || (n =? 95).

(** The class [[\w\s\.\,\!\?\-\(\)\:]]. *)
Definition kept (c : ascii) : bool :=
  isword c || PyStr.isspace c
  || existsb (PyStr.ascii_eqb c) (PyStr.chars ".,!?-():").

(** [re.sub(r'[^...]', '', s)]: the characters outside the class are
    dropped. *)
Fixpoint keep_class (s : string) : string :=
  match s with
  | EmptyString => EmptyString
  | String c s' => if kept c then String c (keep_class s') else keep_class s'
  end.

End Re.

(** ** NumPy floating point scalars

    A finite float is the rational number it denotes.  An operation of
    IEEE 754 returns the exact result rounded to the nearest float of the
    format, ties to even; [round] is that rounding, with gradual
    underflow.  Overflow to infinity and division by zero are outside
    the model: on the finite, non-negative distances FAISS returns no
    operation of [retrieve] overflows or divides by zero. *)

Module Float.

Local Open Scope Q_scope.

(** [prec] bits of precision, and the exponent [emin] of the least
    positive (subnormal) float [2 ^ emin]. *)
Record format := { prec : Z; emin : Z }.

Definition binary32 : format := {| prec := 24; emin := -149 |}.
Definition binary64 : format := {| prec := 53; emin := -1074 |}.

Definition valid (f : format) : Prop :=
  (1 <= prec f)%Z /\ (emin f <= 1 - prec f)%Z.

(** [floor (log2 q)] for a positive [q]. *)
Definition ilog2 (q : Q) : Z :=
  let e := (Z.log2 (Qnum q) - Z.log2 (Zpos (Qden q)))%Z in
  if Qle_bool (2 ^ e) q then e else (e - 1)%Z.

(** Nearest integer, ties to even. *)
Definition rne (q : Q) : Z :=
  let n := Qfloor q in
  match Qcompare (q - inject_Z n) (1 # 2) with
  | Lt => n
  | Gt => (n + 1)%Z
  | Eq => if Z.even n then n else (n + 1)%Z
  end.

(** Exponent of the unit in the last place of the floats around a
    positive [q]. *)
Definition ulp_exp (f : format) (q : Q) : Z :=
  Z.max (ilog2 q - (prec f - 1)) (emin f).

Definition round_pos (f : format) (q : Q) : Q :=
  let e := ulp_exp f q in inject_Z (rne (q / 2 ^ e)) * 2 ^ e.

Definition round (f : format) (q : Q) : Q :=
  match Qnum q with
  | Z0 => 0
  | Zpos _ => round_pos f q
  | Zneg _ => - round_pos f (- q)
  end.

Definition add (f : format) (x y : Q) : Q := round f (x + y).
Definition div (f : format) (x y : Q) : Q := round f (x / y).

(** [x > y] *)
Definition gtb (x y : Q) : bool := negb (Qle_bool x y).

End Float.

(** The same score computed with the Standard Library's specification
    of IEEE 754 arithmetic, in single and in double precision, to compare
    [Float] with. *)

Module SpecCheck.

Definition to_Q (x : spec_float) : option Q :=
  match x with
  | S754_zero _ => Some 0%Q
  | S754_finite s m e =>
      Some ((if s then - inject_Z (Zpos m) else inject_Z (Zpos m)) * 2 ^ e)%Q
  | _ => None
  end.

Definition one32 : spec_float := S754_finite false 8388608 (-23).
Definition one64 : spec_float := S754_finite false 4503599627370496 (-52).

Definition similarity32 (d : spec_float) : spec_float :=
  SFdiv 24 128 one32 (SFadd 24 128 one32 d).

Definition similarity64 (d : spec_float) : spec_float :=
  SFdiv 53 1024 one64 (SFadd 53 1024 one64 d).

(** Single precision distances: ordinary ones, ties of the sum, tiny,
    huge and subnormal ones. *)
Definition distances : list spec_float :=
  map (fun me : positive * Z => S754_finite false (fst me) (snd me))
    [ (8388608%positive, (-23)%Z); (8388609%positive, (-23)%Z); (12345678%positive, (-20)%Z); (16777215%positive, (-24)%Z);
      (9000001%positive, (-30)%Z); (8388608%positive, (-83)%Z); (8388608%positive, (-93)%Z); (8388608%positive, (-48)%Z);
      (8388609%positive, (-48)%Z); (8388608%positive, (-47)%Z); (12582912%positive, (-47)%Z); (12582913%positive, (-47)%Z);
      (16777215%positive, 10%Z); (16777215%positive, 104%Z); (8388608%positive, 100%Z); (11111111%positive, (-3)%Z);
      (13333333%positive, (-22)%Z); (8388611%positive, (-21)%Z); (10000000%positive, 50%Z); (16777215%positive, 103%Z);
      (9999999%positive, 0%Z); (8388608%positive, (-45)%Z); (8388608%positive, (-46)%Z); (16777215%positive, (-46)%Z);
      (1%positive, (-149)%Z); (3%positive, (-149)%Z) ].

Definition agrees (d : spec_float) : bool :=
  match to_Q d, to_Q (similarity32 d), to_Q (similarity64 d) with
  | Some q, Some s32, Some s64 =>
      Qeq_bool s32 (Float.div Float.binary32 1 (Float.add Float.binary32 1 q))
      && Qeq_bool s64 (Float.div Float.binary64 1 (Float.add Float.binary64 1 q))
  | _, _, _ => false
  end.

End SpecCheck.

(** ** Exceptions and results *)

Inductive exn : Type :=
| ValueError
| AssertionError
| IndexError
| UnpicklingError.

Inductive result (A : Type) : Type :=
| Ok (a : A)
| Raise (e : exn).

Arguments Ok {A} a.
Arguments Raise {A} e.

(** ** Data model *)

(** A NumPy vector of floats. *)
Definition vec : Type := list Q.

(** A chunk dictionary.  [index] is absent until the store assigns it;
    [similarity] is attached by [retrieve]. *)
Record chunk : Type := mk_chunk {
  text : string;
  source : string;
  page : Z;
  headers : list string;
  index : option nat;
  similarity : option Q
}.

Definition set_index (c : chunk) (i : nat) : chunk :=
  {| text := text c; source := source c; page := page c;
     headers := headers c; index := Some i; similarity := similarity c |}.

Definition set_text (c : chunk) (t : string) : chunk :=
  {| text := t; source := source c; page := page c;
     headers := headers c; index := index c; similarity := similarity c |}.

Definition set_similarity (c : chunk) (s : Q) : chunk :=
  {| text := text c; source := source c; page := page c;
     headers := headers c; index := index c; similarity := Some s |}.

(** What [retrieve] never changes in a chunk. *)
Definition origin (c : chunk) : string * Z * list string * option nat :=
  (source c, page c, headers c, index c).

(** [faiss.IndexFlatL2]: the dimension and the stored vectors, in the
    order they were added. *)
Record IndexFlatL2 : Type := mk_index {
  d : nat;
  xb : list vec
}.

Definition ntotal (ix : IndexFlatL2) : nat := length (xb ix).

(** An entry of the file map. *)
Record file_entry : Type := mk_file_entry {
  hash : string;
  chunk_indices : list nat
}.

(** The dictionary pickled in the vector store file. *)
Record store_data : Type := mk_store {
  data_index : option IndexFlatL2;
  data_chunks : list chunk;
  data_file_map : gmap string file_entry
}.

(** The dictionary pickled in an embedding cache file. *)
Record cache_entry : Type := mk_cache {
  embeddings : list vec;
  cached_chunks : list chunk
}.

(** What [pickle.load] finds in a file that exists. *)
Inductive pickle (A : Type) : Type :=
| Unreadable
| Pickled (a : A).

Arguments Unreadable {A}.
Arguments Pickled {A} a.

Record disk : Type := mk_disk {
  store_file : option (pickle store_data);
  cache_files : gmap string (pickle cache_entry);
  source_files : gmap string (list Byte.byte)
}.

(** The caller's chunk dictionaries are heap objects: a list of chunks is
    a list of references, and the same dictionary can stand at several
    positions. *)
Definition loc : Type := nat.

Record state : Type := mk_state {
  heap : loc -> chunk;
  fs : disk;
  provider_calls : list string
}.

(** What the module takes from outside: the digest function, the
    configured key, the embedding service (its answer may depend on how
    many calls came before; [None] is a failed call), the ranking FAISS
    computes (labels with distances, nearest first; the label [None] is
    FAISS's -1) and the float type NumPy computes the score in. *)
Record env : Type := mk_env {
  md5 : list Byte.byte -> N;
  API_KEY : option string;
  embed_content : nat -> string -> option vec;
  knn : IndexFlatL2 -> vec -> nat -> list (option nat * Q);
  score_format : Float.format
}.

(** ** The state and exception monad *)

Definition M (A : Type) : Type := state -> result A * state.

Definition ret {A} (a : A) : M A := fun s => (Ok a, s).
Definition raise {A} (e : exn) : M A := fun s => (Raise e, s).

Definition bind {A B} (m : M A) (k : A -> M B) : M B :=
  fun s =>
    match m s with
    | (Ok a, s') => k a s'
    | (Raise e, s') => (Raise e, s')
    end.

(** [try: m except Exception: h] *)
Definition try_except {A} (m : M A) (h : M A) : M A :=
  fun s =>
    match m s with
    | (Ok a, s') => (Ok a, s')
    | (Raise _, s') => h s'
    end.

Definition lift {A} (r : result A) : M A := fun s => (r, s).
Definition get_state : M state := fun s => (Ok s, s).
Definition put_fs (f : disk) : M unit :=
  fun s => (Ok tt, {| heap := heap s; fs := f; provider_calls := provider_calls s |}).
Definition put_heap (h : loc -> chunk) : M unit :=
  fun s => (Ok tt, {| heap := h; fs := fs s; provider_calls := provider_calls s |}).

(** The state after the service was called on [texts]. *)
Definition log_calls (s : state) (texts : list string) : state :=
  {| heap := heap s; fs := fs s; provider_calls := provider_calls s ++ texts |}.

Notation "'let!' x ':=' m 'in' k" := (bind m (fun x => k))
  (at level 10, x name, m at level 100, k at level 200).
Notation "'do!' m 'in' k" := (bind m (fun _ => k))
  (at level 10, m at level 100, k at level 200).

(** ** Python lists *)

(** [l[i]] for a label of FAISS: [None] is the index -1, the last
    element. *)
Definition py_position {A} (l : list A) (idx : option nat) : nat :=
  match idx with
  | Some i => i
  | None => length l - 1
  end.

(** [l[:k]]: the first [k] elements, and for a negative [k] all but the
    last [-k]. *)
Definition py_prefix {A} (l : list A) (k : Z) : list A :=
  if (0 <=? k)%Z then firstn (Z.to_nat k) l
  else firstn (length l - Z.to_nat (- k)) l.

(** A bound of a slice, as Python normalises it for a sequence of length
    [m]: a negative bound counts from the end, and both are clamped. *)
Definition py_bound (m i : Z) : Z :=
  if (i <? 0)%Z then Z.max (m + i) 0 else Z.min i m.

(** [l[a:b]] *)
Definition py_slice {A} (l : list A) (a b : Z) : list A :=
  let m := Z.of_nat (length l) in
  let lo := py_bound m a in
  let hi := py_bound m b in
  firstn (Z.to_nat (hi - lo)) (skipn (Z.to_nat lo) l).

(** [np.zeros(n)] *)
Definition zeros (n : nat) : vec := repeat 0%Q n.

(** [np.array(vs, dtype=np.float32)] on a list of vectors: a matrix when
    all rows have one length, [ValueError] on ragged rows. *)
Definition np_array (vs : list vec) : result (list vec) :=
  match vs with
  | [] => Ok []
  | v :: _ =>
      if forallb (fun w => length w =? length v) vs then Ok vs
      else Raise ValueError
  end.

(** [index.add(x)] for a matrix [x] with at least one row: FAISS asserts
    that the rows have the dimension of the index. *)
Definition index_add (ix : IndexFlatL2) (x : list vec) : result IndexFlatL2 :=
  if length (hd [] x) =? d ix
  then Ok {| d := d ix; xb := xb ix ++ x |}
  else Raise AssertionError.

(** ** Configuration ([src/config/config.py]) *)

Definition VECTOR_STORE_DIR : string := PosixPath.join "data" "vector_store".
Definition VECTOR_STORE_FILE : string := PosixPath.join VECTOR_STORE_DIR "vector_store.pkl".
Definition EMBEDDING_CACHE_DIR : string := PosixPath.join VECTOR_STORE_DIR "embeddings".
Definition TOP_K : Z := 5.
Definition MAX_CHUNK_TOKENS : Z := 400.

(** ** [hashlib]: the hexadecimal form of a 128-bit digest *)

Definition hex_char (n : N) : ascii :=
  nth (N.to_nat n) (PyStr.chars "0123456789abcdef") "0"%char.

Fixpoint hex_digits (k : nat) (n : N) : string :=
  match k with
  | O => EmptyString
  | S k' => hex_digits k' (n / 16) ++ String (hex_char (n mod 16)) EmptyString
  end.

Definition hexdigest (n : N) : string := hex_digits 32 n.

(** Truthiness of an optional string argument. *)
Definition truthy_opt (o : option string) : bool :=
  match o with
  | Some s => PyStr.truthy s
  | None => false
  end.

Definition pickle_load {A} (f : pickle A) : M A :=
  match f with
  | Pickled a => ret a
  | Unreadable => raise UnpicklingError
  end.

Definition empty_store : store_data :=
  {| data_index := None; data_chunks := []; data_file_map := ∅ |}.

(** ** [src/utils/helper.py] and [src/core/vectordb.py] *)

Section Model.

Variable E : env.

(** One call of the embedding service inside its [try]: the call is
    logged; a failed call yields the zero vector of dimension 768. *)
Definition embed_or_zero (n : nat) (t : string) : vec :=
  match embed_content E n t with
  | Some v => v
  | None => zeros 768
  end.

Definition embed_one (t : string) : M vec :=
  fun s =>
    (Ok (embed_or_zero (length (provider_calls s)) t), log_calls s [t]).

Fixpoint embed_all (texts : list string) : M (list vec) :=
  match texts with
  | [] => ret []
  | t :: texts' =>
      let! v := embed_one t in
      let! vs := embed_all texts' in
      ret (v :: vs)
  end.

(** [get_embedding]: the guard on the key, then one call per text. *)
Definition get_embedding (texts : list string) : M (list vec) :=
  if truthy_opt (API_KEY E) then embed_all texts
  else raise ValueError.

(** The digest of the bytes of a file, and the empty string for a file
    that cannot be read. *)
Definition get_file_hash (file_path : string) : M string :=
  let! s := get_state in
  match source_files (fs s) !! file_path with
  | Some content => ret (hexdigest (md5 E content))
  | None => ret EmptyString
  end.

Definition get_embedding_path (file_path : string) : M string :=
  let! file_hash := get_file_hash file_path in
  if negb (PyStr.truthy file_hash) then ret EmptyString
  else
    let base_name := PosixPath.splitext_root (PosixPath.basename file_path) in
    ret (PosixPath.join EMBEDDING_CACHE_DIR (base_name ++ "_" ++ file_hash ++ ".pkl")).

(** Lines 72-79 of [build_vector_store]: the existing store, or the
    empty one when the file is absent or cannot be unpickled. *)
Definition load_existing : M store_data :=
  let! s := get_state in
  match store_file (fs s) with
  | Some f => try_except (pickle_load f) (ret empty_store)
  | None => ret empty_store
  end.

(** Lines 81-92: the cached embeddings for [source_file], or [[]]. *)
Definition load_cached (source_file : option string) : M (list vec) :=
  match source_file with
  | Some src =>
      if PyStr.truthy src then
        let! embedding_path := get_embedding_path src in
        let! s := get_state in
        if PyStr.truthy embedding_path then
          match cache_files (fs s) !! embedding_path with
          | Some f =>
              try_except
                (let! cached_data := pickle_load f in
                 ret (embeddings cached_data))
                (ret [])
          | None => ret []
          end
        else ret []
      else ret []
  | None => ret []
  end.

(** Lines 99-108: the cache file written after the embeddings were
    generated. *)
Definition store_cached (chunks : list loc) (source_file : option string)
    (new_embeddings : list vec) : M unit :=
  match source_file, new_embeddings with
  | Some src, _ :: _ =>
      if PyStr.truthy src then
        let! embedding_path := get_embedding_path src in
        if PyStr.truthy embedding_path then
          let! s := get_state in
          put_fs {| store_file := store_file (fs s);
                    cache_files :=
                      <[embedding_path :=
                          Pickled {| embeddings := new_embeddings;
                                     cached_chunks := map (heap s) chunks |}]>
                        (cache_files (fs s));
                    source_files := source_files (fs s) |}
        else ret tt
      else ret tt
  | _, _ => ret tt
  end.

(** Lines 94-108: generate the embeddings unless the cache gave some.
    Line 97 drops the entries that are [None]; [get_embedding] returns
    none such. *)
Definition obtain_embeddings (chunks : list loc) (source_file : option string)
    : M (list vec) :=
  let! new_embeddings := load_cached source_file in
  match new_embeddings with
  | _ :: _ => ret new_embeddings
  | [] =>
      let! s := get_state in
      let! new_embeddings := get_embedding (map (fun c => text (heap s c)) chunks) in
      do! store_cached chunks source_file new_embeddings in
      ret new_embeddings
  end.

(** Lines 129-130: [chunk["index"] = start_idx + i], on the caller's
    dictionaries. *)
Fixpoint assign_indices (i : nat) (chunks : list loc) (h : loc -> chunk)
    : loc -> chunk :=
  match chunks with
  | [] => h
  | c :: chunks' =>
      assign_indices (S i) chunks'
        (fun l => if l =? c then set_index (h c) i else h l)
  end.

(** Lines 127-145: the indices assigned, the chunks appended, the file
    map updated and the whole store written. *)
Definition save_store (existing_data : store_data) (index : IndexFlatL2)
    (chunks : list loc) (source_file : option string) : M unit :=
  let start_idx := length (data_chunks existing_data) in
  let! s := get_state in
  do! put_heap (assign_indices start_idx chunks (heap s)) in
  let! s := get_state in
  let all_chunks := data_chunks existing_data ++ map (heap s) chunks in
  let! file_map :=
    match source_file with
    | Some src =>
        if PyStr.truthy src then
          let! h := get_file_hash src in
          ret (<[src := {| hash := h;
                           chunk_indices := seq start_idx (length chunks) |}]>
                 (data_file_map existing_data))
        else ret (data_file_map existing_data)
    | None => ret (data_file_map existing_data)
    end in
  let! s := get_state in
  put_fs {| store_file :=
              Some (Pickled {| data_index := Some index;
                               data_chunks := all_chunks;
                               data_file_map := file_map |});
            cache_files := cache_files (fs s);
            source_files := source_files (fs s) |}.

Definition build_vector_store (chunks : list loc) (source_file : option string)
    : M (option IndexFlatL2) :=
  match chunks with
  | [] => ret None
  | _ :: _ =>
      let! existing_data := load_existing in
      let! new_embeddings := obtain_embeddings chunks source_file in
      match new_embeddings with
      | [] => ret None
      | _ :: _ =>
          let! embeddings_array := lift (np_array new_embeddings) in
          let dim := length (hd [] embeddings_array) in
          let index0 := match data_index existing_data with
                        | None => {| d := dim; xb := [] |}
                        | Some ix => ix
                        end in
          let! index := lift (index_add index0 embeddings_array) in
          do! save_store existing_data index chunks source_file in
          ret (Some index)
      end
  end.

Definition load_vector_store : M (option IndexFlatL2 * option (list chunk)) :=
  let! s := get_state in
  match store_file (fs s) with
  | Some f =>
      try_except
        (let! data := pickle_load f in
         match data_index data with
         | Some ix =>
             if length (data_chunks data) =? ntotal ix
             then ret (Some ix, Some (data_chunks data))
             else ret (None, None)
         | None => ret (None, None)
         end)
        (ret (None, None))
  | None => ret (None, None)
  end.

Definition check_file_embeddings (file_path : string) : M bool :=
  let! s := get_state in
  match store_file (fs s) with
  | None => ret false
  | Some f =>
      try_except
        (let! data := pickle_load f in
         match data_file_map data !! file_path with
         | Some e =>
             let! current_hash := get_file_hash file_path in
             ret (String.eqb current_hash (hash e))
         | None => ret false
         end)
        (ret false)
  end.

(** [sanitize_text], local to [retrieve]. *)
Definition sanitize_text (t : string) : string :=
  PyStr.replace " ." "." (PyStr.replace " ," "," (PyStr.join " " (PyStr.split t))).

(** [1 / (1 + distance)] on NumPy scalars. *)
Definition similarity_of (distance : Q) : Q :=
  Float.div (score_format E) 1 (Float.add (score_format E) 1 distance).

(** [threshold is None or similarity > threshold].  The score is a
    NumPy scalar and the threshold a Python number: NumPy converts the
    threshold to the float type of the score, rounding it to nearest,
    and compares there. *)
Definition keep_hit (threshold : option Q) (s : Q) : bool :=
  match threshold with
  | None => true
  | Some t => Float.gtb s (Float.round (score_format E) t)
  end.

(** [index.search(x, k)] for a single query row [x]: FAISS asserts the
    dimension of the query and a positive [k], and returns the labels
    and distances of the neighbours found. *)
Definition search (ix : IndexFlatL2) (x : list vec) (k : Z)
    : result (list (option nat * Q)) :=
  if length (hd [] x) =? d ix then
    if (0 <? k)%Z then Ok (knn E ix (hd [] x) (Z.to_nat k))
    else Raise AssertionError
  else Raise AssertionError.

(** [idx < len(chunks)], where the label [None] is -1. *)
Definition hit_in_range (mem : list chunk) (idx : option nat) : bool :=
  match idx with
  | Some i => i <? length mem
  | None => true
  end.

(** The body of the loop of [retrieve] (lines 220-230) for one hit.
    [mem] holds the chunk dictionaries loaded from the store, which the
    loop updates in place; [results] lists the positions in [mem] of the
    dictionaries appended so far.  [chunks[idx]] raises on an empty
    list. *)
Definition retrieve_hit (threshold : option Q)
    (mem : list chunk) (results : list nat) (hit : option nat * Q)
    : result (list chunk * list nat) :=
  let idx := fst hit in
  let distance := snd hit in
  if hit_in_range mem idx then
    let pos := py_position mem idx in
    match mem !! pos with
    | Some c =>
        let c1 := set_text c (sanitize_text (text c)) in
        let s := similarity_of distance in
        if keep_hit threshold s
        then Ok (<[pos := set_similarity c1 s]> mem, results ++ [pos])
        else Ok (<[pos := c1]> mem, results)
    | None => Raise IndexError
    end
  else Ok (mem, results).

Fixpoint retrieve_loop (threshold : option Q)
    (mem : list chunk) (results : list nat) (hits : list (option nat * Q))
    : result (list chunk * list nat) :=
  match hits with
  | [] => Ok (mem, results)
  | hit :: hits' =>
      match retrieve_hit threshold mem results hit with
      | Ok (mem', results') => retrieve_loop threshold mem' results' hits'
      | Raise e => Raise e
      end
  end.

(** The dictionaries a list of positions refers to. *)
Definition deref (mem : list chunk) (results : list nat) : list chunk :=
  omap (fun p => mem !! p) results.

(** Lines 208-211 of [retrieve]: the query embedding and the search. *)
Definition query_hits (index : IndexFlatL2) (chunks : list chunk)
    (query : string) (top_k : Z) : M (list (option nat * Q)) :=
  let! embs := get_embedding [query] in
  let! q_emb := lift (np_array embs) in
  lift (search index q_emb (Z.min top_k (Z.of_nat (length chunks)))).

Definition retrieve (query : string) (top_k : Z) (threshold : option Q)
    : M (list chunk) :=
  let! loaded := load_vector_store in
  match loaded with
  | (Some index, Some ((_ :: _) as chunks)) =>
      try_except
        (let! hits := query_hits index chunks query top_k in
         let! r := lift (retrieve_loop threshold chunks [] hits) in
         ret (deref (fst r) (snd r)))
        (ret [])
  | _ => ret []
  end.

Definition retrieve_by_page (page_num : Z) (top_k : Z) : M (list chunk) :=
  let! loaded := load_vector_store in
  match snd loaded with
  | Some ((_ :: _) as chunks) =>
      ret (py_prefix (List.filter (fun c => (page c =? page_num)%Z) chunks) top_k)
  | _ => ret []
  end.

Definition search_by_keyword (keyword : string) : M (list chunk) :=
  let! loaded := load_vector_store in
  match snd loaded with
  | Some ((_ :: _) as chunks) =>
      let keyword_lower := PyStr.lower keyword in
      ret (List.filter (fun c => PyStr.contains keyword_lower (PyStr.lower (text c))) chunks)
  | _ => ret []
  end.

Definition hybrid_search (query : string) (keyword : option string) (top_k : Z)
    : M (list chunk) :=
  let! semantic_results := retrieve query (top_k * 2) None in
  let semantic_results :=
    if truthy_opt keyword then
      let keyword_lower := PyStr.lower (default EmptyString keyword) in
      List.filter (fun r => PyStr.contains keyword_lower (PyStr.lower (text r)))
        semantic_results
    else semantic_results in
  ret (py_prefix semantic_results top_k).

Definition clear_vector_store : M bool :=
  let! s := get_state in
  match store_file (fs s) with
  | Some _ =>
      do! put_fs {| store_file := None;
                    cache_files := cache_files (fs s);
                    source_files := source_files (fs s) |} in
      ret true
  | None => ret false
  end.

(** Lines 291-294 of [get_similar_chunks]: one call of [get_embedding]
    per stored chunk, outside any [try]; [emb[0]] is the row of the
    one-row matrix. *)
Fixpoint embed_chunks (chunks : list chunk) : M (list vec) :=
  match chunks with
  | [] => ret []
  | c :: chunks' =>
      let! embs := get_embedding [text c] in
      let! emb := lift (np_array embs) in
      let! row := lift (match emb with v :: _ => Ok v | [] => Raise IndexError end) in
      let! rows := embed_chunks chunks' in
      ret (row :: rows)
  end.

(** [index.search(x, k)] for rows [x] sliced from [matrix].  The
    wrapper of FAISS unpacks the shape of [x] into two numbers, which
    raises [ValueError] on the one-dimensional array NumPy makes of an
    empty list; then it asserts the dimension and a positive [k]. *)
Definition search_rows (ix : IndexFlatL2) (matrix x : list vec) (k : Z)
    : result (list (list (option nat * Q))) :=
  match matrix with
  | [] => Raise ValueError
  | row :: _ =>
      if length row =? d ix then
        if (0 <? k)%Z then Ok (map (fun q => knn E ix q (Z.to_nat k)) x)
        else Raise AssertionError
      else Raise AssertionError
  end.

(** [[chunks[i] for i in labels]] *)
Fixpoint chunks_at (chunks : list chunk) (labels : list (option nat))
    : result (list chunk) :=
  match labels with
  | [] => Ok []
  | i :: labels' =>
      match chunks !! py_position chunks i with
      | Some c =>
          match chunks_at chunks labels' with
          | Ok cs => Ok (c :: cs)
          | Raise e => Raise e
          end
      | None => Raise IndexError
      end
  end.

(** [get_similar_chunks].  [load_vector_store] returns an index and
    chunks together, or neither. *)
Definition get_similar_chunks (chunk_index : Z) (top_k : Z) : M (list chunk) :=
  let! loaded := load_vector_store in
  match loaded with
  | (Some index, Some chunks) =>
      if (Z.of_nat (length chunks) <=? chunk_index)%Z then ret []
      else
        let! rows := embed_chunks chunks in
        let! embeddings := lift (np_array rows) in
        let target_emb := py_slice embeddings chunk_index (chunk_index + 1) in
        let! hits := lift (search_rows index embeddings target_emb (top_k + 1)) in
        match hits with
        | [] => raise IndexError
        | first :: _ => lift (chunks_at chunks (map fst (drop 1 first)))
        end
  | _ => ret []
  end.

(** *** Views of the disk, to state the theorems with

    What the reading functions above return, as functions of the disk. *)

(** The value of [get_file_hash]. *)
Definition file_hash (f : disk) (file_path : string) : string :=
  match source_files f !! file_path with
  | Some content => hexdigest (md5 E content)
  | None => EmptyString
  end.

(** The value of [get_embedding_path]. *)
Definition embedding_path (f : disk) (file_path : string) : string :=
  if negb (PyStr.truthy (file_hash f file_path)) then EmptyString
  else PosixPath.join EMBEDDING_CACHE_DIR
         (PosixPath.splitext_root (PosixPath.basename file_path) ++ "_"
          ++ file_hash f file_path ++ ".pkl").

(** The value of [load_cached]: the embeddings found in the cache. *)
Definition cached_embeddings (f : disk) (source_file : option string) : list vec :=
  match source_file with
  | Some src =>
      if PyStr.truthy src && PyStr.truthy (embedding_path f src) then
        match cache_files f !! embedding_path f src with
        | Some (Pickled c) => embeddings c
        | _ => []
        end
      else []
  | None => []
  end.

(** The value of [load_existing]: the store a build starts from. *)
Definition stored (f : disk) : store_data :=
  match store_file f with
  | Some (Pickled data) => data
  | _ => empty_store
  end.

(** The texts sent to the service, and the embeddings it generates when
    called in state [s]. *)
Definition texts_of (h : loc -> chunk) (chunks : list loc) : list string :=
  map (fun c => text (h c)) chunks.

Definition generated (s : state) (chunks : list loc) : list vec :=
  imap (fun i t => embed_or_zero (length (provider_calls s) + i) t)
    (texts_of (heap s) chunks).

(** The hits of a search that [retrieve] keeps: those in range whose
    score passes the threshold test. *)
Definition kept_hits (threshold : option Q) (chunks : list chunk)
    (hits : list (option nat * Q)) : list (option nat * Q) :=
  List.filter
    (fun hit => hit_in_range chunks (fst hit)
                && keep_hit threshold (similarity_of (snd hit)))
    hits.

(** The loop invariant: [mem] still has the chunks of the store at
    their positions, and every position appended so far carries the
    score of a hit that passed the threshold test. *)
Definition loop_inv (threshold : option Q) (chunks : list chunk)
    (all : list (option nat * Q)) (mem : list chunk) (results : list nat) : Prop :=
  length mem = length chunks /\
  (forall p c, mem !! p = Some c ->
     exists c0, chunks !! p = Some c0 /\ origin c = origin c0) /\
  (forall p, p ∈ results ->
     exists c h, mem !! p = Some c /\ h ∈ all /\
       py_position chunks (fst h) = p /\
       keep_hit threshold (similarity_of (snd h)) = true /\
       similarity c = Some (similarity_of (snd h))).

(** The index a build adds its vectors to (lines 118-122). *)
Definition base_index (f : disk) (embs : list vec) : IndexFlatL2 :=
  match data_index (stored f) with
  | None => {| d := length (hd [] embs); xb := [] |}
  | Some ix => ix
  end.

(** The file map a successful build writes (lines 133-137). *)
Definition updated_file_map (f : disk) (chunks : list loc)
    (source_file : option string) : gmap string file_entry :=
  match source_file with
  | Some src =>
      if PyStr.truthy src
      then <[src := {| hash := file_hash f src;
                       chunk_indices :=
                         seq (length (data_chunks (stored f))) (length chunks) |}]>
             (data_file_map (stored f))
      else data_file_map (stored f)
  | None => data_file_map (stored f)
  end.

(** The value of [check_file_embeddings]. *)
Definition up_to_date (f : disk) (file_path : string) : bool :=
  match data_file_map (stored f) !! file_path with
  | Some e => String.eqb (file_hash f file_path) (hash e)
  | None => false
  end.

End Model.

(** ** [src/utils/helper.py]: from a document to chunks *)

(** The loop of [chunk_text] (lines 36-42) and what follows it: [cur] is
    the chunk being filled, [chunks] the chunks completed so far. *)
Definition flush_chunk (chunks : list string) (cur : string) : list string :=
  if PyStr.truthy (PyStr.strip cur) then chunks ++ [PyStr.strip cur] else chunks.

Fixpoint chunk_paragraphs (max_tokens : Z) (chunks : list string) (cur : string)
    (paragraphs : list string) : list string :=
  match paragraphs with
  | [] => flush_chunk chunks cur
  | p :: paragraphs' =>
      if (Z.of_nat (length (PyStr.split cur) + length (PyStr.split p)) <=? max_tokens)%Z
      then chunk_paragraphs max_tokens chunks (cur ++ PyStr.blank_line ++ p) paragraphs'
      else chunk_paragraphs max_tokens (flush_chunk chunks cur) p paragraphs'
  end.

Definition chunk_text (text : string) (max_tokens : Z) : list string :=
  chunk_paragraphs max_tokens [] EmptyString (PyStr.split_on PyStr.blank_line text).

(** The test of line 57.  [line[0]] is only reached for a line whose
    stripped form is not empty. *)
Definition is_header (line : string) : bool :=
  (String.length (PyStr.strip line) <? 100)
  && PyStr.truthy (PyStr.strip line)
  && match line with
     | String c _ => PyStr.isupper c
     | EmptyString => false
     end.

Definition extract_metadata (text : string) (page_num : Z) : list string :=
  firstn 3 (map PyStr.strip (List.filter is_header (PyStr.split_on PyStr.newline text))).

(** The chunks [process_pdf] makes of page [i] (counted from 0) with
    extracted text [page_text]. *)
Definition page_chunks (file_path : string) (i : nat) (page_text : string)
    : list chunk :=
  if PyStr.truthy page_text && PyStr.truthy (PyStr.strip page_text) then
    let metadata := extract_metadata page_text (Z.of_nat i + 1) in
    map (fun c => {| text := c;
                     source := PosixPath.basename file_path ++ ":page" ++ pretty (i + 1);
                     page := Z.of_nat i + 1;
                     headers := metadata;
                     index := None;
                     similarity := None |})
        (chunk_text page_text MAX_CHUNK_TOKENS)
  else [].

(** [process_pdf], given the texts PyPDF2 extracts from the pages of
    the document. *)
Definition process_pdf (file_path : string) (pages : list string) : list chunk :=
  concat (imap (page_chunks file_path) pages).

Definition clean_text (t : string) : string :=
  PyStr.strip (Re.keep_class (Re.collapse_spaces false t)).

(** *** [extract_key_terms] *)

Definition stopwords : list string :=
  ["the"; "a"; "an"; "and"; "or"; "but"; "in"; "on"; "at"; "to"; "for"; "is"; "was"; "are"].

Definition in_strings (w : string) (l : list string) : bool :=
  existsb (String.eqb w) l.

(** [Counter(words)]: the distinct words in the order of their first
    occurrence, each with the number of its occurrences. *)
Fixpoint counter_add (w : string) (counts : list (string * nat)) : list (string * nat) :=
  match counts with
  | [] => [(w, 1)]
  | (w', n) :: counts' =>
      if String.eqb w w' then (w', S n) :: counts'
      else (w', n) :: counter_add w counts'
  end.

Definition Counter (words : list string) : list (string * nat) :=
  fold_left (fun counts w => counter_add w counts) words [].

(** [sorted(items, key=itemgetter(1), reverse=True)]: by decreasing
    count; the sort is stable, so words with equal counts stay in the
    order of the counter. *)
Fixpoint insert_by_count (x : string * nat) (l : list (string * nat))
    : list (string * nat) :=
  match l with
  | [] => [x]
  | y :: l' => if snd x <? snd y then y :: insert_by_count x l' else x :: l
  end.

Definition sorted_by_count (l : list (string * nat)) : list (string * nat) :=
  fold_right insert_by_count [] l.

(** [most_common(n)] for an integer [n]: the first [n] items in that
    order, none for a negative [n]. *)
Definition most_common (counts : list (string * nat)) (n : Z) : list (string * nat) :=
  firstn (Z.to_nat n) (sorted_by_count counts).

Definition extract_key_terms (t : string) (num_terms : Z) : list string :=
  let words := PyStr.split (PyStr.lower t) in
  let words :=
    List.filter (fun w => (3 <? String.length w) && negb (in_strings w stopwords)) words in
  map fst (most_common (Counter words) num_terms).

(** ** [src/app.py]: uploading a document (lines 176-194) *)

(** What the page shows after an upload: the note that the stored
    embeddings are used, followed by the success message; the success
    message alone; or the error message of the handler. *)
Inductive upload_message : Type :=
| UsingCached
| Processed
| Failed.

Section Upload.

Variable E : env.

(** Lines 181-182: the uploaded bytes are written to the documents
    directory. *)
Definition write_source (file_path : string) (content : list Byte.byte) : M unit :=
  let! s := get_state in
  put_fs {| store_file := store_file (fs s);
            cache_files := cache_files (fs s);
            source_files := <[file_path := content]> (source_files (fs s)) |}.

(** The dictionaries [process_pdf] creates are new objects: they are
    placed at the addresses from [base] on, which the allocator hands
    out. *)
Definition allocate (base : loc) (chunks : list chunk) : M (list loc) :=
  let! s := get_state in
  do! put_heap (fun l => if base <=? l
                         then default (heap s l) (chunks !! (l - base))
                         else heap s l) in
  ret (seq base (length chunks)).

(** The handler, for a document that PyPDF2 reads: [pages] are the texts
    it extracts from the pages of the uploaded file. *)
Definition upload_pdf (name : string) (content : list Byte.byte)
    (pages : list string) (base : loc) : M upload_message :=
  try_except
    (let file_path := ("data/sample_docs/" ++ name)%string in
     do! write_source file_path content in
     let! cached := check_file_embeddings E file_path in
     if cached then ret UsingCached
     else
       let! chunks := allocate base (process_pdf file_path pages) in
       do! build_vector_store E chunks (Some file_path) in
       ret Processed)
    (ret Failed).

End Upload.

(** ** Histories of the store *)


(** [built E s pairs]: the state [s] is reached from a state without a
    store file by successful calls of [build_vector_store], each on
    pairwise distinct dictionaries and with one embedding per chunk;
    between the calls anything may happen that leaves the store file
    alone (the caller makes new chunks, queries run, files are cached).
    [pairs] records the insertions in order: each chunk as it was
    persisted, with the embedding it was inserted with. *)
Inductive built (E : env) : state -> list (chunk * vec) -> Prop :=
| built_start (s : state) :
    store_file (fs s) = None ->
    built E s []
| built_frame (s s' : state) (pairs : list (chunk * vec)) :
    built E s pairs ->
    store_file (fs s') = store_file (fs s) ->
    built E s' pairs
| built_build (s s1 s' : state) (pairs : list (chunk * vec))
    (chunks : list loc) (source_file : option string)
    (embs : list vec) (ix : IndexFlatL2) :
    built E s pairs ->
    NoDup chunks ->
    obtain_embeddings E chunks source_file s = (Ok embs, s1) ->
    length embs = length chunks ->
    build_vector_store E chunks source_file s = (Ok (Some ix), s') ->
    built E s' (pairs ++ combine (map (heap s') chunks) embs).

(** ** A small world to run the model in *)

Module Sample.

(** A stand-in for MD5: a polynomial digest of the bytes. *)
Definition digest (bs : list Byte.byte) : N :=
  fold_left (fun acc b => ((acc * 257 + Byte.to_N b + 1) mod 2 ^ 128)%N) bs 7%N.

(** A service that embeds a text in three dimensions. *)
Definition embed (n : nat) (t : string) : option vec :=
  Some [inject_Z (Z.of_nat (String.length t)); inject_Z (Z.of_nat n); 1%Q].

Definition l2sqr (x y : vec) : Q :=
  fold_left Qplus (map (fun p => (fst p - snd p) * (fst p - snd p))%Q (combine x y)) 0%Q.

Fixpoint insert_hit (h : option nat * Q) (l : list (option nat * Q))
    : list (option nat * Q) :=
  match l with
  | [] => [h]
  | h' :: l' => if Qle_bool (snd h) (snd h') then h :: l else h' :: insert_hit h l'
  end.

(** Exact search: all stored vectors ranked by distance to the query. *)
Definition nearest (ix : IndexFlatL2) (q : vec) (k : nat) : list (option nat * Q) :=
  firstn k
    (fold_right insert_hit []
       (imap (fun i v => (Some i, Qred (l2sqr q v))) (xb ix))).

Definition world : env :=
  {| md5 := digest; API_KEY := Some "secret"; embed_content := embed;
     knn := nearest; score_format := Float.binary32 |}.

(** The same world with scores computed in double precision. *)
Definition world_double : env :=
  {| md5 := digest; API_KEY := Some "secret"; embed_content := embed;
     knn := nearest; score_format := Float.binary64 |}.

(** The same world without credentials. *)
Definition world_no_key : env :=
  {| md5 := digest; API_KEY := None; embed_content := embed;
     knn := nearest; score_format := Float.binary32 |}.

Definition doc_chunk (t : string) : chunk :=
  {| text := t; source := "doc.pdf:page1"; page := 1; headers := [];
     index := None; similarity := None |}.

Definition objects (l : loc) : chunk :=
  match l with
  | 0 => doc_chunk "AI is a field of study"
  | 1 => doc_chunk "Machine learning is a subset of AI"
  | 2 => doc_chunk "Cooking  requires heat ."
  | _ => doc_chunk "another chunk"
  end.

Definition doc : string := "data/sample_docs/doc.pdf".

Definition empty_disk : disk :=
  {| store_file := None; cache_files := ∅;
     source_files := {[ doc := [Byte.x25; Byte.x50; Byte.x44; Byte.x46] ]} |}.

Definition start : state :=
  {| heap := objects; fs := empty_disk; provider_calls := [] |}.

(** The vectors of the three chunks of [doc]. *)
Definition xb_indexed : list vec := [[22; 0; 1]; [34; 1; 1]; [24; 2; 1]]%Q.

(** The state after the three chunks of [doc] were indexed. *)
Definition indexed : state :=
  snd (build_vector_store world [0; 1; 2] (Some doc) start).

(** The state after one chunk of [doc] was indexed, and the state after
    a second build that passes two other chunks for the same file. *)
Definition one_chunk : state :=
  snd (build_vector_store world [0] (Some doc) start).

Definition stale_cache : state :=
  snd (build_vector_store world [1; 2] (Some doc) one_chunk).

(** The state after a build that passes the same dictionary twice. *)
Definition shared : state :=
  snd (build_vector_store world [0; 0] None start).

(** The chunks persisted by that build, the hits of a query for two
    neighbours, and the state after the query. *)
Definition persisted : list chunk :=
  [set_index (objects 0) 0; set_index (objects 1) 1; set_index (objects 2) 2].

Definition hits : list (option nat * Q) := [(Some 2, 2%Q); (Some 0, 10%Q)].

Definition queried : state :=
  snd (query_hits world {| d := 3; xb := xb_indexed |} persisted
         "artificial intelligence" 2 indexed).

(** A service that fails on every second call. *)
Definition embed_flaky (n : nat) (t : string) : option vec :=
  if Nat.odd n then None else embed n t.

Definition world_flaky : env :=
  {| md5 := digest; API_KEY := Some "secret"; embed_content := embed_flaky;
     knn := nearest; score_format := Float.binary32 |}.

(** The state after the build of [doc] with that service: the second
    of the three embeddings is the vector of 768 zeros. *)
Definition poisoned : state :=
  snd (build_vector_store world_flaky [0; 1; 2] (Some doc) start).

(** The state after one more chunk was added to the store that the
    stale cache left. *)
Definition still_broken : state :=
  snd (build_vector_store world [3] None stale_cache).

(** Another document, and a disk with a copy of [doc] under another
    directory and extension. *)
Definition other : string := "data/sample_docs/other.pdf".

Definition copy : string := "backup/doc.txt".

Definition with_copy : state :=
  {| heap := objects;
     fs := {| store_file := None; cache_files := ∅;
              source_files :=
                {[ doc := [Byte.x25; Byte.x50; Byte.x44; Byte.x46];
                   copy := [Byte.x25; Byte.x50; Byte.x44; Byte.x46] ]} |};
     provider_calls := [] |}.

(** The texts of the pages of an uploaded document, and the state after
    its upload. *)
Definition pages : list string :=
  [ ("Introduction" ++ PyStr.newline ++ "AI is a field of study.")%string;
    "   ";
    ("Machine learning" ++ PyStr.blank_line ++ "is a subset of AI.")%string ].

Definition uploaded : state :=
  snd (upload_pdf world "doc.pdf" [Byte.x25; Byte.x50; Byte.x44; Byte.x46] pages 10 start).

End Sample.

(** * Properties *)

Ltac monad_unfold :=
  unfold bind, ret, raise, lift, get_state, put_fs, put_heap, try_except,
    pickle_load in *.

(** ** Floating point rounding *)

(** On the sample distances [Float] computes the score that the
    Standard Library's IEEE 754 arithmetic computes. *)
Example similarity_agrees_with_SpecFloat :
  forallb SpecCheck.agrees SpecCheck.distances = true.
Proof. vm_compute. reflexivity. Qed.

Section Rounding.

Local Open Scope Q_scope.

Lemma pow2_pos (e : Z) : 0 < 2 ^ e.
Proof. apply Qpower_0_lt. reflexivity. Qed.

Lemma pow2_add (a b : Z) : 2 ^ (a + b) == 2 ^ a * 2 ^ b.
Proof. apply Qpower_plus. discriminate. Qed.

Lemma pow2_le (a b : Z) : (a <= b)%Z -> 2 ^ a <= 2 ^ b.
Proof. intros H. apply Qpower_le_compat_l; [assumption|discriminate]. Qed.

Lemma pow2_lt (a b : Z) : (a < b)%Z -> 2 ^ a < 2 ^ b.
Proof. intros H. apply Qpower_lt_compat_l; [assumption|reflexivity]. Qed.

Lemma pow2_lt_inv (a b : Z) : 2 ^ a < 2 ^ b -> (a < b)%Z.
Proof. intros H. apply (Qpower_lt_compat_l_inv 2); [assumption|reflexivity]. Qed.

Lemma pow2_Z (e : Z) : (0 <= e)%Z -> 2 ^ e == inject_Z (2 ^ e).
Proof. intros H. symmetry. apply (Zpower_Qpower 2 e H). Qed.

Lemma pow2_sub (a b : Z) : 2 ^ (a - b) == 2 ^ a / 2 ^ b.
Proof.
  unfold Z.sub. rewrite pow2_add, Qpower_opp. reflexivity.
Qed.

Lemma Qnum_pos (q : Q) : 0 < q <-> (0 < Qnum q)%Z.
Proof. unfold Qlt. simpl. rewrite Z.mul_1_r. reflexivity. Qed.

(** [ilog2] is the floor of the binary logarithm. *)
Lemma ilog2_spec (q : Q) :
  0 < q -> 2 ^ Float.ilog2 q <= q /\ q < 2 ^ (Float.ilog2 q + 1).
Proof.
  intros Hq. unfold Float.ilog2.
  destruct q as [n dn]. apply Qnum_pos in Hq. simpl in Hq. simpl Qnum. simpl Qden.
  set (a := Z.log2 n). set (b := Z.log2 (Z.pos dn)).
  assert (Ha : (2 ^ a <= n < 2 ^ (a + 1))%Z).
  { pose proof (Z.log2_spec n Hq). unfold a. now rewrite <- Z.add_1_r in H. }
  assert (Hb : (2 ^ b <= Z.pos dn < 2 ^ (b + 1))%Z).
  { pose proof (Z.log2_spec (Z.pos dn) eq_refl). unfold b.
    now rewrite <- Z.add_1_r in H. }
  assert (Ha0 : (0 <= a)%Z) by apply Z.log2_nonneg.
  assert (Hb0 : (0 <= b)%Z) by apply Z.log2_nonneg.
  assert (Hn : inject_Z n == (n # dn) * inject_Z (Z.pos dn)).
  { unfold Qeq, Qmult, inject_Z. simpl. rewrite ?Pos.mul_1_r. ring. }
  assert (Hd : 0 < inject_Z (Z.pos dn)) by reflexivity.
  (* 2^(a-b-1) < q < 2^(a-b+1) *)
  assert (Hupper : (n # dn) < 2 ^ (a - b + 1)).
  { apply (Qmult_lt_r _ _ (inject_Z (Z.pos dn)) Hd). rewrite <- Hn.
    apply Qlt_le_trans with (inject_Z (2 ^ (a + 1))).
    - rewrite <- Zlt_Qlt. apply Ha.
    - rewrite <- pow2_Z by lia.
      replace (a + 1)%Z with ((a - b + 1) + b)%Z by ring.
      rewrite pow2_add. apply Qmult_le_l; [apply pow2_pos|].
      rewrite pow2_Z by assumption. rewrite <- Zle_Qle. apply Hb. }
  assert (Hlower : 2 ^ (a - b - 1) < (n # dn)).
  { apply (Qmult_lt_r _ _ (inject_Z (Z.pos dn)) Hd). rewrite <- Hn.
    apply Qlt_le_trans with (inject_Z (2 ^ a)).
    - rewrite <- pow2_Z by lia.
      replace a with ((a - b - 1) + (b + 1))%Z at 2 by ring.
      rewrite pow2_add. apply Qmult_lt_l; [apply pow2_pos|].
      rewrite pow2_Z by lia. rewrite <- Zlt_Qlt. apply Hb.
    - rewrite <- Zle_Qle. apply Ha. }
  destruct (Qle_bool (2 ^ (a - b)) (n # dn)) eqn:Hle.
  - apply Qle_bool_iff in Hle. split; assumption.
  - assert (Hlt : (n # dn) < 2 ^ (a - b)).
    { apply Qnot_le_lt. intros H. apply Qle_bool_iff in H. congruence. }
    split; [now apply Qlt_le_weak|].
    replace (a - b - 1 + 1)%Z with (a - b)%Z by ring. assumption.
Qed.

Lemma ilog2_unique (q : Q) (e : Z) :
  2 ^ e <= q -> q < 2 ^ (e + 1) -> Float.ilog2 q = e.
Proof.
  intros Hl Hu.
  assert (Hq : 0 < q) by (eapply Qlt_le_trans; [apply (pow2_pos e)|assumption]).
  destruct (ilog2_spec q Hq) as [Hl' Hu'].
  assert (H1 : (e < Float.ilog2 q + 1)%Z).
  { apply pow2_lt_inv. eapply Qle_lt_trans; eassumption. }
  assert (H2 : (Float.ilog2 q < e + 1)%Z).
  { apply pow2_lt_inv. eapply Qle_lt_trans; eassumption. }
  lia.
Qed.

Lemma ilog2_mono (q1 q2 : Q) :
  0 < q1 -> q1 <= q2 -> (Float.ilog2 q1 <= Float.ilog2 q2)%Z.
Proof.
  intros H1 H12.
  assert (H2 : 0 < q2) by (eapply Qlt_le_trans; eassumption).
  destruct (ilog2_spec q1 H1) as [Hl1 _].
  destruct (ilog2_spec q2 H2) as [_ Hu2].
  assert (H : (Float.ilog2 q1 < Float.ilog2 q2 + 1)%Z).
  { apply pow2_lt_inv. eapply Qle_lt_trans; [eassumption|].
    eapply Qle_lt_trans; eassumption. }
  lia.
Qed.


Lemma rne_bounds (q : Q) : (Qfloor q <= Float.rne q <= Qfloor q + 1)%Z.
Proof.
  unfold Float.rne. destruct (Qcompare _ _); [destruct (Z.even _)| |]; lia.
Qed.

Lemma rne_Z (z : Z) : Float.rne (inject_Z z) = z.
Proof.
  unfold Float.rne. rewrite Qfloor_Z.
  assert (H : inject_Z z - inject_Z z < 1 # 2).
  { unfold Qminus. rewrite Qplus_opp_r. reflexivity. }
  apply Qlt_alt in H.
  change (Qcompare (inject_Z z - inject_Z z) (1 # 2) = Lt) in H. now rewrite H.
Qed.

Lemma rne_mono (q1 q2 : Q) : q1 <= q2 -> (Float.rne q1 <= Float.rne q2)%Z.
Proof.
  intros H.
  pose proof (Qfloor_resp_le _ _ H) as Hf.
  pose proof (rne_bounds q1) as B1. pose proof (rne_bounds q2) as B2.
  destruct (Z.eq_dec (Qfloor q1) (Qfloor q2)) as [Heq|Hne]; [|lia].
  unfold Float.rne. rewrite <- Heq.
  assert (Hr : q1 - inject_Z (Qfloor q1) <= q2 - inject_Z (Qfloor q1)).
  { apply Qplus_le_l. assumption. }
  destruct (Qcompare (q1 - inject_Z (Qfloor q1)) (1 # 2)) eqn:C1;
    destruct (Qcompare (q2 - inject_Z (Qfloor q1)) (1 # 2)) eqn:C2;
    try (destruct (Z.even (Qfloor q1))); try lia; exfalso;
    repeat match goal with
      | C : Qcompare _ _ = Eq |- _ => apply Qeq_alt in C
      | C : Qcompare _ _ = Lt |- _ => apply Qlt_alt in C
      | C : Qcompare _ _ = Gt |- _ => apply Qgt_alt in C
      end; lra.
Qed.

Lemma rne_nonneg (q : Q) : 0 <= q -> (0 <= Float.rne q)%Z.
Proof.
  intros H. pose proof (rne_mono 0 q H) as Hm.
  change 0 with (inject_Z 0) in Hm. now rewrite rne_Z in Hm.
Qed.

Lemma rne_proper (q1 q2 : Q) : q1 == q2 -> Float.rne q1 = Float.rne q2.
Proof.
  intros H.
  assert (H1 : (Float.rne q1 <= Float.rne q2)%Z) by (apply rne_mono; rewrite H; apply Qle_refl).
  assert (H2 : (Float.rne q2 <= Float.rne q1)%Z) by (apply rne_mono; rewrite H; apply Qle_refl).
  lia.
Qed.

Section Format.

Variable f : Float.format.
Hypothesis f_valid : Float.valid f.

Lemma round_pos_nonneg (q : Q) : 0 <= q -> 0 <= Float.round_pos f q.
Proof.
  intros H. unfold Float.round_pos.
  apply Qmult_le_0_compat; [|apply Qlt_le_weak, pow2_pos].
  change 0 with (inject_Z 0). rewrite <- Zle_Qle. apply rne_nonneg.
  apply Qle_shift_div_l; [apply pow2_pos|]. now rewrite Qmult_0_l.
Qed.

(** A power of two at or above the unit in the last place is a float:
    rounding cannot cross it. *)
Lemma round_pos_ge_pow (q : Q) (k : Z) :
  2 ^ k <= q -> (Float.ulp_exp f q <= k)%Z -> 2 ^ k <= Float.round_pos f q.
Proof.
  intros Hq Hu. unfold Float.round_pos.
  set (u := Float.ulp_exp f q) in *.
  assert (Hk : 2 ^ k == inject_Z (2 ^ (k - u)) * 2 ^ u).
  { rewrite <- pow2_Z by lia. rewrite <- pow2_add. now replace (k - u + u)%Z with k by ring. }
  rewrite Hk. apply Qmult_le_r; [apply pow2_pos|].
  rewrite <- Zle_Qle. rewrite <- (rne_Z (2 ^ (k - u))). apply rne_mono.
  apply Qle_shift_div_l; [apply pow2_pos|]. now rewrite <- Hk.
Qed.

Lemma round_pos_le_pow (q : Q) (k : Z) :
  q <= 2 ^ k -> (Float.ulp_exp f q <= k)%Z -> Float.round_pos f q <= 2 ^ k.
Proof.
  intros Hq Hu. unfold Float.round_pos.
  set (u := Float.ulp_exp f q) in *.
  assert (Hk : 2 ^ k == inject_Z (2 ^ (k - u)) * 2 ^ u).
  { rewrite <- pow2_Z by lia. rewrite <- pow2_add. now replace (k - u + u)%Z with k by ring. }
  rewrite Hk. apply Qmult_le_r; [apply pow2_pos|].
  rewrite <- Zle_Qle. rewrite <- (rne_Z (2 ^ (k - u))). apply rne_mono.
  apply Qle_shift_div_r; [apply pow2_pos|]. now rewrite <- Hk.
Qed.

Lemma ulp_exp_mono (q1 q2 : Q) :
  0 < q1 -> q1 <= q2 -> (Float.ulp_exp f q1 <= Float.ulp_exp f q2)%Z.
Proof.
  intros H1 H12. unfold Float.ulp_exp.
  pose proof (ilog2_mono q1 q2 H1 H12). lia.
Qed.

(** Rounding is monotone. *)
Lemma round_pos_mono (q1 q2 : Q) :
  0 < q1 -> q1 <= q2 -> Float.round_pos f q1 <= Float.round_pos f q2.
Proof using f_valid.
  intros H1 H12.
  assert (H2 : 0 < q2) by (eapply Qlt_le_trans; eassumption).
  destruct f_valid as [Hp Hemin].
  pose proof (ulp_exp_mono q1 q2 H1 H12) as Hu.
  destruct (Z.eq_dec (Float.ulp_exp f q1) (Float.ulp_exp f q2)) as [Heq|Hne].
  - unfold Float.round_pos. rewrite Heq.
    apply Qmult_le_r; [apply pow2_pos|].
    rewrite <- Zle_Qle. apply rne_mono.
    apply Qmult_le_r; [apply Qinv_lt_0_compat, pow2_pos|assumption].
  - destruct (ilog2_spec q1 H1) as [_ Hu1].
    destruct (ilog2_spec q2 H2) as [Hl2 _].
    unfold Float.ulp_exp in Hu, Hne.
    apply Qle_trans with (2 ^ Float.ilog2 q2).
    + apply round_pos_le_pow.
      * apply Qle_trans with (2 ^ (Float.ilog2 q1 + 1)); [now apply Qlt_le_weak|].
        apply pow2_le. lia.
      * unfold Float.ulp_exp. lia.
    + apply round_pos_ge_pow; [assumption|]. unfold Float.ulp_exp. lia.
Qed.

Lemma round_pos_eq (q : Q) : 0 < q -> Float.round f q = Float.round_pos f q.
Proof.
  intros H. apply Qnum_pos in H. unfold Float.round.
  destruct (Qnum q); try lia. reflexivity.
Qed.

Lemma ulp_exp_pow (q : Q) (k : Z) :
  2 ^ k <= q -> q < 2 ^ (k + 1) -> (Float.emin f <= k)%Z ->
  (Float.ulp_exp f q <= k)%Z.
Proof using f_valid.
  intros Hl Hu Hk. unfold Float.ulp_exp.
  rewrite (ilog2_unique q k Hl Hu). destruct f_valid. lia.
Qed.

Lemma round_pos_pow (q : Q) (k : Z) :
  q == 2 ^ k -> (Float.emin f <= k)%Z -> Float.round_pos f q == 2 ^ k.
Proof using f_valid.
  intros Hq Hk.
  assert (Hu : (Float.ulp_exp f q <= k)%Z).
  { apply ulp_exp_pow; [rewrite Hq; apply Qle_refl| |assumption].
    rewrite Hq. apply pow2_lt. lia. }
  apply Qle_antisym.
  - apply round_pos_le_pow; [rewrite Hq; apply Qle_refl|assumption].
  - apply round_pos_ge_pow; [rewrite Hq; apply Qle_refl|assumption].
Qed.


Lemma round_pos_one (q : Q) : q == 1 -> Float.round_pos f q == 1.
Proof using f_valid.
  intros Hq. change 1 with (2 ^ 0). apply round_pos_pow; [exact Hq|].
  destruct f_valid. lia.
Qed.

Lemma add_one_ge (d : Q) : 0 <= d -> 1 <= Float.add f 1 d.
Proof using f_valid.
  intros Hd. unfold Float.add.
  assert (H1 : 1 <= 1 + d) by lra.
  rewrite round_pos_eq by lra.
  apply Qle_trans with (Float.round_pos f 1).
  - apply Qle_lteq. right. symmetry. now apply round_pos_one.
  - apply round_pos_mono; [reflexivity|assumption].
Qed.

Lemma add_one_mono (d1 d2 : Q) :
  0 <= d1 -> d1 <= d2 -> Float.add f 1 d1 <= Float.add f 1 d2.
Proof using f_valid.
  intros H1 H12. unfold Float.add. rewrite !round_pos_eq by lra.
  apply round_pos_mono; lra.
Qed.

Lemma inv_pos (x : Q) : 0 < x -> 0 < 1 / x.
Proof.
  intros H. unfold Qdiv. rewrite Qmult_1_l. now apply Qinv_lt_0_compat.
Qed.

Lemma inv_antitone (x1 x2 : Q) : 0 < x1 -> x1 <= x2 -> 1 / x2 <= 1 / x1.
Proof.
  intros H1 H12.
  assert (H2 : 0 < x2) by (eapply Qlt_le_trans; eassumption).
  apply Qle_shift_div_l; [assumption|].
  unfold Qdiv. rewrite <- Qmult_assoc, (Qmult_comm (/ x2)), Qmult_assoc.
  apply Qle_shift_div_r; [assumption|]. lra.
Qed.

Lemma div_one_mono (x1 x2 : Q) :
  0 < x1 -> x1 <= x2 -> Float.div f 1 x2 <= Float.div f 1 x1.
Proof using f_valid.
  intros H1 H12.
  assert (H2 : 0 < x2) by (eapply Qlt_le_trans; eassumption).
  unfold Float.div. rewrite !round_pos_eq by now apply inv_pos.
  apply round_pos_mono; [now apply inv_pos|now apply inv_antitone].
Qed.

Lemma div_one_range (x : Q) :
  1 <= x -> 0 <= Float.div f 1 x /\ Float.div f 1 x <= 1.
Proof using f_valid.
  intros Hx. assert (H0 : 0 < x) by lra.
  pose proof (inv_pos x H0) as Hi.
  unfold Float.div. rewrite round_pos_eq by assumption.
  split; [apply round_pos_nonneg; lra|].
  apply Qle_trans with (Float.round_pos f (1 / 1)).
  - apply round_pos_mono; [assumption|].
    apply inv_antitone; [reflexivity|assumption].
  - apply Qle_lteq. right. now apply round_pos_one.
Qed.

Lemma add_one_le_pow (d : Q) (k : Z) :
  0 <= d -> 1 + d <= 2 ^ k -> (Float.emin f <= k)%Z ->
  Float.add f 1 d <= 2 ^ k.
Proof using f_valid.
  intros Hd Hk Hemin. unfold Float.add. rewrite round_pos_eq by lra.
  apply round_pos_le_pow; [assumption|].
  assert (Hq : 0 < 1 + d) by lra.
  destruct (ilog2_spec (1 + d) Hq) as [Hl _].
  assert (Hlk : (Float.ilog2 (1 + d) <= k)%Z).
  { apply (Qpower_le_compat_l_inv 2); [|reflexivity].
    eapply Qle_trans; eassumption. }
  unfold Float.ulp_exp. destruct f_valid. lia.
Qed.

Lemma div_one_ge_pow (x : Q) :
  0 < x -> x <= 2 ^ (- Float.emin f) -> 2 ^ Float.emin f <= Float.div f 1 x.
Proof using f_valid.
  intros H0 Hx. unfold Float.div. rewrite round_pos_eq by now apply inv_pos.
  apply Qle_trans with (Float.round_pos f (1 / 2 ^ (- Float.emin f))).
  - apply Qle_lteq. right. symmetry. apply round_pos_pow; [|lia].
    rewrite Qpower_opp. unfold Qdiv. rewrite Qmult_1_l, Qinv_involutive. reflexivity.
  - apply round_pos_mono; [apply inv_pos, pow2_pos|].
    apply inv_antitone; assumption.
Qed.

Lemma add_one_zero (d : Q) : d == 0 -> Float.add f 1 d == 1.
Proof using f_valid.
  intros Hd. unfold Float.add.
  assert (H1 : 1 + d == 1) by (rewrite Hd; reflexivity).
  rewrite round_pos_eq by (rewrite H1; reflexivity).
  now apply round_pos_one.
Qed.

Lemma div_one_one (x : Q) : x == 1 -> Float.div f 1 x == 1.
Proof using f_valid.
  intros Hx. unfold Float.div.
  assert (H1 : 1 / x == 1) by (rewrite Hx; reflexivity).
  rewrite round_pos_eq by (rewrite H1; reflexivity).
  now apply round_pos_one.
Qed.

Lemma round_pos_proper (q1 q2 : Q) :
  0 < q1 -> q1 == q2 -> Float.round_pos f q1 == Float.round_pos f q2.
Proof using f_valid.
  intros H1 H. assert (H2 : 0 < q2) by (rewrite <- H; assumption).
  apply Qle_antisym; apply round_pos_mono; try assumption;
    rewrite H; apply Qle_refl.
Qed.

(** A float of the format is rounded to itself. *)
Lemma round_pos_fixed (n e : Z) :
  (0 < n < 2 ^ Float.prec f)%Z -> (Float.emin f <= e)%Z ->
  Float.round_pos f (inject_Z n * 2 ^ e) == inject_Z n * 2 ^ e.
Proof using f_valid.
  intros [Hn0 Hn] He. destruct f_valid as [Hp Hemin].
  set (x := inject_Z n * 2 ^ e).
  assert (Hx : 0 < x).
  { unfold x. apply Qmult_lt_0_compat; [|apply pow2_pos].
    change 0 with (inject_Z 0). now rewrite <- Zlt_Qlt. }
  assert (Hxu : x < 2 ^ (Float.prec f + e)).
  { unfold x. rewrite pow2_add. apply Qmult_lt_r; [apply pow2_pos|].
    rewrite pow2_Z by lia. now rewrite <- Zlt_Qlt. }
  destruct (ilog2_spec x Hx) as [Hl _].
  assert (Hk : (Float.ilog2 x < Float.prec f + e)%Z).
  { apply pow2_lt_inv. eapply Qle_lt_trans; eassumption. }
  unfold Float.round_pos. set (u := Float.ulp_exp f x).
  assert (Hu : (u <= e)%Z) by (unfold u, Float.ulp_exp; lia).
  assert (Hq : x / 2 ^ u == inject_Z (n * 2 ^ (e - u))).
  { unfold x. rewrite inject_Z_mult, <- pow2_Z by lia. rewrite pow2_sub.
    unfold Qdiv. ring. }
  rewrite (rne_proper _ _ Hq), rne_Z.
  rewrite inject_Z_mult, <- pow2_Z by lia. rewrite pow2_sub.
  unfold x. field. apply Qnot_eq_sym, Qlt_not_eq, pow2_pos.
Qed.

(** The result of rounding is zero or a float of the format. *)
Lemma round_pos_float (q : Q) :
  0 < q ->
  Float.round_pos f q == 0 \/
  exists n e, (0 < n < 2 ^ Float.prec f)%Z /\ (Float.emin f <= e)%Z /\
              Float.round_pos f q == inject_Z n * 2 ^ e.
Proof using f_valid.
  intros Hq. destruct f_valid as [Hp Hemin].
  unfold Float.round_pos. set (u := Float.ulp_exp f q).
  assert (Hu : (Float.emin f <= u)%Z) by (unfold u, Float.ulp_exp; lia).
  assert (Hu' : (Float.ilog2 q + 1 - u <= Float.prec f)%Z)
    by (unfold u, Float.ulp_exp; lia).
  destruct (ilog2_spec q Hq) as [_ Hup].
  set (n0 := Float.rne (q / 2 ^ u)).
  assert (H0 : (0 <= n0)%Z).
  { apply rne_nonneg. apply Qle_shift_div_l; [apply pow2_pos|].
    rewrite Qmult_0_l. now apply Qlt_le_weak. }
  assert (Hmax : (n0 <= 2 ^ Float.prec f)%Z).
  { rewrite <- (rne_Z (2 ^ Float.prec f)). apply rne_mono.
    apply Qle_shift_div_r; [apply pow2_pos|].
    rewrite <- pow2_Z by lia. rewrite <- pow2_add.
    apply Qle_trans with (2 ^ (Float.ilog2 q + 1)); [now apply Qlt_le_weak|].
    apply pow2_le. lia. }
  destruct (Z.eq_dec n0 0%Z) as [Hz|Hnz].
  - left. rewrite Hz. apply Qmult_0_l.
  - right. destruct (Z.eq_dec n0 (2 ^ Float.prec f)%Z) as [Htop|Hlt].
    + exists (2 ^ (Float.prec f - 1))%Z, (u + 1)%Z. split; [|split; [lia|]].
      * split; [apply Z.pow_pos_nonneg; lia|apply Z.pow_lt_mono_r; lia].
      * rewrite Htop. rewrite <- !pow2_Z by lia. rewrite <- !pow2_add.
        now replace (Float.prec f - 1 + (u + 1))%Z with (Float.prec f + u)%Z by ring.
    + exists n0, u. split; [lia|]. split; [assumption|reflexivity].
Qed.

Lemma round_pos_idem (q : Q) :
  0 < q -> 0 < Float.round_pos f q ->
  Float.round_pos f (Float.round_pos f q) == Float.round_pos f q.
Proof using f_valid.
  intros Hq Hr.
  destruct (round_pos_float q Hq) as [H0|(n & e & Hn & He & Heq)].
  - rewrite H0 in Hr. exfalso. apply (Qlt_irrefl _ Hr).
  - rewrite (round_pos_proper _ _ Hr Heq), round_pos_fixed by assumption.
    symmetry. exact Heq.
Qed.

Lemma Qnum_zero (q : Q) : Qnum q = 0%Z -> q == 0.
Proof. intros H. unfold Qeq. simpl. rewrite H. reflexivity. Qed.

Lemma Qnum_neg (q : Q) : q < 0 <-> (Qnum q < 0)%Z.
Proof. unfold Qlt. simpl. rewrite Z.mul_1_r. reflexivity. Qed.

Lemma round_zero (q : Q) : q == 0 -> Float.round f q = 0.
Proof.
  intros H. unfold Qeq in H. simpl in H. rewrite Z.mul_1_r in H.
  unfold Float.round. now rewrite H.
Qed.

Lemma round_neg_eq (q : Q) : q < 0 -> Float.round f q = - Float.round_pos f (- q).
Proof.
  intros H. apply Qnum_neg in H. unfold Float.round.
  destruct (Qnum q); try lia. reflexivity.
Qed.

(** Conversion to the format respects equality of rationals. *)
Lemma round_proper (q1 q2 : Q) : q1 == q2 -> Float.round f q1 == Float.round f q2.
Proof using f_valid.
  intros H. destruct (Q_dec q1 0) as [[Hlt|Hgt]|Heq].
  - rewrite (round_neg_eq q1 Hlt), (round_neg_eq q2) by (rewrite <- H; assumption).
    apply Qopp_comp. apply round_pos_proper; [lra|now rewrite H].
  - rewrite (round_pos_eq q1 Hgt), (round_pos_eq q2) by (rewrite <- H; assumption).
    now apply round_pos_proper.
  - rewrite (round_zero q1 Heq), (round_zero q2) by (rewrite <- H; assumption).
    reflexivity.
Qed.

(** Conversion to the format leaves a float of the format as it is. *)
Lemma round_idem (q : Q) : Float.round f (Float.round f q) == Float.round f q.
Proof using f_valid.
  assert (Hpos : forall x, 0 < x ->
            Float.round f (Float.round_pos f x) == Float.round_pos f x).
  { intros x Hx.
    pose proof (round_pos_nonneg x (Qlt_le_weak _ _ Hx)) as Hr.
    destruct (Q_dec (Float.round_pos f x) 0) as [[Hlt|Hgt]|Heq].
    - exfalso. apply (Qlt_irrefl 0). eapply Qle_lt_trans; eassumption.
    - rewrite (round_pos_eq _ Hgt). now apply round_pos_idem.
    - rewrite (round_zero _ Heq). symmetry. exact Heq. }
  destruct (Q_dec q 0) as [[Hlt|Hgt]|Heq].
  - rewrite (round_neg_eq q Hlt).
    assert (Hx : 0 < - q) by lra.
    pose proof (round_pos_nonneg (- q) (Qlt_le_weak _ _ Hx)) as Hr.
    destruct (Q_dec (Float.round_pos f (- q)) 0) as [[Hlt'|Hgt']|Heq'].
    + exfalso. apply (Qlt_irrefl 0). eapply Qle_lt_trans; eassumption.
    + assert (Hneg : - Float.round_pos f (- q) < 0) by lra.
      rewrite (round_neg_eq _ Hneg). apply Qopp_comp.
      rewrite (round_pos_proper (- - Float.round_pos f (- q)) (Float.round_pos f (- q)))
        by (try lra; apply Qopp_involutive).
      now apply round_pos_idem.
    + assert (Hz : - Float.round_pos f (- q) == 0) by (rewrite Heq'; reflexivity).
      rewrite (round_zero _ Hz). symmetry. exact Hz.
  - rewrite (round_pos_eq q Hgt). now apply Hpos.
  - rewrite (round_zero q Heq). apply (round_proper 0 0). reflexivity.
Qed.

End Format.

(** Before rounding, the quotient has the properties the design states:
    it is strictly decreasing, lies in (0, 1], and is 1 only at 0. *)
Lemma exact_quotient_strict (d1 d2 : Q) :
  0 <= d1 -> d1 < d2 ->
  1 / (1 + d2) < 1 / (1 + d1) /\ 0 < 1 / (1 + d2) /\ 1 / (1 + d2) < 1 /\
  1 / (1 + d1) <= 1.
Proof.
  intros H1 H12.
  assert (Hp1 : 0 < 1 + d1) by lra. assert (Hp2 : 0 < 1 + d2) by lra.
  repeat split.
  - apply Qlt_shift_div_l; [assumption|].
    unfold Qdiv. rewrite <- Qmult_assoc, (Qmult_comm (/ _)), Qmult_assoc.
    apply Qlt_shift_div_r; [assumption|]. lra.
  - now apply inv_pos.
  - apply Qlt_shift_div_r; [assumption|]. lra.
  - apply Qle_shift_div_r; [assumption|]. lra.
Qed.

(** C6, as the code has it: the score is the floating point value of
    [1 / (1 + d)].  On non-negative distances it never increases with
    the distance, it lies between 0 and 1, it is positive for all
    distances up to [2 ^ (- emin) - 1] (every finite float), and it is 1
    at distance 0. *)
Theorem similarity_of_monotone (E : env) :
  Float.valid (score_format E) ->
  (forall d1 d2, 0 <= d1 -> d1 <= d2 -> similarity_of E d2 <= similarity_of E d1) /\
  (forall d, 0 <= d -> 0 <= similarity_of E d /\ similarity_of E d <= 1) /\
  (forall d, 0 <= d -> 1 + d <= 2 ^ (- Float.emin (score_format E)) ->
             0 < similarity_of E d) /\
  (forall d, d == 0 -> similarity_of E d == 1).
Proof.
  intros Hv. unfold similarity_of.
  assert (Hge : forall d, 0 <= d -> 0 < Float.add (score_format E) 1 d).
  { intros d Hd. apply Qlt_le_trans with 1; [reflexivity|now apply add_one_ge]. }
  split; [|split; [|split]].
  - intros d1 d2 H1 H12.
    apply div_one_mono; [assumption|now apply Hge|now apply add_one_mono].
  - intros d Hd. apply div_one_range; [assumption|now apply add_one_ge].
  - intros d Hd Hmax.
    apply Qlt_le_trans with (2 ^ Float.emin (score_format E)); [apply pow2_pos|].
    apply div_one_ge_pow; [assumption|now apply Hge|].
    apply add_one_le_pow; [assumption..|]. destruct Hv. lia.
  - intros d Hd. apply div_one_one; [assumption|]. now apply add_one_zero.
Qed.


End Rounding.

(** ** Loading and clearing the store *)

Section StoreFile.

Lemma load_vector_store_state (s : state) :
  snd (load_vector_store s) = s.
Proof.
  unfold load_vector_store. monad_unfold.
  destruct (store_file (fs s)) as [[|data]|]; simpl; try reflexivity.
  destruct (data_index data) as [ix|]; simpl; try reflexivity.
  destruct (length (data_chunks data) =? ntotal ix); reflexivity.
Qed.

(** C2: [load_vector_store] never raises and leaves the disk alone.  It
    returns the stored index and chunks exactly when the file holds a
    readable store whose index is present and counts as many vectors as
    there are chunks; in every other case (no file, an unreadable file,
    no index, different counts) it returns [(None, None)], never one
    component without the other. *)
Theorem load_vector_store_integrity (s : state) :
  exists r,
    load_vector_store s = (Ok r, s) /\
    (forall ix cs,
        r = (Some ix, Some cs) <->
        exists data,
          store_file (fs s) = Some (Pickled data) /\
          data_index data = Some ix /\ data_chunks data = cs /\
          length cs = ntotal ix) /\
    (r = (None, None) \/ exists ix cs, r = (Some ix, Some cs)).
Proof.
  unfold load_vector_store. monad_unfold.
  destruct (store_file (fs s)) as [[|data]|] eqn:Hf; simpl.
  - exists (None, None). split; [reflexivity|]. split; [|now left].
    intros ix cs. split; [discriminate|]. intros (data & H & _). discriminate.
  - destruct (data_index data) as [ix|] eqn:Hix; simpl.
    + destruct (length (data_chunks data) =? ntotal ix) eqn:Hlen.
      * exists (Some ix, Some (data_chunks data)).
        split; [reflexivity|]. split; [|right; eauto].
        apply Nat.eqb_eq in Hlen.
        intros ix' cs. split.
        -- intros H. injection H as <- <-. exists data. auto.
        -- intros (data' & H1 & H2 & H3 & _).
           injection H1 as <-. congruence.
      * exists (None, None). split; [reflexivity|]. split; [|now left].
        apply Nat.eqb_neq in Hlen.
        intros ix' cs. split; [discriminate|].
        intros (data' & H1 & H2 & H3 & H4).
        injection H1 as <-. congruence.
    + exists (None, None). split; [reflexivity|]. split; [|now left].
      intros ix' cs. split; [discriminate|].
      intros (data' & H1 & H2 & _). injection H1 as <-. congruence.
  - exists (None, None). split; [reflexivity|]. split; [|now left].
    intros ix cs. split; [discriminate|]. intros (data & H & _). discriminate.
Qed.

(** C9: when the store file exists, [clear_vector_store] removes it and
    returns [True]; a second call right after returns [False] and changes
    nothing; and [load_vector_store] then returns [(None, None)].  When
    no store file exists the call returns [False]. *)
Theorem clear_vector_store_twice (s : state) :
  (store_file (fs s) = None -> clear_vector_store s = (Ok false, s)) /\
  (store_file (fs s) <> None ->
   exists s1,
     clear_vector_store s = (Ok true, s1) /\
     store_file (fs s1) = None /\
     cache_files (fs s1) = cache_files (fs s) /\
     source_files (fs s1) = source_files (fs s) /\
     heap s1 = heap s /\
     clear_vector_store s1 = (Ok false, s1) /\
     load_vector_store s1 = (Ok (None, None), s1)).
Proof.
  unfold clear_vector_store, load_vector_store. monad_unfold.
  split.
  - intros ->. reflexivity.
  - intros Hex. destruct (store_file (fs s)) as [f|]; [|congruence].
    eexists. split; [reflexivity|]. simpl. repeat split.
Qed.

End StoreFile.

(** ** The embedding provider *)

Section Provider.

Variable E : env.

Lemma log_calls_nil (s : state) : log_calls s [] = s.
Proof. destruct s. unfold log_calls. simpl. now rewrite app_nil_r. Qed.

Lemma log_calls_app (s : state) (l1 l2 : list string) :
  log_calls (log_calls s l1) l2 = log_calls s (l1 ++ l2).
Proof. unfold log_calls. simpl. now rewrite app_assoc. Qed.

Lemma embed_all_spec (texts : list string) (s : state) :
  embed_all E texts s =
    (Ok (imap (fun i t => embed_or_zero E (length (provider_calls s) + i) t) texts),
     log_calls s texts).
Proof.
  revert s. induction texts as [|t texts IH]; intros s.
  - simpl. unfold ret. now rewrite log_calls_nil.
  - cbn [embed_all]. unfold bind at 1. unfold embed_one at 1.
    unfold bind at 1. rewrite IH. unfold ret.
    rewrite log_calls_app. cbn [imap app]. f_equal. f_equal.
    rewrite Nat.add_0_r. f_equal.
    apply imap_ext. intros i x _. simpl.
    rewrite length_app. simpl. f_equal. lia.
Qed.

(** C7, as the code has it: with a key configured, [get_embedding]
    returns one vector per text, in the order of the texts; the vector
    of a text is the one the service returned for it, and the zero
    vector of dimension 768 when that call failed.  It does not raise,
    and it calls the service once per text. *)
Theorem get_embedding_never_shrinks (texts : list string) (s : state) :
  truthy_opt (API_KEY E) = true ->
  exists vs,
    get_embedding E texts s = (Ok vs, log_calls s texts) /\
    length vs = length texts /\
    forall i t,
      texts !! i = Some t ->
      vs !! i = Some (embed_or_zero E (length (provider_calls s) + i) t) /\
      (embed_content E (length (provider_calls s) + i) t = None ->
       vs !! i = Some (zeros 768)).
Proof.
  intros Hkey. unfold get_embedding. rewrite Hkey, embed_all_spec.
  eexists. split; [reflexivity|]. split.
  - now rewrite length_imap.
  - intros i t Hi.
    assert (H : imap (fun i t => embed_or_zero E (length (provider_calls s) + i) t) texts !! i
                = Some (embed_or_zero E (length (provider_calls s) + i) t)).
    { rewrite list_lookup_imap, Hi. reflexivity. }
    split; [exact H|]. intros Hnone. rewrite H. unfold embed_or_zero.
    now rewrite Hnone.
Qed.

Lemma get_embedding_no_key (texts : list string) (s : state) :
  truthy_opt (API_KEY E) = false ->
  get_embedding E texts s = (Raise ValueError, s).
Proof. intros Hkey. unfold get_embedding. now rewrite Hkey. Qed.

End Provider.

(** ** Building the store *)

Section Build.

Variable E : env.

(** C10: [build_vector_store] on an empty list of chunks returns [None]
    at once: no embedding is asked for, the heap, the store file and the
    cache files are those of before the call. *)
Theorem build_vector_store_empty (source_file : option string) (s : state) :
  build_vector_store E [] source_file s = (Ok None, s).
Proof. reflexivity. Qed.


Lemma get_file_hash_run (p : string) (s : state) :
  get_file_hash E p s = (Ok (file_hash E (fs s) p), s).
Proof.
  unfold get_file_hash, file_hash. monad_unfold.
  destruct (source_files (fs s) !! p); reflexivity.
Qed.

Lemma get_embedding_path_run (p : string) (s : state) :
  get_embedding_path E p s = (Ok (embedding_path E (fs s) p), s).
Proof.
  unfold get_embedding_path, embedding_path. unfold bind.
  rewrite get_file_hash_run.
  destruct (negb (PyStr.truthy (file_hash E (fs s) p))); reflexivity.
Qed.

Lemma load_existing_run (s : state) :
  load_existing s = (Ok (stored (fs s)), s).
Proof.
  unfold load_existing, stored. monad_unfold.
  destruct (store_file (fs s)) as [[|data]|]; reflexivity.
Qed.

Lemma load_cached_run (src : option string) (s : state) :
  load_cached E src s = (Ok (cached_embeddings E (fs s) src), s).
Proof.
  unfold load_cached, cached_embeddings.
  destruct src as [src|]; [|reflexivity].
  destruct (PyStr.truthy src); [|reflexivity]. simpl.
  unfold bind. rewrite get_embedding_path_run. unfold get_state.
  destruct (PyStr.truthy (embedding_path E (fs s) src)); [|reflexivity].
  destruct (cache_files (fs s) !! embedding_path E (fs s) src) as [[|c]|];
    reflexivity.
Qed.


Lemma store_cached_run (chunks : list loc) (src : option string)
    (embs : list vec) (s : state) :
  exists s1,
    store_cached E chunks src embs s = (Ok tt, s1) /\
    heap s1 = heap s /\
    provider_calls s1 = provider_calls s /\
    store_file (fs s1) = store_file (fs s) /\
    source_files (fs s1) = source_files (fs s) /\
    (forall p,
        src = Some p -> PyStr.truthy p = true -> embs <> [] ->
        PyStr.truthy (embedding_path E (fs s) p) = true ->
        cache_files (fs s1) =
          <[embedding_path E (fs s) p :=
              Pickled {| embeddings := embs;
                         cached_chunks := map (heap s) chunks |}]>
            (cache_files (fs s))).
Proof.
  unfold store_cached.
  destruct src as [p|]; [|exists s; repeat split; intros; discriminate].
  destruct embs as [|v embs]; [exists s; repeat split; intros; congruence|].
  destruct (PyStr.truthy p) eqn:Hp;
    [|exists s; repeat split; intros ? [= <-]; congruence].
  unfold bind. rewrite get_embedding_path_run.
  destruct (PyStr.truthy (embedding_path E (fs s) p)) eqn:Hpath.
  - unfold get_state, put_fs. eexists. split; [reflexivity|]. simpl.
    repeat split. intros p' [= <-] _ _ _. reflexivity.
  - exists s. repeat split. intros p' [= <-]. congruence.
Qed.


Lemma obtain_embeddings_cached (chunks : list loc) (src : option string) (s : state) :
  cached_embeddings E (fs s) src <> [] ->
  obtain_embeddings E chunks src s = (Ok (cached_embeddings E (fs s) src), s).
Proof.
  intros Hc. unfold obtain_embeddings. unfold bind at 1.
  rewrite load_cached_run.
  destruct (cached_embeddings E (fs s) src); [congruence|reflexivity].
Qed.

Lemma obtain_embeddings_no_key (chunks : list loc) (src : option string) (s : state) :
  cached_embeddings E (fs s) src = [] ->
  truthy_opt (API_KEY E) = false ->
  obtain_embeddings E chunks src s = (Raise ValueError, s).
Proof.
  intros Hc Hkey. unfold obtain_embeddings. unfold bind at 1.
  rewrite load_cached_run, Hc. unfold bind, get_state.
  now rewrite get_embedding_no_key.
Qed.

Lemma obtain_embeddings_generated (chunks : list loc) (src : option string) (s : state) :
  cached_embeddings E (fs s) src = [] ->
  truthy_opt (API_KEY E) = true ->
  exists s1,
    obtain_embeddings E chunks src s = (Ok (generated E s chunks), s1) /\
    heap s1 = heap s /\
    provider_calls s1 = provider_calls s ++ texts_of (heap s) chunks /\
    store_file (fs s1) = store_file (fs s) /\
    source_files (fs s1) = source_files (fs s) /\
    (forall p,
        src = Some p -> PyStr.truthy p = true -> chunks <> [] ->
        PyStr.truthy (embedding_path E (fs s) p) = true ->
        cache_files (fs s1) =
          <[embedding_path E (fs s) p :=
              Pickled {| embeddings := generated E s chunks;
                         cached_chunks := map (heap s) chunks |}]>
            (cache_files (fs s))).
Proof.
  intros Hc Hkey. unfold obtain_embeddings. unfold bind at 1.
  rewrite load_cached_run, Hc. unfold bind at 1. unfold get_state.
  unfold bind at 1. unfold get_embedding. rewrite Hkey, embed_all_spec.
  fold (texts_of (heap s) chunks). fold (generated E s chunks).
  destruct (store_cached_run chunks src (generated E s chunks)
              (log_calls s (texts_of (heap s) chunks)))
    as (s1 & Hrun & Hh & Hp & Hst & Hsrc & Hcache).
  unfold bind. rewrite Hrun. exists s1. split; [reflexivity|].
  repeat split; try assumption.
  intros p -> Htp Hne Hpath. apply Hcache; auto.
  unfold generated, texts_of. destruct chunks; [congruence|discriminate].
Qed.

Lemma obtain_embeddings_frame (chunks : list loc) (src : option string)
    (s s1 : state) (r : result (list vec)) :
  obtain_embeddings E chunks src s = (r, s1) ->
  heap s1 = heap s /\ store_file (fs s1) = store_file (fs s) /\
  source_files (fs s1) = source_files (fs s).
Proof.
  intros H.
  destruct (cached_embeddings E (fs s) src) as [|v vs] eqn:Hc.
  - destruct (truthy_opt (API_KEY E)) eqn:Hkey.
    + destruct (obtain_embeddings_generated chunks src s Hc Hkey)
        as (s2 & Hrun & ? & ? & ? & ? & _).
      rewrite Hrun in H. injection H as <- <-. auto.
    + rewrite (obtain_embeddings_no_key chunks src s Hc Hkey) in H.
      injection H as <- <-. auto.
  - rewrite obtain_embeddings_cached in H by (rewrite Hc; discriminate).
    injection H as <- <-. auto.
Qed.


Lemma save_store_run (existing : store_data) (ix : IndexFlatL2)
    (chunks : list loc) (src : option string) (s1 : state) :
  exists s' fm,
    save_store E existing ix chunks src s1 = (Ok tt, s') /\
    heap s' = assign_indices (length (data_chunks existing)) chunks (heap s1) /\
    provider_calls s' = provider_calls s1 /\
    cache_files (fs s') = cache_files (fs s1) /\
    source_files (fs s') = source_files (fs s1) /\
    store_file (fs s') =
      Some (Pickled {| data_index := Some ix;
                       data_chunks := data_chunks existing ++ map (heap s') chunks;
                       data_file_map := fm |}).
Proof.
  unfold save_store.
  destruct src as [p|]; [destruct (PyStr.truthy p)|];
    monad_unfold; simpl; try rewrite get_file_hash_run; simpl;
    eexists; eexists; (split; [reflexivity|]); simpl; repeat split.
Qed.

Lemma np_array_ok (vs arr : list vec) : np_array vs = Ok arr -> arr = vs.
Proof.
  unfold np_array. destruct vs as [|v vs]; [congruence|].
  destruct (forallb _ _); congruence.
Qed.

Lemma build_vector_store_run (chunks : list loc) (src : option string) (s : state) :
  chunks <> [] ->
  build_vector_store E chunks src s =
    match obtain_embeddings E chunks src s with
    | (Raise e, s1) => (Raise e, s1)
    | (Ok [], s1) => (Ok None, s1)
    | (Ok embs, s1) =>
        match np_array embs with
        | Raise e => (Raise e, s1)
        | Ok _ =>
            match index_add (base_index (fs s) embs) embs with
            | Raise e => (Raise e, s1)
            | Ok ix => (Ok (Some ix), snd (save_store E (stored (fs s)) ix chunks src s1))
            end
        end
    end.
Proof.
  intros Hne. unfold build_vector_store.
  destruct chunks as [|c chunks]; [congruence|].
  unfold bind at 1. rewrite load_existing_run. unfold bind at 1.
  destruct (obtain_embeddings E (c :: chunks) src s) as [[embs|e] s1]; [|reflexivity].
  destruct embs as [|v embs]; [reflexivity|].
  unfold bind at 1. unfold lift at 1.
  destruct (np_array (v :: embs)) as [arr|e] eqn:Harr; [|reflexivity].
  apply np_array_ok in Harr. subst arr.
  unfold bind at 1. unfold lift at 1. unfold base_index.
  destruct (index_add _ (v :: embs)) as [ix|e]; [|reflexivity].
  unfold bind.
  destruct (save_store_run (stored (fs s)) ix (c :: chunks) src s1)
    as (s' & fm & Hrun & _).
  rewrite Hrun. reflexivity.
Qed.


Lemma generated_nil (s : state) (chunks : list loc) :
  generated E s chunks = [] -> chunks = [].
Proof.
  unfold generated, texts_of. destruct chunks; [reflexivity|discriminate].
Qed.

Lemma length_generated (s : state) (chunks : list loc) :
  length (generated E s chunks) = length chunks.
Proof. unfold generated, texts_of. now rewrite length_imap, length_map. Qed.

(** For a non-empty list of chunks the branch that returns [None]
    (lines 110-112) is never taken: the service returns one vector per
    text. *)
Lemma build_vector_store_never_none (chunks : list loc) (src : option string) (s : state) :
  chunks <> [] -> fst (build_vector_store E chunks src s) <> Ok None.
Proof.
  intros Hne. rewrite build_vector_store_run by assumption.
  destruct (cached_embeddings E (fs s) src) as [|v vs] eqn:Hc.
  - destruct (truthy_opt (API_KEY E)) eqn:Hkey.
    + destruct (obtain_embeddings_generated chunks src s Hc Hkey)
        as (s1 & Hrun & _).
      rewrite Hrun.
      destruct (generated E s chunks) as [|w ws] eqn:Hg.
      { apply generated_nil in Hg. congruence. }
      destruct (np_array (w :: ws)); [|discriminate].
      destruct (index_add _ _); discriminate.
    + rewrite obtain_embeddings_no_key by assumption. discriminate.
  - rewrite obtain_embeddings_cached by (rewrite Hc; discriminate).
    rewrite Hc. destruct (np_array (v :: vs)); [|discriminate].
    destruct (index_add _ _); discriminate.
Qed.

(** C3, as the code has it: when no key is configured and the cache
    holds no embeddings for the source file, [build_vector_store] on a
    non-empty list of chunks raises the [ValueError] of [get_embedding]
    (it does not return [None]); the store file, the cache files and the
    caller's chunks are those of before the call. *)
Theorem build_vector_store_missing_credentials
    (chunks : list loc) (src : option string) (s : state) :
  chunks <> [] ->
  truthy_opt (API_KEY E) = false ->
  cached_embeddings E (fs s) src = [] ->
  build_vector_store E chunks src s = (Raise ValueError, s).
Proof.
  intros Hne Hkey Hc. rewrite build_vector_store_run by assumption.
  now rewrite obtain_embeddings_no_key.
Qed.


Lemma assign_indices_other (i : nat) (chunks : list loc) (h : loc -> chunk) (l : loc) :
  l ∉ chunks -> assign_indices i chunks h l = h l.
Proof.
  revert i h. induction chunks as [|c chunks IH]; intros i h Hl; [reflexivity|].
  apply not_elem_of_cons in Hl as [Hne Hl]. cbn [assign_indices].
  rewrite IH by assumption.
  destruct (Nat.eqb_spec l c); congruence.
Qed.

Lemma assign_indices_lookup (i j : nat) (chunks : list loc) (h : loc -> chunk) (c : loc) :
  NoDup chunks -> chunks !! j = Some c ->
  index (assign_indices i chunks h c) = Some (i + j).
Proof.
  revert i j h. induction chunks as [|c0 chunks IH]; intros i j h Hnd Hj.
  - discriminate.
  - apply NoDup_cons in Hnd as [Hc0 Hnd]. cbn [assign_indices].
    destruct j as [|j]; simpl in Hj.
    + injection Hj as <-. rewrite assign_indices_other by assumption.
      rewrite Nat.eqb_refl. simpl. f_equal. lia.
    + rewrite (IH (S i) j) by assumption. f_equal. lia.
Qed.


Lemma index_add_ok (ix0 ix : IndexFlatL2) (x : list vec) :
  index_add ix0 x = Ok ix ->
  length (hd [] x) = d ix0 /\ d ix = d ix0 /\ xb ix = xb ix0 ++ x.
Proof.
  unfold index_add. destruct (Nat.eqb_spec (length (hd [] x)) (d ix0)); [|discriminate].
  intros [= <-]. auto.
Qed.

(** What a successful build leaves behind. *)
Lemma build_vector_store_success (chunks : list loc) (src : option string)
    (s s' : state) (ix : IndexFlatL2) :
  build_vector_store E chunks src s = (Ok (Some ix), s') ->
  chunks <> [] /\
  exists embs s1 fm,
    obtain_embeddings E chunks src s = (Ok embs, s1) /\
    embs <> [] /\
    np_array embs = Ok embs /\
    index_add (base_index (fs s) embs) embs = Ok ix /\
    heap s' = assign_indices (length (data_chunks (stored (fs s)))) chunks (heap s) /\
    provider_calls s' = provider_calls s1 /\
    cache_files (fs s') = cache_files (fs s1) /\
    source_files (fs s') = source_files (fs s) /\
    store_file (fs s') =
      Some (Pickled {| data_index := Some ix;
                       data_chunks := data_chunks (stored (fs s)) ++ map (heap s') chunks;
                       data_file_map := fm |}).
Proof.
  intros H.
  assert (Hne : chunks <> []) by (intros ->; discriminate).
  split; [assumption|].
  rewrite build_vector_store_run in H by assumption.
  destruct (obtain_embeddings E chunks src s) as [[embs|e] s1] eqn:Hob; [|discriminate].
  destruct embs as [|v embs]; [discriminate|].
  destruct (np_array (v :: embs)) as [arr|e] eqn:Harr; [|discriminate].
  pose proof (np_array_ok _ _ Harr) as ->.
  destruct (index_add _ _) as [ix'|e] eqn:Hadd; [|discriminate].
  destruct (save_store_run (stored (fs s)) ix' chunks src s1)
    as (s2 & fm & Hrun & Hh & Hp & Hc & Hsrc & Hst).
  rewrite Hrun in H. simpl in H. injection H as -> ->.
  destruct (obtain_embeddings_frame _ _ _ _ _ Hob) as (Hh1 & _ & Hsrc1).
  exists (v :: embs), s1, fm. rewrite <- Hh1, <- Hsrc1.
  repeat split; try assumption. discriminate.
Qed.

Lemma built_invariant (s : state) (pairs : list (chunk * vec)) :
  built E s pairs ->
  data_chunks (stored (fs s)) = map fst pairs /\
  match data_index (stored (fs s)) with
  | Some ix => xb ix = map snd pairs
  | None => pairs = []
  end /\
  (forall i c, data_chunks (stored (fs s)) !! i = Some c -> index c = Some i).
Proof.
  induction 1 as [s Hs|s s' pairs _ IH Hs|s s1 s' pairs chunks src embs ix _ IH Hnd Hob Hlen Hb].
  - unfold stored. rewrite Hs. simpl. repeat split. intros i c Hi. discriminate.
  - unfold stored in *. rewrite Hs. exact IH.
  - destruct IH as (IHc & IHx & IHi).
    destruct (build_vector_store_success _ _ _ _ _ Hb)
      as (Hne & embs' & s1' & fm & Hob' & _ & _ & Hadd & Hh & _ & _ & _ & Hst).
    rewrite Hob in Hob'. injection Hob' as <- <-.
    apply index_add_ok in Hadd as (_ & _ & Hxb).
    unfold stored at 1 2 3. rewrite Hst. simpl.
    assert (Hfst : map fst (combine (map (heap s') chunks) embs) = map (heap s') chunks).
    { apply fst_zip. rewrite length_map. lia. }
    assert (Hsnd : map snd (combine (map (heap s') chunks) embs) = embs).
    { apply snd_zip. rewrite length_map. lia. }
    split; [|split].
    + rewrite map_app, Hfst, IHc. reflexivity.
    + rewrite Hxb, map_app, Hsnd. f_equal.
      unfold base_index. destruct (data_index (stored (fs s))); [assumption|].
      subst pairs. reflexivity.
    + intros i c Hi.
      destruct (Nat.lt_ge_cases i (length (data_chunks (stored (fs s))))) as [Hlt|Hge].
      * rewrite lookup_app_l in Hi by assumption. now apply IHi.
      * rewrite lookup_app_r in Hi by assumption.
        rewrite list_lookup_fmap in Hi.
        destruct (chunks !! (i - length (data_chunks (stored (fs s))))) as [l|] eqn:Hl;
          [|discriminate].
        simpl in Hi. injection Hi as <-. rewrite Hh.
        rewrite (assign_indices_lookup _ _ _ _ _ Hnd Hl). f_equal. lia.
Qed.


(** A build that generates its embeddings has one per chunk. *)
Lemma built_build_generated (s s' : state) (pairs : list (chunk * vec))
    (chunks : list loc) (src : option string) (ix : IndexFlatL2) :
  built E s pairs ->
  NoDup chunks ->
  cached_embeddings E (fs s) src = [] ->
  build_vector_store E chunks src s = (Ok (Some ix), s') ->
  built E s' (pairs ++ combine (map (heap s') chunks) (generated E s chunks)).
Proof.
  intros Hb Hnd Hc Hbuild.
  destruct (truthy_opt (API_KEY E)) eqn:Hkey.
  - destruct (obtain_embeddings_generated chunks src s Hc Hkey) as (s1 & Hob & _).
    eapply built_build; eauto. apply length_generated.
  - destruct (build_vector_store_success _ _ _ _ _ Hbuild) as (Hne & _).
    rewrite build_vector_store_run, obtain_embeddings_no_key in Hbuild
      by assumption.
    discriminate.
Qed.

(** C1, as the code has it: in every state reached from an empty store
    by successful builds, each on pairwise distinct chunk dictionaries
    and with exactly one embedding per chunk, the chunk persisted at
    position [i] has [index] equal to [i], and the vector at ordinal [i]
    of the index is the embedding that chunk was inserted with. *)
Theorem built_positional_correspondence (s : state) (pairs : list (chunk * vec)) :
  built E s pairs ->
  forall i c,
    data_chunks (stored (fs s)) !! i = Some c ->
    index c = Some i /\
    exists ix v,
      data_index (stored (fs s)) = Some ix /\
      ntotal ix = length (data_chunks (stored (fs s))) /\
      xb ix !! i = Some v /\
      pairs !! i = Some (c, v).
Proof.
  intros Hb i c Hi.
  destruct (built_invariant s pairs Hb) as (Hc & Hx & Hidx).
  split; [now apply Hidx|].
  rewrite Hc, list_lookup_fmap in Hi.
  destruct (pairs !! i) as [[c' v]|] eqn:Hp; [|discriminate].
  simpl in Hi. injection Hi as <-.
  destruct (data_index (stored (fs s))) as [ix|].
  - exists ix, v. repeat split.
    + unfold ntotal. rewrite Hx, Hc, !length_map. reflexivity.
    + rewrite Hx, list_lookup_fmap, Hp. reflexivity.
  - subst pairs. discriminate.
Qed.

Lemma truthy_app_r (a b : string) :
  PyStr.truthy b = true -> PyStr.truthy (a ++ b) = true.
Proof. destruct a; [intros H; exact H|reflexivity]. Qed.

Lemma hexdigest_truthy (n : N) : PyStr.truthy (hexdigest n) = true.
Proof. unfold hexdigest. cbn [hex_digits]. now apply truthy_app_r. Qed.






End Build.

(** ** Retrieval *)

Section Retrieval.

Variable E : env.

Lemma gtb_spec (x y : Q) : Float.gtb x y = true <-> (y < x)%Q.
Proof.
  unfold Float.gtb. rewrite negb_true_iff.
  destruct (Qle_bool x y) eqn:H.
  - apply Qle_bool_iff in H. split; [discriminate|]. intros Hlt.
    exfalso. apply (Qlt_not_le _ _ Hlt H).
  - split; [|reflexivity]. intros _. apply Qnot_le_lt. intros Hle.
    apply Qle_bool_iff in Hle. congruence.
Qed.

Lemma keep_hit_spec (threshold : option Q) (s : Q) :
  keep_hit E threshold s = true <->
  threshold = None \/
  exists t, threshold = Some t /\ (Float.round (score_format E) t < s)%Q.
Proof.
  destruct threshold as [t|]; simpl.
  - rewrite gtb_spec. split.
    + intros H. right. eauto.
    + intros [H|(t' & [= <-] & H)]; [discriminate|assumption].
  - split; auto.
Qed.

(** A score is a float of its format, so a threshold equal to it is
    converted to that same float. *)
Lemma keep_hit_equal (t d : Q) :
  Float.valid (score_format E) ->
  (similarity_of E d == t)%Q -> keep_hit E (Some t) (similarity_of E d) = false.
Proof.
  intros Hv Heq.
  destruct (keep_hit E (Some t) (similarity_of E d)) eqn:H; [|reflexivity].
  apply keep_hit_spec in H as [H|(t' & [= <-] & H)]; [discriminate|].
  rewrite <- (round_proper _ Hv _ _ Heq) in H.
  unfold similarity_of, Float.div in H. rewrite (round_idem _ Hv) in H.
  exfalso. apply (Qlt_irrefl _ H).
Qed.

Lemma hit_lookup (mem : list chunk) (idx : option nat) :
  mem <> [] -> hit_in_range mem idx = true ->
  py_position mem idx < length mem.
Proof.
  intros Hne Hr. destruct idx as [i|]; simpl in *.
  - now apply Nat.ltb_lt.
  - destruct mem; [congruence|simpl; lia].
Qed.

Lemma hit_in_range_length (mem mem' : list chunk) (idx : option nat) :
  length mem' = length mem -> hit_in_range mem' idx = hit_in_range mem idx.
Proof. intros H. destruct idx; simpl; now rewrite ?H. Qed.

Lemma py_position_length (mem mem' : list chunk) (idx : option nat) :
  length mem' = length mem -> py_position mem' idx = py_position mem idx.
Proof. intros H. destruct idx; simpl; now rewrite ?H. Qed.

Lemma retrieve_loop_spec (threshold : option Q) (chunks : list chunk)
    (all hits : list (option nat * Q)) :
  chunks <> [] ->
  (forall h, h ∈ hits -> h ∈ all) ->
  forall mem results,
    loop_inv E threshold chunks all mem results ->
    exists mem',
      retrieve_loop E threshold mem results hits =
        Ok (mem', results ++ map (fun h => py_position chunks (fst h))
                               (kept_hits E threshold chunks hits)) /\
      loop_inv E threshold chunks all mem'
        (results ++ map (fun h => py_position chunks (fst h))
                        (kept_hits E threshold chunks hits)).
Proof.
  intros Hne. induction hits as [|h hits IH]; intros Hall mem results Hinv.
  - exists mem. simpl. rewrite app_nil_r. auto.
  - assert (Hall' : forall h', h' ∈ hits -> h' ∈ all).
    { intros h' Hh'. apply Hall. now right. }
    assert (Hh : h ∈ all) by (apply Hall; now left).
    destruct Hinv as (Hlen & Horig & Hres).
    cbn [retrieve_loop]. unfold retrieve_hit, kept_hits. cbn [List.filter].
    rewrite (hit_in_range_length chunks mem) by assumption.
    rewrite (py_position_length chunks mem) by assumption.
    destruct (hit_in_range chunks (fst h)) eqn:Hr; cbn [andb].
    + assert (Hpos : py_position chunks (fst h) < length mem).
      { rewrite Hlen. apply hit_lookup; assumption. }
      destruct (lookup_lt_is_Some_2 mem _ Hpos) as [c Hc]. rewrite Hc.
      destruct (Horig _ _ Hc) as (c0 & Hc0 & Hoc).
      destruct (keep_hit E threshold (similarity_of E (snd h))) eqn:Hk.
      * cbn [map].
        replace (results ++ py_position chunks (fst h) ::
                   map (fun h0 => py_position chunks (fst h0))
                     (List.filter _ hits))
          with ((results ++ [py_position chunks (fst h)]) ++
                   map (fun h0 => py_position chunks (fst h0))
                     (kept_hits E threshold chunks hits))
          by (now rewrite <- app_assoc).
        apply (IH Hall'). split; [now rewrite length_insert|]. split.
        -- intros p c' Hp.
           destruct (decide (p = py_position chunks (fst h))) as [->|Hneq].
           ++ rewrite list_lookup_insert_eq in Hp by assumption.
              injection Hp as <-. exists c0. split; [assumption|].
              rewrite <- Hoc. reflexivity.
           ++ rewrite list_lookup_insert_ne in Hp by congruence. eauto.
        -- intros p Hp. apply elem_of_app in Hp as [Hp|Hp].
           ++ destruct (decide (p = py_position chunks (fst h))) as [->|Hneq].
              ** eexists. exists h.
                 rewrite list_lookup_insert_eq by assumption.
                 split; [reflexivity|]. auto.
              ** destruct (Hres p Hp) as (c' & h' & ? & ?).
                 exists c', h'. rewrite list_lookup_insert_ne by congruence. auto.
           ++ apply list_elem_of_singleton in Hp as ->.
              eexists. exists h.
              rewrite list_lookup_insert_eq by assumption.
              split; [reflexivity|]. auto.
      * apply (IH Hall'). split; [now rewrite length_insert|]. split.
        -- intros p c' Hp.
           destruct (decide (p = py_position chunks (fst h))) as [->|Hneq].
           ++ rewrite list_lookup_insert_eq in Hp by assumption.
              injection Hp as <-. exists c0. split; [assumption|].
              rewrite <- Hoc. reflexivity.
           ++ rewrite list_lookup_insert_ne in Hp by congruence. eauto.
        -- intros p Hp.
           destruct (decide (p = py_position chunks (fst h))) as [->|Hneq].
           ++ destruct (Hres _ Hp) as (c' & h' & Hc' & Hrest).
              rewrite Hc in Hc'. injection Hc' as <-.
              eexists. exists h'.
              rewrite list_lookup_insert_eq by assumption.
              split; [reflexivity|]. exact Hrest.
           ++ destruct (Hres p Hp) as (c' & h' & ? & ?).
              exists c', h'. rewrite list_lookup_insert_ne by congruence. auto.
    + apply (IH Hall'). repeat split; assumption.
Qed.


Lemma deref_positions (mem : list chunk) (ps : list nat) :
  (forall p, p ∈ ps -> p < length mem) ->
  Forall2 (fun r p => mem !! p = Some r) (deref mem ps) ps.
Proof.
  induction ps as [|p ps IH]; intros Hps; [constructor|].
  unfold deref. cbn [omap list_omap].
  destruct (lookup_lt_is_Some_2 mem p (Hps p (list_elem_of_here _ _))) as [c Hc].
  rewrite Hc. constructor; [assumption|].
  apply IH. intros q Hq. apply Hps. now right.
Qed.

Lemma elem_of_kept_hits (threshold : option Q) (chunks : list chunk)
    (hits : list (option nat * Q)) (h : option nat * Q) :
  h ∈ kept_hits E threshold chunks hits <->
  h ∈ hits /\ hit_in_range chunks (fst h) = true /\
  (threshold = None \/
   exists t, threshold = Some t /\
             (Float.round (score_format E) t < similarity_of E (snd h))%Q).
Proof.
  unfold kept_hits. rewrite list_elem_of_In, filter_In, <- list_elem_of_In.
  rewrite andb_true_iff, keep_hit_spec. tauto.
Qed.

(** C5, as the code has it: [retrieve] returns, in the order of the
    search, one chunk for each hit whose score passes the test.  The
    test compares the score with the threshold converted to the float
    type of the score: with a threshold [t], a hit is kept exactly when
    its score is strictly greater than [t] rounded to that type, and a
    hit whose score equals [t] is left out; for a threshold that is a
    float of that type the test is [t < score]; with no threshold every
    hit is kept.  (A hit is a label with its distance that addresses a
    chunk, as line 221 checks.)  Each returned chunk is the stored chunk
    at the position of its hit and carries the score of a kept hit. *)
Theorem retrieve_keeps_above_threshold (query : string) (top_k : Z)
    (threshold : option Q) (s s1 : state) (ix : IndexFlatL2)
    (chunks : list chunk) (hits : list (option nat * Q)) :
  Float.valid (score_format E) ->
  load_vector_store s = (Ok (Some ix, Some chunks), s) ->
  chunks <> [] ->
  query_hits E ix chunks query top_k s = (Ok hits, s1) ->
  exists rs,
    retrieve E query top_k threshold s = (Ok rs, s1) /\
    Forall2
      (fun r h =>
         exists c h',
           chunks !! py_position chunks (fst h) = Some c /\
           origin r = origin c /\
           h' ∈ hits /\
           keep_hit E threshold (similarity_of E (snd h')) = true /\
           similarity r = Some (similarity_of E (snd h')))
      rs (kept_hits E threshold chunks hits) /\
    (forall h,
        h ∈ kept_hits E threshold chunks hits <->
        h ∈ hits /\ hit_in_range chunks (fst h) = true /\
        (threshold = None \/
         exists t, threshold = Some t /\
                   (Float.round (score_format E) t < similarity_of E (snd h))%Q)) /\
    (forall t h,
        threshold = Some t -> (similarity_of E (snd h) == t)%Q ->
        h ∉ kept_hits E threshold chunks hits) /\
    (forall t h,
        threshold = Some t -> (Float.round (score_format E) t == t)%Q ->
        (h ∈ kept_hits E threshold chunks hits <->
         h ∈ hits /\ hit_in_range chunks (fst h) = true /\
         (t < similarity_of E (snd h))%Q)).
Proof.
  intros Hv Hload Hne Hq.
  destruct (retrieve_loop_spec threshold chunks hits hits Hne (fun h H => H) chunks [])
    as (mem' & Hloop & Hlen & Horig & Hres).
  { split; [reflexivity|]. split; [eauto|]. intros p Hp. inversion Hp. }
  simpl in Hloop, Hres.
  exists (deref mem' (map (fun h => py_position chunks (fst h))
                        (kept_hits E threshold chunks hits))).
  split; [|split; [|split; [|split]]].
  - unfold retrieve. unfold bind at 1. rewrite Hload.
    destruct chunks as [|c0 chunks0]; [congruence|].
    unfold try_except, bind. rewrite Hq. unfold lift. rewrite Hloop.
    reflexivity.
  - set (ps := map (fun h => py_position chunks (fst h))
                 (kept_hits E threshold chunks hits)) in *.
    assert (Hder : Forall2 (fun r p => mem' !! p = Some r) (deref mem' ps) ps).
    { apply deref_positions. intros p Hp.
      destruct (Hres p Hp) as (c & h & Hc & _).
      now apply lookup_lt_Some in Hc. }
    apply Forall2_same_length_lookup. split.
    + rewrite (Forall2_length _ _ _ Hder). unfold ps. now rewrite length_map.
    + intros i r h Hr Hh.
      assert (Hp : ps !! i = Some (py_position chunks (fst h))).
      { unfold ps. rewrite list_lookup_fmap, Hh. reflexivity. }
      pose proof (Forall2_lookup_lr _ _ _ _ _ _ Hder Hr Hp) as Hm.
      destruct (Horig _ _ Hm) as (c0 & Hc0 & Ho).
      destruct (Hres (py_position chunks (fst h)))
        as (c' & h' & Hc' & Hin & Hpos & Hk & Hs).
      { apply list_elem_of_lookup. eauto. }
      rewrite Hm in Hc'. injection Hc' as <-.
      exists c0, h'. auto 10.
  - intros h. apply elem_of_kept_hits.
  - intros t h -> Heq Hin.
    unfold kept_hits in Hin.
    apply list_elem_of_In, filter_In in Hin as [_ Hin].
    apply andb_true_iff in Hin as [_ Hin].
    rewrite (keep_hit_equal t (snd h) Hv Heq) in Hin. discriminate.
  - intros t h -> Ht. rewrite elem_of_kept_hits. split.
    + intros (Hin & Hr & [H|(t' & [= <-] & H)]); [discriminate|].
      rewrite Ht in H. auto.
    + intros (Hin & Hr & H). split; [assumption|]. split; [assumption|].
      right. exists t. split; [reflexivity|]. now rewrite Ht.
Qed.


Lemma load_vector_store_ok (s : state) :
  exists r, load_vector_store s = (Ok r, s).
Proof.
  unfold load_vector_store. monad_unfold.
  destruct (store_file (fs s)) as [[|data]|]; simpl; eauto.
  destruct (data_index data) as [ix|]; simpl; eauto.
  destruct (length (data_chunks data) =? ntotal ix); eauto.
Qed.




Lemma startswith_spec (p s : string) :
  PyStr.startswith p s = true <-> exists post, s = (p ++ post)%string.
Proof.
  revert s. induction p as [|a p IH]; intros s.
  - simpl. split; eauto.
  - destruct s as [|b s]; simpl.
    + split; [discriminate|]. intros (post & H). discriminate.
    + unfold PyStr.ascii_eqb. rewrite andb_true_iff, Ascii.eqb_eq, IH. split.
      * intros (-> & post & ->). eauto.
      * intros (post & [= -> ->]). eauto.
Qed.

(** [p in s] holds exactly when [p] occurs in [s]. *)
Lemma contains_spec (p s : string) :
  PyStr.contains p s = true <-> exists pre post, s = (pre ++ p ++ post)%string.
Proof.
  induction s as [|b s IH].
  - simpl. rewrite orb_false_r, startswith_spec. split.
    + intros (post & H). exists EmptyString, post. exact H.
    + intros (pre & post & H). destruct pre; [eauto|discriminate].
  - cbn [PyStr.contains]. rewrite orb_true_iff, startswith_spec, IH. split.
    + intros [(post & H)|(pre & post & H)].
      * exists EmptyString, post. exact H.
      * exists (String b pre), post. simpl. now rewrite H.
    + intros (pre & post & H). destruct pre as [|a pre].
      * left. eauto.
      * right. simpl in H. injection H as -> ->. eauto.
Qed.

Lemma filter_all {A} (f : A -> bool) (l : list A) :
  (forall x, f x = true) -> List.filter f l = l.
Proof.
  intros Hf. induction l as [|x l IH]; [reflexivity|].
  simpl. now rewrite Hf, IH.
Qed.


End Retrieval.

(** ** Tracking source files *)

Section Tracking.

Variable E : env.

Lemma save_store_file_map (existing : store_data) (ix : IndexFlatL2)
    (chunks : list loc) (src : option string) (s1 : state) :
  data_file_map (stored (fs (snd (save_store E existing ix chunks src s1)))) =
    match src with
    | Some p =>
        if PyStr.truthy p
        then <[p := {| hash := file_hash E (fs s1) p;
                       chunk_indices := seq (length (data_chunks existing)) (length chunks) |}]>
               (data_file_map existing)
        else data_file_map existing
    | None => data_file_map existing
    end.
Proof.
  unfold save_store.
  destruct src as [p|]; [destruct (PyStr.truthy p)|];
    monad_unfold; simpl; try rewrite get_file_hash_run; reflexivity.
Qed.

Lemma build_vector_store_file_map (chunks : list loc) (src : option string)
    (s s' : state) (ix : IndexFlatL2) :
  build_vector_store E chunks src s = (Ok (Some ix), s') ->
  data_file_map (stored (fs s')) = updated_file_map E (fs s) chunks src.
Proof.
  intros H.
  assert (Hne : chunks <> []) by (intros ->; discriminate).
  rewrite build_vector_store_run in H by assumption.
  destruct (obtain_embeddings E chunks src s) as [[embs|e] s1] eqn:Hob; [|discriminate].
  destruct embs as [|v embs]; [discriminate|].
  destruct (np_array (v :: embs)) as [arr|e]; [|discriminate].
  destruct (index_add _ _) as [ix'|e]; [|discriminate].
  injection H as _ <-.
  rewrite save_store_file_map.
  destruct (obtain_embeddings_frame _ _ _ _ _ _ Hob) as (_ & _ & Hsrc).
  unfold updated_file_map, file_hash. rewrite Hsrc. reflexivity.
Qed.

Lemma check_file_embeddings_run (p : string) (s : state) :
  check_file_embeddings E p s = (Ok (up_to_date E (fs s) p), s).
Proof.
  unfold check_file_embeddings, up_to_date, stored. monad_unfold.
  destruct (store_file (fs s)) as [[|data]|]; try reflexivity.
  simpl. destruct (data_file_map data !! p) as [e|]; [|reflexivity].
  rewrite get_file_hash_run. reflexivity.
Qed.


Lemma string_app_last_inj (a b : string) (c d : ascii) :
  (a ++ String c EmptyString = b ++ String d EmptyString)%string -> a = b /\ c = d.
Proof.
  revert b. induction a as [|x a IH]; intros [|y b] H; simpl in H.
  - injection H as ->. auto.
  - injection H as -> H. destruct b; discriminate.
  - injection H as -> H. destruct a; discriminate.
  - injection H as -> H. destruct (IH _ H) as [-> ->]. auto.
Qed.

Lemma hex_char_inj (n m : N) :
  (n < 16)%N -> (m < 16)%N -> hex_char n = hex_char m -> n = m.
Proof.
  intros Hn Hm H.
  assert (Hn' : N.to_nat n < 16) by lia.
  assert (Hm' : N.to_nat m < 16) by lia.
  apply N2Nat.inj. unfold hex_char in H.
  revert H Hn' Hm'. generalize (N.to_nat n) (N.to_nat m). clear.
  intros a b H Ha Hb.
  do 16 (destruct a as [|a]; [do 16 (destruct b as [|b]; [first [reflexivity|discriminate H]|]); lia|]).
  lia.
Qed.

Lemma hex_digits_inj (k : nat) (n m : N) :
  hex_digits k n = hex_digits k m <-> (n mod 16 ^ N.of_nat k = m mod 16 ^ N.of_nat k)%N.
Proof.
  revert n m. induction k as [|k IH]; intros n m.
  - simpl. rewrite !N.mod_1_r. tauto.
  - cbn [hex_digits].
    replace (16 ^ N.of_nat (S k))%N with (16 * 16 ^ N.of_nat k)%N
      by (rewrite Nat2N.inj_succ, N.pow_succ_r'; reflexivity).
    rewrite !N.Div0.mod_mul_r.
    assert (Hn : (n mod 16 < 16)%N) by (apply N.mod_upper_bound; discriminate).
    assert (Hm : (m mod 16 < 16)%N) by (apply N.mod_upper_bound; discriminate).
    split.
    + intros H. apply string_app_last_inj in H as [H1 H2].
      apply IH in H1. apply hex_char_inj in H2; [|assumption..]. lia.
    + intros H.
      assert (H2 : (n mod 16 = m mod 16)%N).
      { apply (f_equal (fun x => x mod 16)%N) in H.
        rewrite !(N.mul_comm 16), !N.Div0.mod_add, !N.Div0.mod_mod in H. exact H. }
      assert (H1 : ((n / 16) mod 16 ^ N.of_nat k = (m / 16) mod 16 ^ N.of_nat k)%N) by lia.
      apply IH in H1. now rewrite H1, H2.
Qed.

Lemma string_length_app (a b : string) :
  String.length (a ++ b) = String.length a + String.length b.
Proof. induction a as [|c a IH]; simpl; [reflexivity|now rewrite IH]. Qed.

Lemma length_hex_digits (k : nat) (n : N) : String.length (hex_digits k n) = k.
Proof.
  revert n. induction k as [|k IH]; intros n; [reflexivity|].
  cbn [hex_digits]. rewrite string_length_app, IH. simpl. lia.
Qed.

(** X1: [get_file_hash] tells file contents apart as far as the digest does:
    two calls return the same string exactly when both files cannot be
    read, or both can and their 128-bit digests agree.  The hash of a
    readable file has 32 characters, so it is never the empty string
    returned for an unreadable one. *)
Theorem get_file_hash_eq_iff (p q : string) (s t : state) :
  (fst (get_file_hash E p s) = fst (get_file_hash E q t) <->
   match source_files (fs s) !! p, source_files (fs t) !! q with
   | Some c, Some c' => (md5 E c mod 2 ^ 128 = md5 E c' mod 2 ^ 128)%N
   | None, None => True
   | _, _ => False
   end) /\
  (forall c, source_files (fs s) !! p = Some c ->
     exists h, get_file_hash E p s = (Ok h, s) /\ String.length h = 32).
Proof.
  split.
  - rewrite !get_file_hash_run. unfold file_hash. cbn [fst].
    destruct (source_files (fs s) !! p) as [c|], (source_files (fs t) !! q) as [c'|].
    + rewrite <- (hex_digits_inj 32). unfold hexdigest.
      split; [intros H; congruence|intros ->; reflexivity].
    + split; [|tauto]. intros H.
      assert (H' : String.length (hexdigest (md5 E c)) = String.length EmptyString)
        by congruence.
      unfold hexdigest in H'. rewrite length_hex_digits in H'. discriminate.
    + split; [|tauto]. intros H.
      assert (H' : String.length EmptyString = String.length (hexdigest (md5 E c')))
        by congruence.
      unfold hexdigest in H'. rewrite length_hex_digits in H'. discriminate.
    + tauto.
  - intros c Hc. rewrite get_file_hash_run. unfold file_hash. rewrite Hc.
    eexists. split; [reflexivity|]. apply length_hex_digits.
Qed.


Lemma string_app_inv_l (a x y : string) : (a ++ x = a ++ y)%string -> x = y.
Proof. induction a as [|c a IH]; simpl; [auto|]. intros [= H]. auto. Qed.

Lemma string_app_inj_suffix (a b x y : string) :
  String.length x = String.length y ->
  (a ++ x = b ++ y)%string -> a = b /\ x = y.
Proof.
  revert b. induction a as [|c a IH]; intros [|c' b] Hlen H; simpl in H.
  - auto.
  - apply (f_equal String.length) in H.
    rewrite !string_length_app in H. cbn [String.length] in H. lia.
  - apply (f_equal String.length) in H.
    rewrite !string_length_app in H. cbn [String.length] in H. lia.
  - injection H as -> H. destruct (IH _ Hlen H) as [-> ->]. auto.
Qed.

Lemma chars_of_chars (l : list ascii) : PyStr.chars (PyStr.of_chars l) = l.
Proof. apply list_ascii_of_string_of_list_ascii. Qed.

Lemma of_chars_chars (s : string) : PyStr.of_chars (PyStr.chars s) = s.
Proof. apply string_of_list_ascii_of_string. Qed.

Lemma basename_from_no_sep (acc : list ascii) (p : string) :
  Forall (fun c => c <> PosixPath.sep) acc ->
  Forall (fun c => c <> PosixPath.sep) (PyStr.chars (PosixPath.basename_from acc p)).
Proof.
  revert acc. induction p as [|c p IH]; intros acc Hacc; simpl.
  - rewrite chars_of_chars. now apply Forall_rev.
  - unfold PyStr.ascii_eqb. destruct (Ascii.eqb_spec c PosixPath.sep).
    + apply IH. constructor.
    + apply IH. now constructor.
Qed.

Lemma splitext_root_no_sep (name : string) :
  Forall (fun c => c <> PosixPath.sep) (PyStr.chars name) ->
  Forall (fun c => c <> PosixPath.sep) (PyStr.chars (PosixPath.splitext_root name)).
Proof.
  intros H. unfold PosixPath.splitext_root.
  destruct (PosixPath.rfind_dot 0 (PyStr.chars name)) as [i|]; [|assumption].
  destruct (existsb _ _); [|assumption].
  rewrite chars_of_chars. now apply Forall_take.
Qed.

Lemma join_cache_dir (root rest : string) :
  Forall (fun c => c <> PosixPath.sep) (PyStr.chars root) ->
  PosixPath.join EMBEDDING_CACHE_DIR (root ++ "_" ++ rest)
    = (EMBEDDING_CACHE_DIR ++ "/" ++ root ++ "_" ++ rest)%string.
Proof.
  intros H. unfold PosixPath.join.
  assert (Hs : PyStr.startswith "/" (root ++ "_" ++ rest) = false).
  { destruct root as [|c root]; [reflexivity|].
    apply Forall_cons in H as [Hc _].
    change (PyStr.ascii_eqb "/" c && true = false).
    unfold PyStr.ascii_eqb. rewrite andb_true_r.
    apply Ascii.eqb_neq. intros Heq. apply Hc. now rewrite <- Heq. }
  rewrite Hs. reflexivity.
Qed.

(** X2: cache files are shared by name and content.  For two readable
    files, [get_embedding_path] gives the same path exactly when their
    base names without extension are equal and their hashes are equal;
    the directory and the extension of the source file play no role. *)
Theorem get_embedding_path_eq_iff (p q : string) (s t : state) :
  is_Some (source_files (fs s) !! p) ->
  is_Some (source_files (fs t) !! q) ->
  fst (get_embedding_path E p s) = fst (get_embedding_path E q t) <->
  PosixPath.splitext_root (PosixPath.basename p)
    = PosixPath.splitext_root (PosixPath.basename q) /\
  fst (get_file_hash E p s) = fst (get_file_hash E q t).
Proof.
  intros [c Hc] [c' Hc'].
  rewrite !get_embedding_path_run, !get_file_hash_run. cbn [fst].
  unfold embedding_path, file_hash. rewrite Hc, Hc', !hexdigest_truthy. cbn [negb].
  rewrite !join_cache_dir
    by (apply splitext_root_no_sep, basename_from_no_sep; constructor).
  split.
  - intros H.
    assert (H' : (EMBEDDING_CACHE_DIR ++ "/" ++
                  PosixPath.splitext_root (PosixPath.basename p) ++ "_" ++
                  hexdigest (md5 E c) ++ ".pkl")%string
               = (EMBEDDING_CACHE_DIR ++ "/" ++
                  PosixPath.splitext_root (PosixPath.basename q) ++ "_" ++
                  hexdigest (md5 E c') ++ ".pkl")%string) by congruence.
    apply string_app_inv_l in H'.
    apply (string_app_inv_l "/") in H'.
    apply string_app_inj_suffix in H' as [Hroot Hrest].
    + split; [assumption|].
      apply (string_app_inv_l "_") in Hrest.
      apply string_app_inj_suffix in Hrest as [-> _]; reflexivity.
    + cbn [String.append String.length]. rewrite !string_length_app.
      unfold hexdigest. now rewrite !length_hex_digits.
  - intros [-> H]. assert (H' : hexdigest (md5 E c) = hexdigest (md5 E c')) by congruence.
    now rewrite H'.
Qed.

Lemma up_to_date_after_build (chunks : list loc) (p : string)
    (s s' t : state) (ix : IndexFlatL2) :
  PyStr.truthy p = true ->
  build_vector_store E chunks (Some p) s = (Ok (Some ix), s') ->
  store_file (fs t) = store_file (fs s') ->
  up_to_date E (fs t) p = String.eqb (file_hash E (fs t) p) (file_hash E (fs s) p).
Proof.
  intros Hp Hb Ht.
  pose proof (build_vector_store_file_map _ _ _ _ _ Hb) as Hfm.
  unfold up_to_date, stored. rewrite Ht. fold (stored (fs s')). rewrite Hfm.
  unfold updated_file_map. rewrite Hp, lookup_insert_eq. reflexivity.
Qed.

Lemma build_vector_store_frame (chunks : list loc) (src : option string)
    (s s' : state) (r : result (option IndexFlatL2)) :
  build_vector_store E chunks src s = (r, s') ->
  source_files (fs s') = source_files (fs s) /\
  ((forall ix, r <> Ok (Some ix)) ->
   store_file (fs s') = store_file (fs s) /\ heap s' = heap s).
Proof.
  intros Hb.
  destruct chunks as [|c chunks].
  { injection Hb as _ <-. auto. }
  rewrite build_vector_store_run in Hb by discriminate.
  destruct (obtain_embeddings E (c :: chunks) src s) as [[embs|e] s1] eqn:Hob;
    destruct (obtain_embeddings_frame _ _ _ _ _ _ Hob) as (Hh & Hst & Hs).
  - destruct embs as [|v embs]; [injection Hb as _ <-; auto|].
    destruct (np_array (v :: embs)); [|injection Hb as _ <-; auto].
    destruct (index_add _ _) as [ix|]; [|injection Hb as _ <-; auto].
    injection Hb as <- <-.
    destruct (save_store_run E (stored (fs s)) ix (c :: chunks) src s1)
      as (s2 & fm & Hrun & _ & _ & _ & Hs2 & _).
    rewrite Hrun. cbn [snd]. split; [congruence|].
    intros Hr. exfalso. now apply (Hr ix).
  - injection Hb as _ <-. auto.
Qed.


(** X3: after a successful build for a source file, [check_file_embeddings]
    answers, in every later state with the same store file, whether the
    file still has the hash it had when it was built: True when the
    content is unchanged, False when the hash differs. It never raises
    and changes nothing. *)
Theorem check_file_embeddings_after_build (chunks : list loc) (p : string)
    (s s' t : state) (ix : IndexFlatL2) :
  PyStr.truthy p = true ->
  build_vector_store E chunks (Some p) s = (Ok (Some ix), s') ->
  store_file (fs t) = store_file (fs s') ->
  exists b,
    check_file_embeddings E p t = (Ok b, t) /\
    (b = true <-> fst (get_file_hash E p t) = fst (get_file_hash E p s)) /\
    (source_files (fs t) !! p = source_files (fs s) !! p -> b = true).
Proof.
  intros Hp Hb Ht.
  rewrite check_file_embeddings_run. eexists. split; [reflexivity|].
  rewrite (up_to_date_after_build _ _ _ _ _ _ Hp Hb Ht), !get_file_hash_run.
  cbn [fst]. split.
  - rewrite String.eqb_eq. split; congruence.
  - intros Hsame. apply String.eqb_eq. unfold file_hash. now rewrite Hsame.
Qed.

(** X4: building for one file, or for none, never changes the answer of
    [check_file_embeddings] for another file, whatever the outcome of the
    build. *)
Theorem build_keeps_other_files (chunks : list loc) (src : option string)
    (p : string) (s s' : state) (r : result (option IndexFlatL2)) :
  src <> Some p ->
  build_vector_store E chunks src s = (r, s') ->
  fst (check_file_embeddings E p s') = fst (check_file_embeddings E p s).
Proof.
  intros Hsrc Hb. rewrite !check_file_embeddings_run. cbn [fst]. f_equal.
  destruct chunks as [|c chunks].
  { injection Hb as _ <-. reflexivity. }
  rewrite build_vector_store_run in Hb by discriminate.
  destruct (obtain_embeddings E (c :: chunks) src s) as [[embs|e] s1] eqn:Hob.
  - destruct (obtain_embeddings_frame _ _ _ _ _ _ Hob) as (_ & Hst & Hs).
    assert (Hsame : up_to_date E (fs s1) p = up_to_date E (fs s) p).
    { unfold up_to_date, stored, file_hash. now rewrite Hst, Hs. }
    destruct embs as [|v embs]; [injection Hb as _ <-; exact Hsame|].
    destruct (np_array (v :: embs)); [|injection Hb as _ <-; exact Hsame].
    destruct (index_add _ _) as [ix|]; [|injection Hb as _ <-; exact Hsame].
    injection Hb as _ <-.
    destruct (save_store_run E (stored (fs s)) ix (c :: chunks) src s1)
      as (s2 & fm & Hrun & _ & _ & _ & Hs2 & _).
    pose proof (save_store_file_map (stored (fs s)) ix (c :: chunks) src s1) as Hfm.
    rewrite Hrun in *. cbn [snd] in *.
    unfold up_to_date. rewrite Hfm. unfold file_hash. rewrite Hs2, Hs.
    destruct src as [q|]; [|reflexivity].
    destruct (PyStr.truthy q); [|reflexivity].
    rewrite lookup_insert_ne by congruence. reflexivity.
  - destruct (obtain_embeddings_frame _ _ _ _ _ _ Hob) as (_ & Hst & Hs).
    injection Hb as _ <-.
    unfold up_to_date, stored, file_hash. now rewrite Hst, Hs.
Qed.

(** X7: a build that does not return an index (it raises, or returns
    None) has not touched the store file, the source files or the
    caller's chunk dictionaries. *)
Theorem build_vector_store_failure_atomic (chunks : list loc) (src : option string)
    (s s' : state) (r : result (option IndexFlatL2)) :
  build_vector_store E chunks src s = (r, s') ->
  (forall ix, r <> Ok (Some ix)) ->
  store_file (fs s') = store_file (fs s) /\
  heap s' = heap s /\
  source_files (fs s') = source_files (fs s).
Proof.
  intros Hb Hr.
  destruct (build_vector_store_frame _ _ _ _ _ Hb) as (Hs & Hrest).
  destruct (Hrest Hr) as (Hst & Hh). auto.
Qed.

(** X9: round trip.  When the store file is absent or unreadable, or holds
    as many chunks as vectors, a successful build with one embedding per
    chunk leaves a store that [load_vector_store] accepts: it returns the
    index the build returned, whose vectors are the old ones followed by
    the new embeddings, and the old chunks followed by the chunks passed. *)
Theorem build_then_load (chunks : list loc) (src : option string)
    (s s1 s' : state) (ix : IndexFlatL2) (embs : list vec) :
  build_vector_store E chunks src s = (Ok (Some ix), s') ->
  obtain_embeddings E chunks src s = (Ok embs, s1) ->
  length embs = length chunks ->
  length (data_chunks (stored (fs s))) = ntotal (base_index (fs s) embs) ->
  load_vector_store s' =
    (Ok (Some ix, Some (data_chunks (stored (fs s)) ++ map (heap s') chunks)), s') /\
  xb ix = xb (base_index (fs s) embs) ++ embs /\
  d ix = d (base_index (fs s) embs).
Proof.
  intros Hb Hob Hlen Hold.
  destruct (build_vector_store_success E _ _ _ _ _ Hb)
    as (Hne & embs' & s1' & fm & Hob' & _ & _ & Hadd & _ & _ & _ & _ & Hst).
  rewrite Hob in Hob'. injection Hob' as <- <-.
  apply index_add_ok in Hadd as (_ & Hd & Hxb).
  split; [|auto].
  unfold load_vector_store. monad_unfold. rewrite Hst. simpl.
  unfold ntotal in *. rewrite Hxb, !length_app, length_map, Hold, Hlen, Nat.eqb_refl.
  reflexivity.
Qed.

(** X10: a store that fails the integrity check is not repaired by a
    build: when the store holds an index and a number of chunks that
    differs from the number of its vectors, a successful build with one
    embedding per chunk leaves a store that [load_vector_store] rejects
    again. *)
Theorem build_keeps_broken_store_broken (chunks : list loc) (src : option string)
    (s s1 s' : state) (ix : IndexFlatL2) (embs : list vec) :
  build_vector_store E chunks src s = (Ok (Some ix), s') ->
  obtain_embeddings E chunks src s = (Ok embs, s1) ->
  length embs = length chunks ->
  length (data_chunks (stored (fs s))) <> ntotal (base_index (fs s) embs) ->
  load_vector_store s' = (Ok (None, None), s').
Proof.
  intros Hb Hob Hlen Hold.
  destruct (build_vector_store_success E _ _ _ _ _ Hb)
    as (Hne & embs' & s1' & fm & Hob' & _ & _ & Hadd & _ & _ & _ & _ & Hst).
  rewrite Hob in Hob'. injection Hob' as <- <-.
  apply index_add_ok in Hadd as (_ & Hd & Hxb).
  unfold load_vector_store. monad_unfold. rewrite Hst. simpl.
  unfold ntotal in *. rewrite Hxb, !length_app, length_map, Hlen.
  destruct (Nat.eqb_spec (length (data_chunks (stored (fs s))) + length chunks)
              (length (xb (base_index (fs s) embs)) + length chunks)); [lia|reflexivity].
Qed.

(** X5: the entry a successful build writes into the file map for its
    source file holds the hash the file had, and lists, in order, exactly
    the positions at which the chunks of this build were persisted. *)
Theorem build_records_chunk_positions (chunks : list loc) (p : string)
    (s s' : state) (ix : IndexFlatL2) :
  PyStr.truthy p = true ->
  build_vector_store E chunks (Some p) s = (Ok (Some ix), s') ->
  exists e,
    data_file_map (stored (fs s')) !! p = Some e /\
    Ok (hash e) = fst (get_file_hash E p s) /\
    length (chunk_indices e) = length chunks /\
    forall j c,
      chunks !! j = Some c ->
      chunk_indices e !! j = Some (length (data_chunks (stored (fs s))) + j) /\
      data_chunks (stored (fs s')) !! (length (data_chunks (stored (fs s))) + j)
        = Some (heap s' c).
Proof.
  intros Hp Hb.
  pose proof (build_vector_store_file_map _ _ _ _ _ Hb) as Hfm.
  destruct (build_vector_store_success E _ _ _ _ _ Hb)
    as (Hne & embs' & s1' & fm & _ & _ & _ & _ & _ & _ & _ & _ & Hst).
  eexists. split.
  { rewrite Hfm. unfold updated_file_map. rewrite Hp. apply lookup_insert_eq. }
  cbn [hash chunk_indices]. rewrite get_file_hash_run. split; [reflexivity|].
  split; [apply length_seq|].
  intros j c Hj. split.
  - apply lookup_seq. split; [reflexivity|]. now apply lookup_lt_Some in Hj.
  - assert (Hdc : data_chunks (stored (fs s'))
                  = data_chunks (stored (fs s)) ++ map (heap s') chunks).
    { unfold stored at 1. now rewrite Hst. }
    rewrite Hdc, lookup_app_r by lia.
    replace (_ + j - _) with j by lia.
    rewrite list_lookup_fmap, Hj. reflexivity.
Qed.



(** X6: the store only grows.  Whatever a build returns or raises, the
    chunks persisted before are the first chunks persisted after, in
    the same order, and an index that was persisted keeps its dimension
    and its vectors, which come first among the vectors persisted
    after. *)
Theorem build_vector_store_append_only (chunks : list loc) (src : option string)
    (s s' : state) (r : result (option IndexFlatL2)) :
  build_vector_store E chunks src s = (r, s') ->
  data_chunks (stored (fs s)) `prefix_of` data_chunks (stored (fs s')) /\
  forall ix0,
    data_index (stored (fs s)) = Some ix0 ->
    exists ix',
      data_index (stored (fs s')) = Some ix' /\
      d ix' = d ix0 /\
      xb ix0 `prefix_of` xb ix'.
Proof.
  intros Hb.
  assert (Hsame : store_file (fs s') = store_file (fs s) ->
            data_chunks (stored (fs s)) `prefix_of` data_chunks (stored (fs s')) /\
            forall ix0,
              data_index (stored (fs s)) = Some ix0 ->
              exists ix',
                data_index (stored (fs s')) = Some ix' /\
                d ix' = d ix0 /\
                xb ix0 `prefix_of` xb ix').
  { intros Hst. unfold stored. rewrite Hst. split; [reflexivity|].
    intros ix0 H0. exists ix0. auto. }
  destruct r as [[ix|]|e].
  - destruct (build_vector_store_success E _ _ _ _ _ Hb)
      as (_ & embs & s1 & fm & _ & _ & _ & Hadd & _ & _ & _ & _ & Hst).
    apply index_add_ok in Hadd as (_ & Hd & Hxb).
    unfold stored at 2 4. rewrite Hst. cbn [data_chunks data_index].
    split; [apply prefix_app_r; reflexivity|].
    intros ix0 H0. exists ix. unfold base_index in *. rewrite H0 in *.
    split; [reflexivity|]. split; [assumption|].
    rewrite Hxb. apply prefix_app_r. reflexivity.
  - apply Hsame.
    destruct chunks as [|c chunks]; [injection Hb as <-; reflexivity|].
    exfalso. apply (build_vector_store_never_none E (c :: chunks) src s); [discriminate|].
    now rewrite Hb.
  - apply Hsame.
    destruct chunks as [|c chunks]; [discriminate|].
    rewrite build_vector_store_run in Hb by discriminate.
    destruct (obtain_embeddings E (c :: chunks) src s) as [[embs|e'] s1] eqn:Hob;
      destruct (obtain_embeddings_frame _ _ _ _ _ _ Hob) as (_ & Hst & _).
    + destruct embs as [|v embs]; [discriminate|].
      destruct (np_array (v :: embs)); [|injection Hb as _ <-; assumption].
      destruct (index_add _ _) as [ix|]; [discriminate|injection Hb as _ <-; assumption].
    + injection Hb as _ <-. assumption.
Qed.

End Tracking.

(** ** Reading the store *)

Section Queries.
Variable E : env.

Lemma query_hits_frame (ix : IndexFlatL2) (chunks : list chunk) (query : string)
    (top_k : Z) (s s1 : state) (r : result (list (option nat * Q))) :
  query_hits E ix chunks query top_k s = (r, s1) ->
  if truthy_opt (API_KEY E) then s1 = log_calls s [query] else s1 = s /\ r = Raise ValueError.
Proof.
  unfold query_hits, get_embedding.
  destruct (truthy_opt (API_KEY E)).
  - unfold bind at 1. rewrite embed_all_spec.
    unfold bind, lift. destruct (np_array _); [|congruence].
    destruct (search _ _ _ _); congruence.
  - unfold bind, raise. intros [= <- <-]. auto.
Qed.

(** X11: [retrieve] only reads.  It never raises, leaves the disk and the
    caller's chunks as they are (the sanitized texts and the scores are
    written to the loaded copies only), and calls the embedding service
    at most once, with the query. *)
Theorem retrieve_read_only (query : string) (top_k : Z) (threshold : option Q)
    (s : state) :
  exists rs s',
    retrieve E query top_k threshold s = (Ok rs, s') /\
    fs s' = fs s /\
    heap s' = heap s /\
    (provider_calls s' = provider_calls s \/
     provider_calls s' = provider_calls s ++ [query]).
Proof.
  unfold retrieve. unfold bind at 1.
  destruct (load_vector_store_ok s) as ([oi oc] & ->).
  destruct oi as [ix|]; [|exists [], s; auto].
  destruct oc as [[|c cs]|]; try solve [exists [], s; auto].
  unfold try_except. unfold bind at 1.
  destruct (query_hits E ix (c :: cs) query top_k s) as [r s1] eqn:Hq.
  pose proof (query_hits_frame _ _ _ _ _ _ _ Hq) as Hf.
  assert (Hs1 : fs s1 = fs s /\ heap s1 = heap s /\
                (provider_calls s1 = provider_calls s \/
                 provider_calls s1 = provider_calls s ++ [query])).
  { destruct (truthy_opt (API_KEY E)).
    - subst s1. simpl. auto.
    - destruct Hf as [-> _]. auto. }
  destruct r as [hits|e]; [|exists [], s1; auto].
  unfold bind, lift.
  destruct (retrieve_loop E threshold (c :: cs) [] hits) as [r|e];
    [|exists [], s1; auto].
  eexists. exists s1. split; [reflexivity|assumption].
Qed.

(** X12: [retrieve] swallows the missing key.  Without a configured key
    [retrieve] and [hybrid_search] return the empty list, without raising
    and without any effect, whatever the store holds; [get_embedding]
    itself raises on the same input. *)
Theorem retrieve_without_key (query : string) (top_k : Z) (threshold : option Q)
    (keyword : option string) (s : state) :
  truthy_opt (API_KEY E) = false ->
  retrieve E query top_k threshold s = (Ok [], s) /\
  hybrid_search E query keyword top_k s = (Ok [], s) /\
  get_embedding E [query] s = (Raise ValueError, s).
Proof.
  intros Hkey.
  assert (Hr : forall k th, retrieve E query k th s = (Ok [], s)).
  { intros k th. unfold retrieve. unfold bind at 1.
    destruct (load_vector_store_ok s) as ([oi oc] & ->).
    destruct oi as [ix|]; [|reflexivity].
    destruct oc as [[|c cs]|]; try reflexivity.
    unfold try_except, bind at 1.
    destruct (query_hits E ix (c :: cs) query k s) as [r s1] eqn:Hq.
    pose proof (query_hits_frame _ _ _ _ _ _ _ Hq) as Hf.
    rewrite Hkey in Hf. destruct Hf as [-> ->]. reflexivity. }
  split; [apply Hr|]. split.
  - unfold hybrid_search, bind. rewrite Hr. unfold ret.
    destruct (truthy_opt keyword); unfold py_prefix; simpl;
      destruct (0 <=? top_k)%Z; now rewrite ?firstn_nil.
  - now apply get_embedding_no_key.
Qed.

(** X13: a failed query embedding.  When the service fails on the query,
    [get_embedding] stands in 768 zeros; against a store of another
    dimension the search is refused and [retrieve] returns the empty
    list. *)
Theorem retrieve_failed_embedding (query : string) (top_k : Z)
    (threshold : option Q) (s : state) (ix : IndexFlatL2) (chunks : list chunk) :
  truthy_opt (API_KEY E) = true ->
  embed_content E (length (provider_calls s)) query = None ->
  load_vector_store s = (Ok (Some ix, Some chunks), s) ->
  chunks <> [] ->
  d ix <> 768 ->
  get_embedding E [query] s = (Ok [zeros 768], log_calls s [query]) /\
  retrieve E query top_k threshold s = (Ok [], log_calls s [query]).
Proof.
  intros Hkey Hfail Hload Hne Hd.
  assert (Hemb : get_embedding E [query] s = (Ok [zeros 768], log_calls s [query])).
  { unfold get_embedding. rewrite Hkey, embed_all_spec. cbn [imap].
    unfold embed_or_zero. rewrite Nat.add_0_r, Hfail. reflexivity. }
  split; [exact Hemb|].
  unfold retrieve. unfold bind at 1. rewrite Hload.
  destruct chunks as [|c cs]; [congruence|].
  unfold try_except, query_hits. unfold bind at 1. unfold bind at 1.
  rewrite Hemb. unfold bind at 1. unfold lift at 1.
  assert (Harr : np_array [zeros 768] = Ok [zeros 768]).
  { unfold np_array. cbn [forallb]. now rewrite Nat.eqb_refl. }
  rewrite Harr. unfold lift at 1. unfold search. cbn [hd].
  assert (Hlen : length (zeros 768) = 768) by apply repeat_length.
  rewrite Hlen.
  destruct (Nat.eqb_spec 768 (d ix)); [congruence|]. reflexivity.
Qed.

Lemma load_vector_store_chunks (s : state) (oi : option IndexFlatL2)
    (chunks : list chunk) :
  fst (load_vector_store s) = Ok (oi, Some chunks) ->
  chunks = data_chunks (stored (fs s)).
Proof.
  unfold load_vector_store, stored. monad_unfold.
  destruct (store_file (fs s)) as [[|data]|]; simpl; try discriminate.
  destruct (data_index data) as [ix|]; simpl; try discriminate.
  destruct (length (data_chunks data) =? ntotal ix); simpl; congruence.
Qed.

Lemma sublist_List_filter {A} (f : A -> bool) (l : list A) :
  List.filter f l `sublist_of` l.
Proof.
  induction l as [|x l IH]; simpl; [constructor|].
  destruct (f x); now constructor.
Qed.

Lemma py_prefix_sublist {A} (l : list A) (k : Z) : py_prefix l k `sublist_of` l.
Proof. unfold py_prefix. destruct (0 <=? k)%Z; apply sublist_take. Qed.

(** X15: [retrieve_by_page] returns chunks of the store in their stored
    order, each of them on the page asked for, and at most [top_k] of
    them when [top_k] is not negative; when no more than [top_k] chunks
    are on the page it returns all of them.  It needs a store that passes
    the integrity check, never raises and changes nothing. *)
Theorem retrieve_by_page_spec (page_num top_k : Z) (s : state) :
  exists rs,
    retrieve_by_page page_num top_k s = (Ok rs, s) /\
    rs `sublist_of` data_chunks (stored (fs s)) /\
    Forall (fun c => page c = page_num) rs /\
    ((0 <= top_k)%Z -> (Z.of_nat (length rs) <= top_k)%Z) /\
    (forall ix chunks,
        load_vector_store s = (Ok (Some ix, Some chunks), s) ->
        (Z.of_nat (length (List.filter (fun c => (page c =? page_num)%Z) chunks))
           <= top_k)%Z ->
        rs = List.filter (fun c => (page c =? page_num)%Z) chunks) /\
    (fst (load_vector_store s) = Ok (None, None) -> rs = []).
Proof.
  unfold retrieve_by_page. unfold bind.
  destruct (load_vector_store_ok s) as ([oi oc] & Hl). rewrite Hl. cbn [snd].
  destruct oc as [[|c cs]|].
  - exists []. split; [reflexivity|]. split; [apply sublist_nil_l|].
    split; [constructor|]. split; [simpl; lia|]. split; [|reflexivity].
    intros ix chunks [= _ <-] _. reflexivity.
  - pose proof (load_vector_store_chunks s oi (c :: cs)) as Hc.
    rewrite Hl in Hc. specialize (Hc eq_refl).
    set (chunks := c :: cs) in *.
    exists (py_prefix (List.filter (fun c0 => (page c0 =? page_num)%Z) chunks) top_k).
    split; [reflexivity|]. split; [|split; [|split; [|split]]].
    + rewrite <- Hc. etransitivity; [apply py_prefix_sublist|apply sublist_List_filter].
    + apply Forall_forall. intros x Hx.
      eapply elem_of_sublist in Hx; [|apply py_prefix_sublist].
      apply list_elem_of_In, filter_In in Hx as [_ Hx]. now apply Z.eqb_eq.
    + intros Hk. unfold py_prefix. destruct (Z.leb_spec 0 top_k); [|lia].
      rewrite length_take. lia.
    + intros ix chunks' [= _ <-] Hlen. unfold py_prefix.
      destruct (Z.leb_spec 0 top_k); [|lia].
      apply firstn_all2. lia.
    + simpl. discriminate.
  - exists []. split; [reflexivity|]. split; [apply sublist_nil_l|].
    split; [constructor|]. split; [simpl; lia|]. split; [|reflexivity].
    intros ix chunks [=].
Qed.

(** X16: [search_by_keyword] returns, in their stored order, exactly the
    chunks of the loaded store whose text contains the keyword when both
    are put in lower case; the empty keyword selects every chunk.  The
    texts are compared as stored, not sanitized. It never raises and
    changes nothing. *)
Theorem search_by_keyword_spec (keyword : string) (s : state) :
  exists rs,
    search_by_keyword keyword s = (Ok rs, s) /\
    rs `sublist_of` data_chunks (stored (fs s)) /\
    (forall ix chunks,
        load_vector_store s = (Ok (Some ix, Some chunks), s) ->
        (forall c, c ∈ rs <->
           c ∈ chunks /\
           exists pre post,
             PyStr.lower (text c) = (pre ++ PyStr.lower keyword ++ post)%string) /\
        (keyword = EmptyString -> rs = chunks)) /\
    (fst (load_vector_store s) = Ok (None, None) -> rs = []).
Proof.
  unfold search_by_keyword. unfold bind.
  destruct (load_vector_store_ok s) as ([oi oc] & Hl). rewrite Hl. cbn [snd].
  destruct oc as [[|c cs]|].
  - exists []. split; [reflexivity|]. split; [apply sublist_nil_l|].
    split; [|reflexivity].
    intros ix chunks [= _ <-]. split; [|reflexivity].
    intros c. split; [intros H; inversion H|intros [H _]; inversion H].
  - pose proof (load_vector_store_chunks s oi (c :: cs)) as Hc.
    rewrite Hl in Hc. specialize (Hc eq_refl).
    set (chunks := c :: cs) in *.
    eexists. split; [reflexivity|]. split; [|split].
    + rewrite <- Hc. apply sublist_List_filter.
    + intros ix chunks' [= _ <-]. split.
      * intros x. rewrite list_elem_of_In, filter_In, <- list_elem_of_In.
        now rewrite contains_spec.
      * intros ->. apply filter_all. intros x. simpl.
        destruct (PyStr.lower (text x)); reflexivity.
    + simpl. discriminate.
  - exists []. split; [reflexivity|]. split; [apply sublist_nil_l|].
    split; [|reflexivity]. intros ix chunks [=].
Qed.

End Queries.

(** ** Similar chunks *)

Section SimilarChunks.
Variable E : env.

Lemma np_array_singleton (v : vec) : np_array [v] = Ok [v].
Proof. unfold np_array. cbn [forallb]. now rewrite Nat.eqb_refl. Qed.

Lemma embed_chunks_run (chunks : list chunk) (s : state) :
  truthy_opt (API_KEY E) = true ->
  embed_chunks E chunks s =
    (Ok (imap (fun i c => embed_or_zero E (length (provider_calls s) + i) (text c)) chunks),
     log_calls s (map text chunks)).
Proof.
  intros Hkey. revert s. induction chunks as [|c chunks IH]; intros s.
  - simpl. unfold ret. now rewrite log_calls_nil.
  - cbn [embed_chunks]. unfold bind at 1. unfold get_embedding.
    rewrite Hkey, embed_all_spec. cbn [imap].
    unfold bind at 1. unfold lift at 1. rewrite np_array_singleton.
    unfold bind at 1. unfold lift at 1.
    unfold bind at 1. rewrite IH. unfold ret.
    rewrite log_calls_app. cbn [map app imap]. f_equal. f_equal. f_equal.
    apply imap_ext. intros i x _. simpl.
    rewrite length_app. simpl. f_equal. lia.
Qed.

Lemma embed_chunks_no_key (c : chunk) (chunks : list chunk) (s : state) :
  truthy_opt (API_KEY E) = false ->
  embed_chunks E (c :: chunks) s = (Raise ValueError, s).
Proof.
  intros Hkey. cbn [embed_chunks]. unfold bind at 1.
  now rewrite get_embedding_no_key.
Qed.

Lemma py_slice_row {A} (l : list A) (i : nat) (x : A) :
  l !! i = Some x -> py_slice l (Z.of_nat i) (Z.of_nat i + 1) = [x].
Proof.
  intros Hi. pose proof (lookup_lt_Some _ _ _ Hi) as Hlt.
  unfold py_slice, py_bound.
  destruct (Z.ltb_spec (Z.of_nat i) 0); [lia|].
  destruct (Z.ltb_spec (Z.of_nat i + 1) 0); [lia|].
  rewrite !Z.min_l by lia.
  replace (Z.to_nat (Z.of_nat i + 1 - Z.of_nat i)) with 1 by lia.
  rewrite Nat2Z.id. rewrite (drop_S _ _ _ Hi). reflexivity.
Qed.

Lemma py_slice_no_row {A} (l : list A) (i : Z) :
  (i = -1 \/ i < - Z.of_nat (length l))%Z -> py_slice l i (i + 1) = [].
Proof.
  intros Hi. unfold py_slice, py_bound.
  assert (H0 : forall n : Z, (n <= 0)%Z -> Z.to_nat n = 0) by (intros; lia).
  destruct (Z.ltb_spec i 0); [|lia].
  destruct (Z.ltb_spec (i + 1) 0); rewrite H0; try reflexivity; lia.
Qed.

(** X18: [get_similar_chunks] embeds the whole store again.  With a key
    configured, a loaded store and a chunk index below the number of
    chunks, the call asks the embedding service for the text of every
    stored chunk, in order, whatever it then returns or raises; it writes
    nothing to the disk or to the caller's chunks. *)
Theorem get_similar_chunks_reembeds_store (chunk_index top_k : Z) (s s' : state)
    (ix : IndexFlatL2) (chunks : list chunk) (r : result (list chunk)) :
  truthy_opt (API_KEY E) = true ->
  load_vector_store s = (Ok (Some ix, Some chunks), s) ->
  (chunk_index < Z.of_nat (length chunks))%Z ->
  get_similar_chunks E chunk_index top_k s = (r, s') ->
  provider_calls s' = provider_calls s ++ map text chunks /\
  fs s' = fs s /\
  heap s' = heap s.
Proof.
  intros Hkey Hload Hci. unfold get_similar_chunks. unfold bind at 1.
  rewrite Hload.
  destruct (Z.leb_spec (Z.of_nat (length chunks)) chunk_index); [lia|].
  unfold bind at 1. rewrite embed_chunks_run by assumption.
  unfold bind at 1. unfold lift at 1.
  destruct (np_array _) as [embeddings|e]; [|intros [= _ <-]; auto].
  unfold bind at 1. unfold lift at 1.
  destruct (search_rows _ _ _ _ _) as [hits|e]; [|intros [= _ <-]; auto].
  destruct hits as [|first hits]; [intros [= _ <-]; auto|].
  unfold lift. intros [= _ <-]. auto.
Qed.

(** X19: without a configured key, [get_similar_chunks] on a store with at
    least one chunk and an index that passes the guard raises the
    [ValueError] of [get_embedding]: unlike [retrieve], it has no handler.
    Nothing was changed. *)
Theorem get_similar_chunks_without_key (chunk_index top_k : Z) (s : state)
    (ix : IndexFlatL2) (chunks : list chunk) :
  truthy_opt (API_KEY E) = false ->
  load_vector_store s = (Ok (Some ix, Some chunks), s) ->
  chunks <> [] ->
  (chunk_index < Z.of_nat (length chunks))%Z ->
  get_similar_chunks E chunk_index top_k s = (Raise ValueError, s).
Proof.
  intros Hkey Hload Hne Hci. unfold get_similar_chunks. unfold bind at 1.
  rewrite Hload.
  destruct (Z.leb_spec (Z.of_nat (length chunks)) chunk_index); [lia|].
  destruct chunks as [|c chunks]; [congruence|].
  unfold bind at 1. now rewrite embed_chunks_no_key.
Qed.

(** X20: the guard of [get_similar_chunks] checks the upper bound only.
    With a chunk index at or beyond the number of chunks the result is
    the empty list and the embedding service is not called.  A negative
    index passes the guard: for the index -1, and for an index below
    minus the number of chunks, the slice that should hold the target
    row is empty, and the call raises instead of returning, after the
    whole store was embedded again. *)
Theorem get_similar_chunks_bounds (chunk_index top_k : Z) (s : state)
    (ix : IndexFlatL2) (chunks : list chunk) :
  truthy_opt (API_KEY E) = true ->
  load_vector_store s = (Ok (Some ix, Some chunks), s) ->
  ((Z.of_nat (length chunks) <= chunk_index)%Z ->
   get_similar_chunks E chunk_index top_k s = (Ok [], s)) /\
  ((chunk_index = -1 \/ chunk_index < - Z.of_nat (length chunks))%Z ->
   exists e,
     get_similar_chunks E chunk_index top_k s
       = (Raise e, log_calls s (map text chunks))).
Proof.
  intros Hkey Hload. split.
  - intros Hci. unfold get_similar_chunks. unfold bind at 1. rewrite Hload.
    destruct (Z.leb_spec (Z.of_nat (length chunks)) chunk_index); [reflexivity|lia].
  - intros Hci. unfold get_similar_chunks. unfold bind at 1. rewrite Hload.
    destruct (Z.leb_spec (Z.of_nat (length chunks)) chunk_index); [lia|].
    unfold bind at 1. rewrite embed_chunks_run by assumption.
    unfold bind at 1. unfold lift at 1.
    destruct (np_array _) as [embeddings|e] eqn:Harr; [|eauto].
    apply np_array_ok in Harr.
    assert (Hlen : length embeddings = length chunks).
    { subst embeddings. apply length_imap. }
    rewrite py_slice_no_row by (rewrite Hlen; assumption).
    unfold bind at 1. unfold lift at 1. unfold search_rows.
    destruct embeddings as [|row rows]; [eauto|].
    destruct (length row =? d ix); [|eauto].
    destruct (0 <? top_k + 1)%Z; [|eauto].
    simpl. unfold raise. eauto.
Qed.

Lemma chunks_at_spec (chunks : list chunk) (labels : list (option nat))
    (rs : list chunk) :
  chunks_at chunks labels = Ok rs ->
  Forall2 (fun r i => chunks !! py_position chunks i = Some r) rs labels.
Proof.
  revert rs. induction labels as [|i labels IH]; intros rs; simpl.
  - intros [= <-]. constructor.
  - destruct (chunks !! py_position chunks i) as [c|] eqn:Hc; [|discriminate].
    destruct (chunks_at chunks labels) as [cs|e]; [|discriminate].
    intros [= <-]. constructor; auto.
Qed.

(** X17: what [get_similar_chunks] answers.  For an index [i] of a stored
    chunk the query is the embedding the service returns now for the text
    of that chunk (the vector stored for it is not read); the result
    lists, in order, the stored chunks addressed by the hits of the
    search for [top_k + 1] neighbours after the first hit, which is
    dropped whichever chunk it is.  The chunks come back as stored, with
    no score attached. *)
Theorem get_similar_chunks_result (i : nat) (top_k : Z) (s s' : state)
    (ix : IndexFlatL2) (chunks rs : list chunk) (c : chunk) :
  truthy_opt (API_KEY E) = true ->
  load_vector_store s = (Ok (Some ix, Some chunks), s) ->
  chunks !! i = Some c ->
  get_similar_chunks E (Z.of_nat i) top_k s = (Ok rs, s') ->
  (0 <= top_k)%Z /\
  Forall2 (fun r h => chunks !! py_position chunks (fst h) = Some r) rs
    (drop 1 (knn E ix (embed_or_zero E (length (provider_calls s) + i) (text c))
               (Z.to_nat (top_k + 1)))) /\
  Forall (fun r => r ∈ chunks) rs.
Proof.
  intros Hkey Hload Hc. pose proof (lookup_lt_Some _ _ _ Hc) as Hlt.
  unfold get_similar_chunks. unfold bind at 1. rewrite Hload.
  destruct (Z.leb_spec (Z.of_nat (length chunks)) (Z.of_nat i)); [lia|].
  unfold bind at 1. rewrite embed_chunks_run by assumption.
  unfold bind at 1. unfold lift at 1.
  destruct (np_array _) as [embeddings|e] eqn:Harr; [|discriminate].
  apply np_array_ok in Harr.
  assert (Hrow : embeddings !! i
                 = Some (embed_or_zero E (length (provider_calls s) + i) (text c))).
  { subst embeddings. rewrite list_lookup_imap, Hc. reflexivity. }
  rewrite (py_slice_row _ _ _ Hrow).
  unfold bind at 1. unfold lift at 1. unfold search_rows.
  destruct embeddings as [|row rows]; [discriminate|].
  destruct (length row =? d ix); [|discriminate].
  destruct (Z.ltb_spec 0 (top_k + 1)); [|discriminate].
  cbn [map]. unfold lift. intros [= Hrs _].
  apply chunks_at_spec in Hrs. apply Forall2_fmap_r in Hrs.
  split; [lia|]. split; [exact Hrs|].
  apply Forall_forall. intros r Hr.
  apply list_elem_of_lookup in Hr as [j Hj].
  destruct (Forall2_lookup_l _ _ _ _ _ Hrs Hj) as (h & _ & Hh).
  apply list_elem_of_lookup. eauto.
Qed.

End SimilarChunks.

(** ** Chunking a text *)

Section Text.

(** *** Words *)

Lemma string_app_cons (x : ascii) (a s : string) :
  (String x a ++ s)%string = String x (a ++ s).
Proof. reflexivity. Qed.

Lemma split_from_space (cur : list ascii) (c : ascii) (s : string) :
  PyStr.isspace c = true ->
  PyStr.split_from cur (String c s) = PyStr.split_from cur EmptyString ++ PyStr.split s.
Proof. intros Hc. simpl. rewrite Hc. destruct cur; reflexivity. Qed.

Lemma split_from_app_space (cur : list ascii) (a : string) (c : ascii) (b : string) :
  PyStr.isspace c = true ->
  PyStr.split_from cur (a ++ String c b) = PyStr.split_from cur a ++ PyStr.split b.
Proof.
  intros Hc. revert cur. induction a as [|x a IH]; intros cur.
  - now apply split_from_space.
  - rewrite string_app_cons. cbn [PyStr.split_from]. destruct (PyStr.isspace x).
    + destruct cur; [apply IH|]. cbn [app]. f_equal. apply IH.
    + apply IH.
Qed.

Lemma split_app_blank_line (a b : string) :
  PyStr.split (a ++ PyStr.blank_line ++ b) = PyStr.split a ++ PyStr.split b.
Proof.
  unfold PyStr.split, PyStr.blank_line, PyStr.newline.
  rewrite !string_app_cons. change ("" ++ ?x)%string with x.
  rewrite split_from_app_space by reflexivity. reflexivity.
Qed.

Lemma split_lstrip (s : string) : PyStr.split (PyStr.lstrip s) = PyStr.split s.
Proof.
  induction s as [|c s IH]; [reflexivity|]. cbn [PyStr.lstrip].
  destruct (PyStr.isspace c) eqn:Hc; [|reflexivity].
  rewrite IH. unfold PyStr.split. cbn [PyStr.split_from]. now rewrite Hc.
Qed.

Lemma split_from_cons (cur : list ascii) (c : ascii) (s : string) :
  PyStr.split_from cur (String c s) =
    if PyStr.isspace c
    then match cur with
         | [] => PyStr.split_from [] s
         | _ => PyStr.of_chars (rev cur) :: PyStr.split_from [] s
         end
    else PyStr.split_from (c :: cur) s.
Proof. reflexivity. Qed.

Lemma split_from_rstrip (cur : list ascii) (s : string) :
  PyStr.split_from cur (PyStr.rstrip s) = PyStr.split_from cur s.
Proof.
  revert cur. induction s as [|c s IH]; intros cur; [reflexivity|].
  cbn [PyStr.rstrip]. destruct (PyStr.rstrip s) as [|c' r] eqn:Hr.
  - destruct (PyStr.isspace c) eqn:Hc.
    + rewrite split_from_space by assumption.
      unfold PyStr.split. rewrite <- IH. cbn [PyStr.split_from]. now rewrite app_nil_r.
    + cbn [PyStr.split_from]. rewrite Hc. rewrite <- IH. reflexivity.
  - rewrite (split_from_cons cur c (String c' r)), (split_from_cons cur c s), !IH.
    reflexivity.
Qed.

Lemma split_strip (s : string) : PyStr.split (PyStr.strip s) = PyStr.split s.
Proof.
  unfold PyStr.strip. unfold PyStr.split at 1. rewrite split_from_rstrip. apply split_lstrip.
Qed.

Lemma split_from_cons_ne (c : ascii) (cur : list ascii) (s : string) :
  PyStr.split_from (c :: cur) s <> [].
Proof.
  revert c cur. induction s as [|x s IH]; intros c cur; simpl; [discriminate|].
  destruct (PyStr.isspace x); [discriminate|apply IH].
Qed.

Lemma lstrip_head (s : string) :
  match PyStr.lstrip s with
  | EmptyString => True
  | String c _ => PyStr.isspace c = false
  end.
Proof.
  induction s as [|c s IH]; simpl; [exact I|].
  destruct (PyStr.isspace c) eqn:Hc; [exact IH|exact Hc].
Qed.

Lemma rstrip_head (c : ascii) (s : string) :
  PyStr.isspace c = false -> exists r, PyStr.rstrip (String c s) = String c r.
Proof.
  intros Hc. cbn [PyStr.rstrip]. destruct (PyStr.rstrip s); rewrite ?Hc; eauto.
Qed.

Lemma strip_truthy_split (s : string) :
  PyStr.truthy (PyStr.strip s) = true <-> PyStr.split s <> [].
Proof.
  rewrite <- split_lstrip. unfold PyStr.strip.
  pose proof (lstrip_head s) as Hh. destruct (PyStr.lstrip s) as [|c u].
  - unfold PyStr.split. simpl. split; [discriminate|congruence].
  - destruct (rstrip_head c u Hh) as (r & ->). unfold PyStr.split. simpl. rewrite Hh.
    split; [intros _; apply split_from_cons_ne|reflexivity].
Qed.

Lemma strip_falsy_split (s : string) :
  PyStr.truthy (PyStr.strip s) = false -> PyStr.split s = [].
Proof.
  intros H. destruct (PyStr.split s) eqn:Hs; [reflexivity|].
  assert (Ht : PyStr.truthy (PyStr.strip s) = true)
    by (apply strip_truthy_split; rewrite Hs; discriminate).
  congruence.
Qed.

(** *** [PyStr.strip] *)

Lemma lstrip_nonspace (c : ascii) (s : string) :
  PyStr.isspace c = false -> PyStr.lstrip (String c s) = String c s.
Proof. intros Hc. simpl. now rewrite Hc. Qed.

Lemma rstrip_idem (s : string) : PyStr.rstrip (PyStr.rstrip s) = PyStr.rstrip s.
Proof.
  induction s as [|c s IH]; [reflexivity|].
  cbn [PyStr.rstrip]. destruct (PyStr.rstrip s) as [|c' r] eqn:Hr.
  - destruct (PyStr.isspace c) eqn:Hc; [reflexivity|]. simpl. now rewrite Hc.
  - cbn [PyStr.rstrip] in *. rewrite IH. reflexivity.
Qed.

Lemma strip_idem (s : string) : PyStr.strip (PyStr.strip s) = PyStr.strip s.
Proof.
  unfold PyStr.strip. pose proof (lstrip_head s) as Hh.
  destruct (PyStr.lstrip s) as [|c u]; [reflexivity|].
  destruct (rstrip_head c u Hh) as (r & Hr). rewrite Hr.
  rewrite lstrip_nonspace by assumption. rewrite <- Hr. apply rstrip_idem.
Qed.

(** *** [PyStr.split_on] and [join] *)

Lemma split_on_from_ne (sep : string) (k : nat) (cur : list ascii) (s : string) :
  PyStr.split_on_from sep k cur s <> [].
Proof.
  revert k cur. induction s as [|c s IH]; intros k cur; simpl; [discriminate|].
  destruct k; [|apply IH]. destruct (PyStr.startswith sep _); [discriminate|apply IH].
Qed.

Lemma join_cons (sep w : string) (l : list string) :
  l <> [] -> PyStr.join sep (w :: l) = (w ++ sep ++ PyStr.join sep l)%string.
Proof. destruct l; [congruence|reflexivity]. Qed.

Lemma string_app_assoc (a b c : string) : ((a ++ b) ++ c = a ++ b ++ c)%string.
Proof. induction a as [|x a IH]; [reflexivity|]. rewrite !string_app_cons. now f_equal. Qed.

Lemma string_app_nil_r (a : string) : (a ++ "")%string = a.
Proof. induction a as [|x a IH]; [reflexivity|]. rewrite string_app_cons. now f_equal. Qed.

Lemma of_chars_app (l1 l2 : list ascii) :
  PyStr.of_chars (l1 ++ l2) = (PyStr.of_chars l1 ++ PyStr.of_chars l2)%string.
Proof.
  induction l1 as [|x l1 IH]; [reflexivity|].
  unfold PyStr.of_chars in *. cbn [app string_of_list_ascii].
  rewrite string_app_cons. now f_equal.
Qed.

(** Joining the pieces of [PyStr.split_on] with the separator gives the
    string back. *)
Lemma split_on_from_join (y : ascii) (sep' : string) (s : string) :
  forall (pre suf rest : string) (cur : list ascii),
    String y sep' = (pre ++ suf)%string ->
    s = (suf ++ rest)%string ->
    PyStr.join (String y sep') (PyStr.split_on_from (String y sep') (String.length suf) cur s)
      = (PyStr.of_chars (rev cur) ++ rest)%string.
Proof.
  induction s as [|c s IH]; intros pre suf rest cur Hsep Hs.
  - destruct suf; [|discriminate].
    change ("" ++ rest)%string with rest in Hs. subst rest.
    simpl. now rewrite string_app_nil_r.
  - destruct suf as [|x suf].
    + change ("" ++ rest)%string with rest in Hs. subst rest.
      cbn [String.length PyStr.split_on_from].
      destruct (PyStr.startswith (String y sep') (String c s)) eqn:Hst.
      * apply startswith_spec in Hst as (post & Hpost).
        rewrite string_app_cons in Hpost. injection Hpost as -> ->.
        rewrite join_cons by apply split_on_from_ne.
        replace (S (String.length sep') - 1) with (String.length sep') by lia.
        rewrite (IH (String y EmptyString) sep' post [] eq_refl eq_refl).
        reflexivity.
      * pose proof (IH (String y sep') EmptyString s (c :: cur)
                      (eq_sym (string_app_nil_r _)) eq_refl) as H.
        cbn [String.length] in H. rewrite H.
        cbn [rev]. rewrite of_chars_app, string_app_assoc. reflexivity.
    + rewrite string_app_cons in Hs. injection Hs as -> ->.
      cbn [String.length PyStr.split_on_from].
      apply (IH (pre ++ String x EmptyString)%string suf rest cur).
      * rewrite Hsep, string_app_assoc. reflexivity.
      * reflexivity.
Qed.

Lemma split_on_join (sep s : string) :
  sep <> EmptyString -> PyStr.join sep (PyStr.split_on sep s) = s.
Proof.
  intros Hsep. destruct sep as [|y sep']; [congruence|].
  unfold PyStr.split_on.
  apply (split_on_from_join y sep' s (String y sep') EmptyString s []).
  - symmetry. apply string_app_nil_r.
  - reflexivity.
Qed.

Lemma split_join_blank_line (ps : list string) :
  PyStr.split (PyStr.join PyStr.blank_line ps) = concat (map PyStr.split ps).
Proof.
  induction ps as [|w ps IH]; [reflexivity|].
  destruct ps as [|w' ps].
  - simpl. now rewrite app_nil_r.
  - rewrite join_cons by discriminate.
    rewrite split_app_blank_line, IH. reflexivity.
Qed.

Lemma split_paragraphs (t : string) :
  concat (map PyStr.split (PyStr.split_on PyStr.blank_line t)) = PyStr.split t.
Proof.
  rewrite <- split_join_blank_line, split_on_join; [reflexivity|discriminate].
Qed.

(** *** [chunk_text] *)

Lemma flush_chunk_words (chunks : list string) (cur : string) :
  concat (map PyStr.split (flush_chunk chunks cur))
    = concat (map PyStr.split chunks) ++ PyStr.split cur.
Proof.
  unfold flush_chunk. destruct (PyStr.truthy (PyStr.strip cur)) eqn:Ht.
  - rewrite map_app, concat_app. simpl. now rewrite app_nil_r, split_strip.
  - rewrite (strip_falsy_split _ Ht). now rewrite app_nil_r.
Qed.

Lemma chunk_paragraphs_words (max_tokens : Z) (ps : list string) :
  forall chunks cur,
    concat (map PyStr.split (chunk_paragraphs max_tokens chunks cur ps))
      = concat (map PyStr.split chunks) ++ PyStr.split cur
        ++ concat (map PyStr.split ps).
Proof.
  induction ps as [|p ps IH]; intros chunks cur.
  - simpl. now rewrite flush_chunk_words, app_nil_r.
  - cbn [chunk_paragraphs map concat].
    destruct (_ <=? _)%Z.
    + rewrite IH, split_app_blank_line, <- !app_assoc. reflexivity.
    + rewrite IH, flush_chunk_words, <- !app_assoc. reflexivity.
Qed.

Lemma flush_chunk_stripped (chunks : list string) (cur : string) :
  Forall (fun c => c <> EmptyString /\ PyStr.strip c = c) chunks ->
  Forall (fun c => c <> EmptyString /\ PyStr.strip c = c) (flush_chunk chunks cur).
Proof.
  intros H. unfold flush_chunk. destruct (PyStr.truthy (PyStr.strip cur)) eqn:Ht; [|assumption].
  apply Forall_app. split; [assumption|]. constructor; [|constructor].
  split; [|apply strip_idem]. intros Heq. rewrite Heq in Ht. discriminate.
Qed.

Lemma chunk_paragraphs_stripped (max_tokens : Z) (ps : list string) :
  forall chunks cur,
    Forall (fun c => c <> EmptyString /\ PyStr.strip c = c) chunks ->
    Forall (fun c => c <> EmptyString /\ PyStr.strip c = c)
      (chunk_paragraphs max_tokens chunks cur ps).
Proof.
  induction ps as [|p ps IH]; intros chunks cur H.
  - now apply flush_chunk_stripped.
  - cbn [chunk_paragraphs]. destruct (_ <=? _)%Z; apply IH; [assumption|].
    now apply flush_chunk_stripped.
Qed.

Lemma chunk_paragraphs_size (max_tokens : Z) (all : list string) (ps : list string) :
  forall chunks cur,
    (forall p, p ∈ ps -> p ∈ all) ->
    (cur = EmptyString \/ cur ∈ all \/
     (Z.of_nat (length (PyStr.split cur)) <= max_tokens)%Z) ->
    Forall (fun c => (Z.of_nat (length (PyStr.split c)) <= max_tokens)%Z \/
                     exists p, p ∈ all /\ c = PyStr.strip p) chunks ->
    Forall (fun c => (Z.of_nat (length (PyStr.split c)) <= max_tokens)%Z \/
                     exists p, p ∈ all /\ c = PyStr.strip p)
      (chunk_paragraphs max_tokens chunks cur ps).
Proof.
  assert (Hflush : forall chunks cur,
    (cur = EmptyString \/ cur ∈ all \/
     (Z.of_nat (length (PyStr.split cur)) <= max_tokens)%Z) ->
    Forall (fun c => (Z.of_nat (length (PyStr.split c)) <= max_tokens)%Z \/
                     exists p, p ∈ all /\ c = PyStr.strip p) chunks ->
    Forall (fun c => (Z.of_nat (length (PyStr.split c)) <= max_tokens)%Z \/
                     exists p, p ∈ all /\ c = PyStr.strip p) (flush_chunk chunks cur)).
  { intros chunks cur Hcur H. unfold flush_chunk.
    destruct (PyStr.truthy (PyStr.strip cur)) eqn:Ht; [|assumption].
    apply Forall_app. split; [assumption|]. constructor; [|constructor].
    destruct Hcur as [->|[Hin|Hle]].
    - discriminate.
    - right. eauto.
    - left. now rewrite split_strip. }
  induction ps as [|p ps IH]; intros chunks cur Hps Hcur H.
  - now apply Hflush.
  - cbn [chunk_paragraphs].
    assert (Hps' : forall q, q ∈ ps -> q ∈ all) by (intros q Hq; apply Hps; now right).
    destruct (Z.leb_spec (Z.of_nat (length (PyStr.split cur) + length (PyStr.split p)))
                max_tokens).
    + apply IH; [assumption| |assumption].
      right. right. rewrite split_app_blank_line, length_app. assumption.
    + apply IH; [assumption| |now apply Hflush].
      right. left. apply Hps. now left.
Qed.

(** X21: every chunk [chunk_text] returns is a non-empty string without
    leading or trailing whitespace. *)
Theorem chunk_text_stripped (t : string) (max_tokens : Z) :
  Forall (fun c => c <> EmptyString /\ PyStr.strip c = c) (chunk_text t max_tokens).
Proof. apply chunk_paragraphs_stripped. constructor. Qed.

Lemma chunk_text_words (t : string) (max_tokens : Z) :
  concat (map PyStr.split (chunk_text t max_tokens)) = PyStr.split t.
Proof.
  unfold chunk_text. rewrite chunk_paragraphs_words. simpl.
  apply split_paragraphs.
Qed.

(** X22: [chunk_text] keeps the words.  The words of the chunks, read in
    order, are the words of the text: none is lost, repeated or moved,
    whatever the limit.  So a text without words gives no chunk, and any
    other text gives at least one. *)
Theorem chunk_text_preserves_words (t : string) (max_tokens : Z) :
  concat (map PyStr.split (chunk_text t max_tokens)) = PyStr.split t /\
  (chunk_text t max_tokens = [] <-> PyStr.split t = []).
Proof.
  pose proof (chunk_text_words t max_tokens) as Hw.
  split; [exact Hw|]. split.
  - intros H. rewrite H in Hw. now rewrite <- Hw.
  - intros H.
    assert (Hs : Forall (fun c => c <> EmptyString /\ PyStr.strip c = c)
                   (chunk_text t max_tokens))
      by (apply chunk_paragraphs_stripped; constructor).
    destruct (chunk_text t max_tokens) as [|c cs]; [reflexivity|].
    apply Forall_cons in Hs as [[Hne Hstrip] _].
    assert (Hc : PyStr.split c <> []).
    { apply strip_truthy_split. rewrite Hstrip. destruct c; [congruence|reflexivity]. }
    rewrite H in Hw. simpl in Hw. destruct (PyStr.split c); [congruence|discriminate].
Qed.

(** X23: the size of the chunks.  A chunk has at most [max_tokens] words,
    unless it is a single paragraph of the text (stripped): paragraphs
    are never cut, so a paragraph longer than the limit becomes a chunk
    of its own. *)
Theorem chunk_text_size (t : string) (max_tokens : Z) :
  Forall (fun c =>
            (Z.of_nat (length (PyStr.split c)) <= max_tokens)%Z \/
            exists p, p ∈ PyStr.split_on PyStr.blank_line t /\ c = PyStr.strip p)
    (chunk_text t max_tokens).
Proof.
  apply chunk_paragraphs_size; [auto|auto|constructor].
Qed.

End Text.

(** ** Sanitizing and cleaning *)

Section SanitizeProps.
Variable E : env.

Lemma chars_app (a b : string) :
  PyStr.chars (a ++ b) = PyStr.chars a ++ PyStr.chars b.
Proof.
  induction a as [|x a IH]; [reflexivity|].
  rewrite string_app_cons. unfold PyStr.chars in *. simpl. now f_equal.
Qed.

Lemma nonspace_app (a b : string) : PyStr.nonspace (a ++ b) = PyStr.nonspace a ++ PyStr.nonspace b.
Proof. unfold PyStr.nonspace. now rewrite chars_app, List.filter_app. Qed.

Lemma nonspace_cons (c : ascii) (s : string) :
  PyStr.nonspace (String c s) = (if PyStr.isspace c then [] else [c]) ++ PyStr.nonspace s.
Proof.
  unfold PyStr.nonspace, PyStr.chars. simpl. destruct (PyStr.isspace c); reflexivity.
Qed.

Lemma nonspace_join (ws : list string) :
  PyStr.nonspace (PyStr.join " " ws) = concat (map PyStr.nonspace ws).
Proof.
  induction ws as [|w ws IH]; [reflexivity|].
  destruct ws as [|w' ws].
  - simpl. now rewrite app_nil_r.
  - rewrite join_cons by discriminate.
    rewrite !nonspace_app, IH. reflexivity.
Qed.

Lemma nonspace_split_from (cur : list ascii) (s : string) :
  concat (map PyStr.nonspace (PyStr.split_from cur s))
    = PyStr.nonspace (PyStr.of_chars (rev cur)) ++ PyStr.nonspace s.
Proof.
  revert cur. induction s as [|c s IH]; intros cur.
  - destruct cur; simpl; now rewrite ?app_nil_r.
  - rewrite split_from_cons, nonspace_cons.
    destruct (PyStr.isspace c) eqn:Hc.
    + destruct cur as [|x cur].
      * rewrite IH. reflexivity.
      * cbn [map concat]. rewrite IH. reflexivity.
    + rewrite IH. cbn [rev]. rewrite of_chars_app, nonspace_app, <- app_assoc.
      f_equal. f_equal. unfold PyStr.nonspace, PyStr.chars. simpl. now rewrite Hc.
Qed.

Lemma nonspace_replace_space (x : ascii) (n : nat) (s : string) :
  String.length s <= n ->
  PyStr.nonspace (PyStr.replace (String " " (String x EmptyString)) (String x EmptyString) s)
    = PyStr.nonspace s.
Proof.
  unfold PyStr.replace. revert s. induction n as [|n IH]; intros s Hn.
  - destruct s; [reflexivity|simpl in Hn; lia].
  - destruct s as [|c s]; [reflexivity|]. cbn [PyStr.replace_from].
    destruct (PyStr.startswith _ (String c s)) eqn:Hst.
    + apply startswith_spec in Hst as (post & Hpost).
      rewrite !string_app_cons in Hpost. injection Hpost as -> ->.
      cbn [String.length Nat.sub PyStr.replace_from String.append].
      change ("" ++ post)%string with post in *.
      rewrite string_app_cons.
      change ("" ++ ?y)%string with y.
      rewrite !nonspace_cons, IH by (simpl in Hn; lia).
      reflexivity.
    + rewrite !nonspace_cons, IH by (simpl in Hn; lia). reflexivity.
Qed.

(** X14: [sanitize_text] changes white space only.  The characters of the
    sanitized text that are not white space are those of the text, in
    the same order: no letter, digit or punctuation mark is added, lost
    or moved. *)
Theorem sanitize_text_keeps_characters (t : string) :
  PyStr.nonspace (sanitize_text t) = PyStr.nonspace t.
Proof.
  unfold sanitize_text.
  rewrite (nonspace_replace_space "." _ _ (Nat.le_refl _)).
  rewrite (nonspace_replace_space "," _ _ (Nat.le_refl _)).
  rewrite nonspace_join. unfold PyStr.split. now rewrite nonspace_split_from.
Qed.

End SanitizeProps.

Section Clean.

Lemma nonspace_words (s : string) :
  concat (map PyStr.nonspace (PyStr.split s)) = PyStr.nonspace s.
Proof. unfold PyStr.split. now rewrite nonspace_split_from. Qed.

Lemma nonspace_strip (s : string) : PyStr.nonspace (PyStr.strip s) = PyStr.nonspace s.
Proof. now rewrite <- (nonspace_words (PyStr.strip s)), split_strip, nonspace_words. Qed.

Lemma nonspace_collapse_spaces (b : bool) (s : string) :
  PyStr.nonspace (Re.collapse_spaces b s) = PyStr.nonspace s.
Proof.
  revert b. induction s as [|c s IH]; intros b; [reflexivity|].
  cbn [Re.collapse_spaces]. destruct (PyStr.isspace c) eqn:Hc.
  - destruct b; rewrite ?nonspace_cons, ?IH, ?Hc; reflexivity.
  - now rewrite !nonspace_cons, IH, Hc.
Qed.

Lemma nonspace_keep_class (s : string) :
  PyStr.nonspace (Re.keep_class s) = List.filter Re.kept (PyStr.nonspace s).
Proof.
  induction s as [|c s IH]; [reflexivity|].
  cbn [Re.keep_class]. rewrite nonspace_cons.
  destruct (Re.kept c) eqn:Hk.
  - rewrite nonspace_cons, IH. destruct (PyStr.isspace c); [reflexivity|].
    simpl. now rewrite Hk.
  - rewrite IH. destruct (PyStr.isspace c); [reflexivity|].
    simpl. now rewrite Hk.
Qed.

Lemma Forall_chars_lstrip (P : ascii -> Prop) (s : string) :
  Forall P (PyStr.chars s) -> Forall P (PyStr.chars (PyStr.lstrip s)).
Proof.
  induction s as [|c s IH]; [auto|]. intros H. cbn [PyStr.lstrip].
  destruct (PyStr.isspace c); [|assumption].
  apply IH. unfold PyStr.chars in *. simpl in H. now apply Forall_cons in H as [_ H].
Qed.

Lemma Forall_chars_rstrip (P : ascii -> Prop) (s : string) :
  Forall P (PyStr.chars s) -> Forall P (PyStr.chars (PyStr.rstrip s)).
Proof.
  induction s as [|c s IH]; [auto|]. intros H.
  unfold PyStr.chars in *. simpl in H. apply Forall_cons in H as [Hc H].
  specialize (IH H). cbn [PyStr.rstrip]. destruct (PyStr.rstrip s) as [|c' r].
  - destruct (PyStr.isspace c); simpl; auto.
  - simpl. constructor; assumption.
Qed.

Lemma Forall_chars_keep_class (P : ascii -> Prop) (s : string) :
  Forall P (PyStr.chars s) ->
  Forall (fun c => P c /\ Re.kept c = true) (PyStr.chars (Re.keep_class s)).
Proof.
  induction s as [|c s IH]; [constructor|]. intros H.
  unfold PyStr.chars in *. simpl in H. apply Forall_cons in H as [Hc H].
  specialize (IH H). cbn [Re.keep_class]. destruct (Re.kept c) eqn:Hk; [|assumption].
  simpl. constructor; auto.
Qed.

Lemma Forall_chars_collapse_spaces (b : bool) (s : string) :
  Forall (fun c => PyStr.isspace c = true -> c = " "%char)
    (PyStr.chars (Re.collapse_spaces b s)).
Proof.
  revert b. induction s as [|c s IH]; intros b; [constructor|].
  cbn [Re.collapse_spaces]. destruct (PyStr.isspace c) eqn:Hc.
  - destruct b; [apply IH|]. unfold PyStr.chars in *. simpl. constructor; [auto|apply IH].
  - unfold PyStr.chars in *. simpl. constructor; [congruence|apply IH].
Qed.

(** X28: what [clean_text] leaves.  The result has no leading or trailing
    white space; each of its characters is a letter, a digit, an
    underscore, a space or one of [. , ! ? - ( ) :], the space being its
    only white space; and its characters other than white space are
    those characters of the text that belong to this class, in the same
    order. *)
Theorem clean_text_characters (t : string) :
  PyStr.strip (clean_text t) = clean_text t /\
  Forall (fun c => Re.kept c = true /\ (PyStr.isspace c = true -> c = " "%char))
    (PyStr.chars (clean_text t)) /\
  PyStr.nonspace (clean_text t) = List.filter Re.kept (PyStr.nonspace t).
Proof.
  unfold clean_text. split; [apply strip_idem|]. split.
  - unfold PyStr.strip. apply Forall_chars_rstrip, Forall_chars_lstrip.
    eapply Forall_impl; [apply Forall_chars_keep_class, (Forall_chars_collapse_spaces false)|].
    simpl. tauto.
  - now rewrite nonspace_strip, nonspace_keep_class, nonspace_collapse_spaces.
Qed.

End Clean.

(** ** Key terms *)

Section KeyTerms.

Lemma counter_add_new (w : string) (counts : list (string * nat)) :
  (w ∉ map fst counts) -> counter_add w counts = counts ++ [(w, 1)].
Proof.
  induction counts as [|[w' n] counts IH]; intros Hw; [reflexivity|].
  cbn [map fst] in Hw. apply not_elem_of_cons in Hw as [Hne Hw].
  cbn [counter_add]. destruct (String.eqb_spec w w'); [congruence|].
  now rewrite IH.
Qed.

Lemma counter_add_old (w : string) (counts : list (string * nat)) :
  w ∈ map fst counts ->
  exists l1 m l2,
    counts = l1 ++ (w, m) :: l2 /\ (w ∉ map fst l1) /\
    counter_add w counts = l1 ++ (w, S m) :: l2.
Proof.
  induction counts as [|[w' n] counts IH]; intros Hw; [inversion Hw|].
  cbn [counter_add]. destruct (String.eqb_spec w w') as [<-|Hne].
  - exists [], n, counts. repeat split. apply not_elem_of_nil.
  - cbn [map fst] in Hw. apply elem_of_cons in Hw as [Hw|Hw]; [congruence|].
    destruct (IH Hw) as (l1 & m & l2 & -> & Hl1 & ->).
    exists ((w', n) :: l1), m, l2. repeat split.
    cbn [map fst]. apply not_elem_of_cons. auto.
Qed.

Lemma Counter_snoc (ws : list string) (w : string) :
  Counter (ws ++ [w]) = counter_add w (Counter ws).
Proof. unfold Counter. now rewrite fold_left_app. Qed.

Lemma count_occ_snoc (ws : list string) (w x : string) :
  count_occ string_dec (ws ++ [w]) x
    = count_occ string_dec ws x + (if string_dec w x then 1 else 0).
Proof. rewrite count_occ_app. simpl. destruct (string_dec w x); reflexivity. Qed.

Lemma Counter_spec (ws : list string) :
  NoDup (map fst (Counter ws)) /\
  (forall x, x ∈ ws -> x ∈ map fst (Counter ws)) /\
  (forall x n, (x, n) ∈ Counter ws -> n = count_occ string_dec ws x /\ 0 < n).
Proof.
  induction ws as [|w ws IH] using rev_ind.
  - split; [constructor|]. split; intros x; [intros H|intros n H]; inversion H.
  - destruct IH as (Hnd & Hall & Hcnt). rewrite Counter_snoc.
    destruct (decide (w ∈ map fst (Counter ws))) as [Hin|Hnin].
    + destruct (counter_add_old w _ Hin) as (l1 & m & l2 & Heq & Hl1 & ->).
      rewrite Heq in *. clear Heq.
      assert (Hfst : map fst (l1 ++ (w, S m) :: l2) = map fst (l1 ++ (w, m) :: l2)).
      { rewrite !map_app. reflexivity. }
      rewrite Hfst. split; [assumption|]. split.
      * intros x Hx. apply elem_of_app in Hx as [Hx|Hx]; [auto|].
        apply list_elem_of_singleton in Hx as ->. assumption.
      * assert (Hl2 : w ∉ map fst l2).
        { rewrite map_app in Hnd. cbn [map fst] in Hnd.
          apply NoDup_app in Hnd as (_ & _ & Hnd).
          now apply NoDup_cons in Hnd as [Hnd _]. }
        intros x n Hx. rewrite count_occ_snoc.
        apply elem_of_app in Hx as [Hx|Hx].
        -- assert (x <> w).
           { intros ->. apply Hl1. apply list_elem_of_fmap. exists (w, n). auto. }
           destruct (string_dec w x); [congruence|].
           rewrite Nat.add_0_r. apply Hcnt. apply elem_of_app. auto.
        -- apply elem_of_cons in Hx as [[= -> ->]|Hx].
           ++ destruct (string_dec w w); [|congruence].
              destruct (Hcnt w m) as [-> _]; [|lia].
              apply elem_of_app. right. left.
           ++ assert (x <> w).
              { intros ->. apply Hl2. apply list_elem_of_fmap. exists (w, n). auto. }
              destruct (string_dec w x); [congruence|].
              rewrite Nat.add_0_r. apply Hcnt. apply elem_of_app. right. now right.
    + rewrite counter_add_new by assumption.
      rewrite map_app. cbn [map fst]. split; [|split].
      * apply NoDup_app. split; [assumption|]. split; [|apply NoDup_singleton].
        intros x Hx Hx'. apply list_elem_of_singleton in Hx' as ->. contradiction.
      * intros x Hx. apply elem_of_app in Hx as [Hx|Hx]; apply elem_of_app; auto.
      * intros x n Hx. rewrite count_occ_snoc.
        apply elem_of_app in Hx as [Hx|Hx].
        -- assert (x <> w).
           { intros ->. apply Hnin. apply list_elem_of_fmap. exists (w, n). auto. }
           destruct (string_dec w x); [congruence|].
           rewrite Nat.add_0_r. now apply Hcnt.
        -- apply list_elem_of_singleton in Hx as [= -> ->].
           destruct (string_dec w w); [|congruence].
           assert (H0 : count_occ string_dec ws w = 0).
           { apply count_occ_not_In. intros Hw. apply Hnin, Hall.
             now apply list_elem_of_In. }
           lia.
Qed.

Lemma insert_by_count_perm (x : string * nat) (l : list (string * nat)) :
  insert_by_count x l ≡ₚ x :: l.
Proof.
  induction l as [|y l IH]; [reflexivity|]. cbn [insert_by_count].
  destruct (snd x <? snd y); [|reflexivity].
  rewrite IH. apply Permutation_swap.
Qed.

Lemma sorted_by_count_perm (l : list (string * nat)) : sorted_by_count l ≡ₚ l.
Proof.
  induction l as [|x l IH]; [reflexivity|].
  cbn [sorted_by_count fold_right]. rewrite insert_by_count_perm.
  now constructor.
Qed.

Lemma insert_by_count_sorted (x : string * nat) (l : list (string * nat)) :
  StronglySorted (fun a b => snd b <= snd a) l ->
  StronglySorted (fun a b => snd b <= snd a) (insert_by_count x l).
Proof.
  induction 1 as [|y l Hs IH Hy]; [repeat constructor|].
  cbn [insert_by_count]. destruct (Nat.ltb_spec (snd x) (snd y)).
  - constructor; [assumption|].
    rewrite insert_by_count_perm. constructor; [lia|assumption].
  - constructor; [now constructor|]. constructor; [assumption|].
    eapply Forall_impl; [exact Hy|]. simpl. intros; lia.
Qed.

Lemma sorted_by_count_sorted (l : list (string * nat)) :
  StronglySorted (fun a b => snd b <= snd a) (sorted_by_count l).
Proof.
  induction l as [|x l IH]; [constructor|]. now apply insert_by_count_sorted.
Qed.

Lemma StronglySorted_take_map {A B} (R : A -> A -> Prop) (R' : B -> B -> Prop)
    (f : A -> B) (k : nat) (l : list A) :
  (forall a b, a ∈ l -> b ∈ l -> R a b -> R' (f a) (f b)) ->
  StronglySorted R l -> StronglySorted R' (map f (take k l)).
Proof.
  intros HR Hs. revert k. induction Hs as [|x l Hs IH Hx]; intros k.
  - rewrite take_nil. constructor.
  - destruct k as [|k]; [constructor|]. cbn [take map]. constructor.
    + apply IH. intros a b Ha Hb. apply HR; now right.
    + apply Forall_fmap, Forall_take. rewrite Forall_forall in Hx.
      apply Forall_forall. intros b Hb. simpl. apply HR; [now left|now right|auto].
Qed.

Lemma count_occ_filter (P : string -> bool) (l : list string) (w : string) :
  P w = true -> count_occ string_dec (List.filter P l) w = count_occ string_dec l w.
Proof.
  intros Hw. induction l as [|x l IH]; [reflexivity|]. simpl.
  destruct (string_dec x w) as [->|Hne].
  - rewrite Hw. simpl. destruct (string_dec w w); [|congruence]. now rewrite IH.
  - destruct (P x); [|assumption]. simpl. destruct (string_dec x w); [congruence|assumption].
Qed.

Lemma stopwords_short (w : string) :
  (3 <? String.length w) = true -> in_strings w stopwords = false.
Proof.
  intros Hlen. apply Nat.ltb_lt in Hlen.
  destruct (in_strings w stopwords) eqn:Hin; [|reflexivity].
  unfold in_strings in Hin. apply existsb_exists in Hin as (x & Hx & Heq).
  apply String.eqb_eq in Heq. subst x.
  assert (Hall : forallb (fun x => String.length x <=? 3) stopwords = true) by reflexivity.
  rewrite forallb_forall in Hall. apply Hall, Nat.leb_le in Hx. lia.
Qed.

(** X29: the terms [extract_key_terms] returns are pairwise different
    words of the lower-cased text with more than three characters, at
    most [num_terms] of them (none for a negative number), ordered by
    decreasing number of occurrences in the text.  The stop word list
    has no effect: no stop word has more than three characters. *)
Theorem extract_key_terms_spec (t : string) (num_terms : Z) :
  NoDup (extract_key_terms t num_terms) /\
  Forall (fun w => w ∈ PyStr.split (PyStr.lower t) /\ 3 < String.length w)
    (extract_key_terms t num_terms) /\
  length (extract_key_terms t num_terms) <= Z.to_nat num_terms /\
  StronglySorted
    (fun w1 w2 =>
       count_occ string_dec (PyStr.split (PyStr.lower t)) w2
         <= count_occ string_dec (PyStr.split (PyStr.lower t)) w1)
    (extract_key_terms t num_terms) /\
  extract_key_terms t num_terms =
    map fst (most_common
               (Counter (List.filter (fun w => 3 <? String.length w)
                           (PyStr.split (PyStr.lower t))))
               num_terms).
Proof.
  assert (Hstop : List.filter
                    (fun w => (3 <? String.length w) && negb (in_strings w stopwords))
                    (PyStr.split (PyStr.lower t))
                  = List.filter (fun w => 3 <? String.length w)
                      (PyStr.split (PyStr.lower t))).
  { apply filter_ext. intros w. destruct (3 <? String.length w) eqn:Hlen; [|reflexivity].
    now rewrite stopwords_short. }
  unfold extract_key_terms. rewrite Hstop.
  set (words := PyStr.split (PyStr.lower t)).
  set (long := List.filter (fun w => 3 <? String.length w) words).
  destruct (Counter_spec long) as (Hnd & Hall & Hcnt).
  unfold most_common.
  assert (Hmem : forall x n, (x, n) ∈ sorted_by_count (Counter long) ->
             n = count_occ string_dec words x /\ x ∈ words /\ 3 < String.length x).
  { intros x n Hx. rewrite sorted_by_count_perm in Hx.
    destruct (Hcnt x n Hx) as [Hn Hpos].
    assert (Hin : In x long).
    { apply (count_occ_In string_dec). lia. }
    apply filter_In in Hin as [Hin Hlen].
    split; [|split].
    - rewrite Hn. now apply count_occ_filter.
    - now apply list_elem_of_In.
    - now apply Nat.ltb_lt. }
  split; [|split; [|split; [|split]]].
  - eapply sublist_NoDup; [|apply fmap_sublist, sublist_take].
    now rewrite sorted_by_count_perm.
  - apply Forall_fmap, Forall_take, Forall_forall. intros [x n] Hx.
    destruct (Hmem x n Hx) as (_ & ? & ?). simpl. auto.
  - rewrite length_map, length_take. lia.
  - apply (StronglySorted_take_map (fun a b => snd b <= snd a)).
    + intros [x n] [y m] Hx Hy Hle. simpl in *.
      destruct (Hmem x n Hx) as (<- & _). destruct (Hmem y m Hy) as (<- & _). exact Hle.
    + apply sorted_by_count_sorted.
  - reflexivity.
Qed.

End KeyTerms.

(** ** Processing a document *)

Section Pdf.

Lemma isupper_not_space (c : ascii) : PyStr.isupper c = true -> PyStr.isspace c = false.
Proof.
  unfold PyStr.isupper, PyStr.isspace. generalize (nat_of_ascii c). intros n H.
  apply andb_true_iff in H as [H1 H2].
  apply Nat.leb_le in H1. apply orb_false_iff. split; apply andb_false_iff.
  - right. apply Nat.leb_gt. lia.
  - right. apply Nat.leb_gt. lia.
Qed.

(** X24: the headers [extract_metadata] returns: at most three; each is a
    line of the text, stripped, that is not empty, has fewer than 100
    characters and begins with an upper-case letter (so the line itself
    is not indented).  The page number plays no role. *)
Theorem extract_metadata_headers (t : string) (page_num : Z) :
  length (extract_metadata t page_num) <= 3 /\
  Forall (fun h =>
            exists line c rest,
              line ∈ PyStr.split_on PyStr.newline t /\
              h = PyStr.strip line /\
              h = String c rest /\
              PyStr.isupper c = true /\
              PyStr.startswith (String c EmptyString) line = true /\
              String.length h < 100)
    (extract_metadata t page_num) /\
  (forall n, extract_metadata t n = extract_metadata t page_num).
Proof.
  unfold extract_metadata. split; [rewrite length_take; lia|]. split; [|reflexivity].
  apply Forall_take, Forall_fmap, Forall_forall. intros line Hin.
  apply list_elem_of_In, filter_In in Hin as [Hin Hh]. apply list_elem_of_In in Hin.
  unfold is_header in Hh. apply andb_true_iff in Hh as [Hh Hup].
  apply andb_true_iff in Hh as [Hlen _]. apply Nat.ltb_lt in Hlen.
  destruct line as [|c l]; [discriminate|].
  pose proof (isupper_not_space c Hup) as Hsp.
  assert (Hstrip : exists r, PyStr.strip (String c l) = String c r).
  { unfold PyStr.strip. rewrite lstrip_nonspace by assumption. now apply rstrip_head. }
  destruct Hstrip as (r & Hr).
  exists (String c l), c, r. simpl. unfold PyStr.ascii_eqb. rewrite Ascii.eqb_refl.
  auto 10.
Qed.

Lemma page_chunks_words (f : string) (i : nat) (t : string) :
  concat (map (fun c => PyStr.split (text c)) (page_chunks f i t)) = PyStr.split t.
Proof.
  unfold page_chunks.
  destruct (PyStr.truthy t && PyStr.truthy (PyStr.strip t)) eqn:Ht.
  - rewrite map_map. simpl.
    apply chunk_text_words.
  - simpl. apply andb_false_iff in Ht as [Ht|Ht].
    + destruct t; [reflexivity|discriminate].
    + symmetry. now apply strip_falsy_split.
Qed.

Lemma imap_page_chunks_words (f : string) (pages : list string) (n : nat) :
  concat (map (fun c => PyStr.split (text c))
            (concat (imap (fun i => page_chunks f (n + i)) pages)))
    = concat (map PyStr.split pages).
Proof.
  revert n. induction pages as [|t pages IH]; intros n; [reflexivity|].
  cbn [imap concat map]. rewrite map_app, concat_app, page_chunks_words.
  f_equal. rewrite <- (IH (S n)). do 3 f_equal.
  apply imap_ext. intros i x _. simpl. f_equal. lia.
Qed.

(** X25: [process_pdf] keeps the words of the document.  The words of the
    chunk texts, read in the order of the chunks, are the words of the
    page texts in the order of the pages; pages without words give no
    chunk. *)
Theorem process_pdf_preserves_words (file_path : string) (pages : list string) :
  concat (map (fun c => PyStr.split (text c)) (process_pdf file_path pages))
    = concat (map PyStr.split pages).
Proof.
  unfold process_pdf.
  rewrite <- (imap_page_chunks_words file_path pages 0). reflexivity.
Qed.

Lemma page_chunks_meta (f : string) (i : nat) (t : string) (c : chunk) :
  c ∈ page_chunks f i t ->
  page c = (Z.of_nat i + 1)%Z /\
  source c = (PosixPath.basename f ++ ":page" ++ pretty (i + 1))%string /\
  headers c = extract_metadata t (Z.of_nat i + 1) /\
  index c = None /\ similarity c = None /\
  text c ∈ chunk_text t MAX_CHUNK_TOKENS.
Proof.
  unfold page_chunks. destruct (_ && _); [|intros H; inversion H].
  intros H. apply list_elem_of_fmap in H as (x & -> & Hx). simpl. auto 10.
Qed.

Lemma process_pdf_lookup_aux (f : string) (pages : list string) (n : nat) (c : chunk) :
  c ∈ concat (imap (fun i => page_chunks f (n + i)) pages) ->
  exists i t, pages !! i = Some t /\ c ∈ page_chunks f (n + i) t.
Proof.
  revert n. induction pages as [|t pages IH]; intros n; [intros H; inversion H|].
  cbn [imap concat]. intros H. apply elem_of_app in H as [H|H].
  - exists 0, t. auto.
  - rewrite (imap_ext _ (fun i => page_chunks f (S n + i))) in H
      by (intros i x _; simpl; f_equal; lia).
    apply IH in H as (i & t' & Hi & Hc). exists (S i), t'. split; [exact Hi|].
    replace (n + S i) with (S n + i) by lia. exact Hc.
Qed.

Lemma sorted_pages_app (k : Z) (l1 l2 : list chunk) :
  Forall (fun c => page c = k) l1 ->
  StronglySorted Z.le (map page l2) ->
  Forall (fun c => (k <= page c)%Z) l2 ->
  StronglySorted Z.le (map page (l1 ++ l2)).
Proof.
  intros H1 H2 H3. induction l1 as [|c l1 IH]; [exact H2|].
  apply Forall_cons in H1 as [Hc H1]. cbn [map app].
  constructor; [now apply IH|].
  apply Forall_fmap, Forall_app. split.
  - eapply Forall_impl; [exact H1|]. simpl. intros; lia.
  - eapply Forall_impl; [exact H3|]. simpl. intros; lia.
Qed.

Lemma process_pdf_sorted_aux (f : string) (pages : list string) (n : nat) :
  StronglySorted Z.le
    (map page (concat (imap (fun i => page_chunks f (n + i)) pages))) /\
  Forall (fun c => (Z.of_nat n + 1 <= page c)%Z)
    (concat (imap (fun i => page_chunks f (n + i)) pages)).
Proof.
  revert n. induction pages as [|t pages IH]; intros n.
  - split; constructor.
  - cbn [imap concat].
    rewrite (imap_ext _ (fun i => page_chunks f (S n + i)))
      by (intros i x _; simpl; f_equal; lia).
    destruct (IH (S n)) as [IHs IHf].
    assert (Hpage : Forall (fun c => page c = (Z.of_nat n + 1)%Z) (page_chunks f (n + 0) t)).
    { apply Forall_forall. intros c Hc. apply page_chunks_meta in Hc as [Hc _].
      rewrite Hc. lia. }
    split.
    + apply (sorted_pages_app (Z.of_nat n + 1)); [assumption..|].
      eapply Forall_impl; [exact IHf|]. simpl. intros; lia.
    + apply Forall_app. split.
      * eapply Forall_impl; [exact Hpage|]. simpl. intros; lia.
      * eapply Forall_impl; [exact IHf|]. simpl. intros; lia.
Qed.

(** X26: the chunks of [process_pdf].  Each chunk belongs to a page of the
    document: its [page] is the number of that page counted from 1, its
    [source] is the base name of the file followed by [":page"] and that
    number, its headers are those of the page text, its text is one of
    the chunks of the page text and is not empty, and it carries no
    index and no score yet.  The chunks come in the order of the pages. *)
Theorem process_pdf_chunks (file_path : string) (pages : list string) :
  Forall (fun c =>
            exists i t,
              pages !! i = Some t /\
              page c = (Z.of_nat i + 1)%Z /\
              source c = (PosixPath.basename file_path ++ ":page" ++ pretty (i + 1))%string /\
              headers c = extract_metadata t (Z.of_nat i + 1) /\
              index c = None /\ similarity c = None /\
              text c ∈ chunk_text t MAX_CHUNK_TOKENS /\
              text c <> EmptyString)
    (process_pdf file_path pages) /\
  StronglySorted Z.le (map page (process_pdf file_path pages)).
Proof.
  split.
  - apply Forall_forall. intros c Hc.
    apply (process_pdf_lookup_aux file_path pages 0) in Hc as (i & t & Hi & Hc).
    apply page_chunks_meta in Hc as (H1 & H2 & H3 & H4 & H5 & H6).
    exists i, t. repeat split; try assumption.
    assert (Hs : Forall (fun c => c <> EmptyString /\ PyStr.strip c = c)
                   (chunk_text t MAX_CHUNK_TOKENS))
      by (apply chunk_paragraphs_stripped; constructor).
    rewrite Forall_forall in Hs. apply (Hs _ H6).
  - apply (process_pdf_sorted_aux file_path pages 0).
Qed.

End Pdf.

(** ** Uploading a document *)

Section UploadProps.
Variable E : env.

Lemma allocate_run (base : loc) (chunks : list chunk) (s : state) :
  exists s1,
    allocate base chunks s = (Ok (seq base (length chunks)), s1) /\
    fs s1 = fs s /\ provider_calls s1 = provider_calls s.
Proof. unfold allocate. monad_unfold. eexists. split; [reflexivity|]. auto. Qed.

Lemma write_source_run (p : string) (content : list Byte.byte) (s : state) :
  exists s1,
    write_source p content s = (Ok tt, s1) /\
    heap s1 = heap s /\ provider_calls s1 = provider_calls s /\
    store_file (fs s1) = store_file (fs s) /\
    cache_files (fs s1) = cache_files (fs s) /\
    source_files (fs s1) = <[p := content]> (source_files (fs s)).
Proof. unfold write_source. monad_unfold. eexists. split; [reflexivity|]. simpl. auto. Qed.

Lemma up_to_date_ext (f f' : disk) (p : string) :
  store_file f' = store_file f ->
  source_files f' !! p = source_files f !! p ->
  up_to_date E f' p = up_to_date E f p.
Proof.
  intros Hst Hs. unfold up_to_date, stored, file_hash. now rewrite Hst, Hs.
Qed.

(** X27: uploading the same document again is free.  After an upload that
    did not fail, a second upload of the same file (same name, same
    bytes) does not fail either, does not call the embedding service and
    leaves the store file as it is; when the document has text, it only
    reports that the stored embeddings are used. *)
Theorem upload_again_is_free (name : string) (content : list Byte.byte)
    (pages : list string) (base base' : loc) (s s1 : state) (m : upload_message) :
  upload_pdf E name content pages base s = (Ok m, s1) ->
  m <> Failed ->
  exists m' s2,
    upload_pdf E name content pages base' s1 = (Ok m', s2) /\
    m' <> Failed /\
    provider_calls s2 = provider_calls s1 /\
    store_file (fs s2) = store_file (fs s1) /\
    (process_pdf ("data/sample_docs/" ++ name) pages <> [] -> m' = UsingCached).
Proof.
  set (p := ("data/sample_docs/" ++ name)%string).
  assert (Hp : PyStr.truthy p = true) by reflexivity.
  unfold upload_pdf. fold p. intros H1 Hm.
  (* the first upload *)
  destruct (write_source_run p content s) as (sw & Hw & Hwh & Hwc & Hwst & Hwca & Hws).
  unfold try_except in H1. unfold bind at 1 in H1. rewrite Hw in H1.
  unfold bind at 1 in H1. rewrite (check_file_embeddings_run E) in H1.
  (* the second upload *)
  destruct (write_source_run p content s1) as (sw' & Hw' & Hwh' & Hwc' & Hwst' & Hwca' & Hws').
  unfold try_except. unfold bind at 1. rewrite Hw'.
  unfold bind at 1. rewrite (check_file_embeddings_run E).
  destruct (up_to_date E (fs sw) p) eqn:Hup.
  - (* the first upload found the file up to date *)
    injection H1 as <- <-.
    assert (Hup' : up_to_date E (fs sw') p = true).
    { rewrite <- Hup. apply up_to_date_ext; [assumption|].
      rewrite Hws', Hws, !lookup_insert_eq. reflexivity. }
    rewrite Hup'. exists UsingCached, sw'. unfold ret.
    split; [reflexivity|]. split; [discriminate|]. auto.
  - (* the first upload processed the document *)
    destruct (allocate_run base (process_pdf p pages) sw) as (sa & Ha & Haf & Hac).
    unfold bind at 1 in H1. rewrite Ha in H1. unfold bind in H1.
    destruct (build_vector_store E (seq base (length (process_pdf p pages))) (Some p) sa)
      as [[r|e] sb] eqn:Hb; [|unfold ret in H1; congruence].
    unfold ret in H1. injection H1 as <- <-.
    destruct (build_vector_store_frame E _ _ _ _ _ Hb) as (Hbs & Hbf).
    destruct r as [ix|].
    + (* the build returned an index *)
      assert (Hup' : up_to_date E (fs sw') p = true).
      { rewrite (up_to_date_after_build E _ _ _ _ _ _ Hp Hb) by assumption.
        apply String.eqb_eq. unfold file_hash.
        rewrite Hws', lookup_insert_eq, Haf, Hws, lookup_insert_eq. reflexivity. }
      rewrite Hup'. exists UsingCached, sw'. unfold ret.
      split; [reflexivity|]. split; [discriminate|]. auto.
    + (* the build returned None: there was no chunk *)
      assert (Hnil : process_pdf p pages = []).
      { destruct (process_pdf p pages) as [|c cs] eqn:Hpp; [reflexivity|].
        exfalso. apply (build_vector_store_never_none E
                          (seq base (length (c :: cs))) (Some p) sa); [discriminate|].
        now rewrite Hb. }
      destruct Hbf as (Hbst & _); [discriminate|].
      rewrite Hnil.
      assert (Hup' : up_to_date E (fs sw') p = false).
      { rewrite <- Hup. apply up_to_date_ext.
        - rewrite Hwst', Hbst, Haf. reflexivity.
        - rewrite Hws', lookup_insert_eq, Hws, lookup_insert_eq. reflexivity. }
      rewrite Hup'.
      destruct (allocate_run base' [] sw') as (sa' & Ha' & Haf' & Hac').
      unfold bind at 1. rewrite Ha'. simpl. unfold bind, ret. simpl.
      exists Processed, sa'. split; [reflexivity|]. split; [discriminate|].
      split; [congruence|]. split; [congruence|]. congruence.
Qed.

End UploadProps.

(** ** The properties at work in the sample world *)

Lemma run_eq {A} (m : M A) (s : state) (r : result A) :
  fst (m s) = r -> m s = (r, snd (m s)).
Proof. intros <-. now destruct (m s). Qed.

(** The store of the sample world loads; the store left by the stale
    cache is rejected by the integrity check. *)
Example load_indexed :
  fst (load_vector_store Sample.indexed)
    = Ok (Some {| d := 3; xb := Sample.xb_indexed |}, Some Sample.persisted).
Proof. vm_compute. reflexivity. Qed.

Example load_rejects_stale_cache :
  fst (load_vector_store Sample.stale_cache) = Ok (None, None).
Proof. vm_compute. reflexivity. Qed.

Example clear_indexed :
  fst (clear_vector_store Sample.indexed) = Ok true /\
  fst (clear_vector_store (snd (clear_vector_store Sample.indexed))) = Ok false /\
  fst (load_vector_store (snd (clear_vector_store Sample.indexed))) = Ok (None, None).
Proof. repeat split; vm_compute; reflexivity. Qed.

(** A query for two neighbours: the texts come back sanitized, nearest
    first, with scores in single precision. *)
Example retrieve_indexed :
  fst (retrieve Sample.world "artificial intelligence" 2 None Sample.indexed)
    = Ok [ {| text := "Cooking requires heat."; source := "doc.pdf:page1";
              page := 1; headers := []; index := Some 2;
              similarity := Some (11184811 # 33554432) |};
           {| text := "AI is a field of study"; source := "doc.pdf:page1";
              page := 1; headers := []; index := Some 0;
              similarity := Some (12201612 # 134217728) |} ].
Proof. vm_compute. reflexivity. Qed.

(** A threshold equal to the score of the nearest hit leaves it out. *)
Example retrieve_threshold_equal :
  fst (retrieve Sample.world "artificial intelligence" 2
         (Some (11184811 # 33554432)) Sample.indexed) = Ok [].
Proof. vm_compute. reflexivity. Qed.

Example hybrid_search_indexed :
  match fst (hybrid_search Sample.world "artificial intelligence" (Some "LEARNING") 2
               Sample.indexed) with
  | Ok rs => map text rs
  | Raise _ => []
  end = ["Machine learning is a subset of AI"].
Proof. vm_compute. reflexivity. Qed.

Example get_embedding_path_doc :
  embedding_path Sample.world (fs Sample.start) Sample.doc
    = "data/vector_store/embeddings/doc_00000000000000000000000742ee760a.pkl".
Proof. vm_compute. reflexivity. Qed.

(** C7 as stated fails: without a configured key [get_embedding] raises
    for every input instead of returning vectors. *)
Lemma get_embedding_without_key_raises :
  fst (get_embedding Sample.world_no_key ["AI is a field of study"] Sample.start)
    = Raise ValueError /\
  ~ (exists vs,
        fst (get_embedding Sample.world_no_key ["AI is a field of study"] Sample.start)
          = Ok vs /\ length vs = 1).
Proof.
  split; [reflexivity|]. intros (vs & H & _). discriminate.
Qed.

Lemma get_embedding_never_shrinks_witness :
  exists vs,
    get_embedding Sample.world ["AI"; "heat"] Sample.start
      = (Ok vs, log_calls Sample.start ["AI"; "heat"]) /\
    length vs = 2 /\
    forall i t,
      ["AI"; "heat"] !! i = Some t ->
      vs !! i = Some (embed_or_zero Sample.world (length (provider_calls Sample.start) + i) t) /\
      (embed_content Sample.world (length (provider_calls Sample.start) + i) t = None ->
       vs !! i = Some (zeros 768)).
Proof.
  apply (get_embedding_never_shrinks Sample.world ["AI"; "heat"] Sample.start).
  reflexivity.
Defined.

(** C3 as stated fails: without a configured key the build raises; it
    does not return [None]. *)
Lemma build_without_key_raises :
  fst (build_vector_store Sample.world_no_key [0; 1; 2] (Some Sample.doc) Sample.start)
    = Raise ValueError /\
  fst (build_vector_store Sample.world_no_key [0; 1; 2] (Some Sample.doc) Sample.start)
    <> Ok None.
Proof.
  split; [vm_compute; reflexivity|]. vm_compute. discriminate.
Qed.

Lemma build_vector_store_missing_credentials_witness :
  build_vector_store Sample.world_no_key [0; 1; 2] (Some Sample.doc) Sample.start
    = (Raise ValueError, Sample.start).
Proof.
  apply (build_vector_store_missing_credentials Sample.world_no_key).
  - discriminate.
  - reflexivity.
  - vm_compute. reflexivity.
Defined.


(** C1 as stated fails, in two ways.

    A first build caches one embedding for the file; a second build for
    the same, unchanged file passes two chunks and takes the single
    cached vector for them.  Both builds succeed, and the chunk
    persisted at position 2, with index 2, has no vector at ordinal 2.

    A build that is passed the same dictionary twice writes both indices
    into that one dictionary: the chunk persisted at position 0 has
    index 1. *)
Lemma build_breaks_correspondence :
  (exists ix1 ix2 c,
      store_file (fs Sample.start) = None /\
      build_vector_store Sample.world [0] (Some Sample.doc) Sample.start
        = (Ok (Some ix1), Sample.one_chunk) /\
      build_vector_store Sample.world [1; 2] (Some Sample.doc) Sample.one_chunk
        = (Ok (Some ix2), Sample.stale_cache) /\
      data_index (stored (fs Sample.stale_cache)) = Some ix2 /\
      data_chunks (stored (fs Sample.stale_cache)) !! 2 = Some c /\
      index c = Some 2 /\
      xb ix2 !! 2 = None) /\
  (exists ix c,
      build_vector_store Sample.world [0; 0] None Sample.start
        = (Ok (Some ix), Sample.shared) /\
      data_chunks (stored (fs Sample.shared)) !! 0 = Some c /\
      index c = Some 1).
Proof.
  split.
  - do 3 eexists.
    split; [reflexivity|].
    split; [apply run_eq; vm_compute; reflexivity|].
    split; [apply run_eq; vm_compute; reflexivity|].
    split; [vm_compute; reflexivity|].
    split; [vm_compute; reflexivity|].
    split; reflexivity.
  - do 2 eexists.
    split; [apply run_eq; vm_compute; reflexivity|].
    split; [vm_compute; reflexivity|reflexivity].
Qed.

Lemma built_indexed :
  built Sample.world Sample.indexed
    ([] ++ combine (map (heap Sample.indexed) [0; 1; 2])
                   [[22; 0; 1]; [34; 1; 1]; [24; 2; 1]]%Q).
Proof.
  apply (built_build Sample.world Sample.start
           (snd (obtain_embeddings Sample.world [0; 1; 2] (Some Sample.doc) Sample.start))
           Sample.indexed [] [0; 1; 2] (Some Sample.doc)
           [[22; 0; 1]; [34; 1; 1]; [24; 2; 1]]%Q
           {| d := 3; xb := [[22; 0; 1]; [34; 1; 1]; [24; 2; 1]]%Q |}).
  - apply built_start. reflexivity.
  - apply (bool_decide_unpack _). vm_compute. exact I.
  - apply run_eq. vm_compute. reflexivity.
  - reflexivity.
  - apply run_eq. vm_compute. reflexivity.
Defined.

Lemma built_positional_correspondence_witness :
  index (set_index (Sample.objects 1) 1) = Some 1 /\
  exists ix v,
    data_index (stored (fs Sample.indexed)) = Some ix /\
    ntotal ix = length (data_chunks (stored (fs Sample.indexed))) /\
    xb ix !! 1 = Some v /\
    ([] ++ combine (map (heap Sample.indexed) [0; 1; 2])
                   [[22; 0; 1]; [34; 1; 1]; [24; 2; 1]]%Q) !! 1
      = Some (set_index (Sample.objects 1) 1, v).
Proof.
  apply (built_positional_correspondence Sample.world Sample.indexed _ built_indexed 1).
  vm_compute. reflexivity.
Defined.

(** C5 as stated fails where the score is a single precision float: the
    threshold 1/3 as a Python float lies strictly below the score of the
    nearest hit, which is 1/3 in single precision, and the hit is not
    kept, because the threshold is converted to that same float. *)
Lemma retrieve_rounds_threshold :
  fst (query_hits Sample.world {| d := 3; xb := Sample.xb_indexed |} Sample.persisted
         "artificial intelligence" 2 Sample.indexed) = Ok Sample.hits /\
  (Some 2, 2%Q) ∈ Sample.hits /\
  hit_in_range Sample.persisted (Some 2) = true /\
  (6004799503160661 # 18014398509481984 < similarity_of Sample.world 2)%Q /\
  fst (retrieve Sample.world "artificial intelligence" 2
         (Some (6004799503160661 # 18014398509481984)) Sample.indexed) = Ok [].
Proof.
  split; [vm_compute; reflexivity|].
  split; [left|].
  split; [reflexivity|].
  split; [vm_compute; reflexivity|].
  vm_compute. reflexivity.
Qed.

Lemma retrieve_keeps_above_threshold_witness :
  exists rs,
    retrieve Sample.world "artificial intelligence" 2 (Some (1 # 5)) Sample.indexed
      = (Ok rs, Sample.queried) /\
    Forall2
      (fun r h =>
         exists c h',
           Sample.persisted !! py_position Sample.persisted (fst h) = Some c /\
           origin r = origin c /\
           h' ∈ Sample.hits /\
           keep_hit Sample.world (Some (1 # 5)) (similarity_of Sample.world (snd h')) = true /\
           similarity r = Some (similarity_of Sample.world (snd h')))
      rs (kept_hits Sample.world (Some (1 # 5)) Sample.persisted Sample.hits) /\
    (forall h,
        h ∈ kept_hits Sample.world (Some (1 # 5)) Sample.persisted Sample.hits <->
        h ∈ Sample.hits /\ hit_in_range Sample.persisted (fst h) = true /\
        (Some (1 # 5) = None \/
         exists t, Some (1 # 5) = Some t /\
                   (Float.round (score_format Sample.world) t
                      < similarity_of Sample.world (snd h))%Q)) /\
    (forall t h,
        Some (1 # 5) = Some t -> (similarity_of Sample.world (snd h) == t)%Q ->
        h ∉ kept_hits Sample.world (Some (1 # 5)) Sample.persisted Sample.hits) /\
    (forall t h,
        Some (1 # 5) = Some t -> (Float.round (score_format Sample.world) t == t)%Q ->
        (h ∈ kept_hits Sample.world (Some (1 # 5)) Sample.persisted Sample.hits <->
         h ∈ Sample.hits /\ hit_in_range Sample.persisted (fst h) = true /\
         (t < similarity_of Sample.world (snd h))%Q)).
Proof.
  apply (retrieve_keeps_above_threshold Sample.world "artificial intelligence" 2
           (Some (1 # 5)) Sample.indexed Sample.queried
           {| d := 3; xb := [[22; 0; 1]; [34; 1; 1]; [24; 2; 1]]%Q |}
           Sample.persisted Sample.hits).
  - split; vm_compute; discriminate.
  - rewrite (run_eq load_vector_store Sample.indexed
               (Ok (Some {| d := 3; xb := [[22; 0; 1]; [34; 1; 1]; [24; 2; 1]]%Q |},
                    Some Sample.persisted))).
    + now rewrite load_vector_store_state.
    + vm_compute. reflexivity.
  - discriminate.
  - apply run_eq. vm_compute. reflexivity.
Defined.

Section SampleScores.

Local Open Scope Q_scope.

(** C6 as stated fails: the distances [2 ^ -70 < 2 ^ -60] both get the
    score 1, in single and in double precision, so the score is not
    strictly decreasing and it equals 1 at a distance that is not 0. *)
Lemma similarity_of_not_strict :
  0 <= 1 # 1180591620717411303424 /\
  1 # 1180591620717411303424 < 1 # 1152921504606846976 /\
  ~ (similarity_of Sample.world (1 # 1152921504606846976)
       < similarity_of Sample.world (1 # 1180591620717411303424)) /\
  ~ (similarity_of Sample.world_double (1 # 1152921504606846976)
       < similarity_of Sample.world_double (1 # 1180591620717411303424)) /\
  similarity_of Sample.world (1 # 1152921504606846976) == 1 /\
  similarity_of Sample.world_double (1 # 1152921504606846976) == 1 /\
  ~ (1 # 1152921504606846976 == 0).
Proof.
  split; [discriminate|]. split; [reflexivity|].
  split; [intros H; vm_compute in H; discriminate|].
  split; [intros H; vm_compute in H; discriminate|].
  split; [vm_compute; reflexivity|].
  split; [vm_compute; reflexivity|].
  discriminate.
Qed.

Lemma similarity_of_monotone_witness :
  (forall d1 d2, 0 <= d1 -> d1 <= d2 ->
                 similarity_of Sample.world d2 <= similarity_of Sample.world d1) /\
  (forall d, 0 <= d ->
             0 <= similarity_of Sample.world d /\ similarity_of Sample.world d <= 1) /\
  (forall d, 0 <= d -> 1 + d <= 2 ^ (- Float.emin (score_format Sample.world)) ->
             0 < similarity_of Sample.world d) /\
  (forall d, d == 0 -> similarity_of Sample.world d == 1).
Proof.
  apply (similarity_of_monotone Sample.world).
  split; vm_compute; discriminate.
Defined.

End SampleScores.

(** ** The further properties at work in the sample world *)

Lemma load_indexed_run :
  load_vector_store Sample.indexed
    = (Ok (Some {| d := 3; xb := Sample.xb_indexed |}, Some Sample.persisted),
       Sample.indexed).
Proof.
  rewrite (run_eq load_vector_store Sample.indexed
             (Ok (Some {| d := 3; xb := Sample.xb_indexed |}, Some Sample.persisted))).
  - now rewrite load_vector_store_state.
  - vm_compute. reflexivity.
Qed.

Lemma get_embedding_path_eq_iff_witness :
  fst (get_embedding_path Sample.world Sample.doc Sample.with_copy)
    = fst (get_embedding_path Sample.world Sample.copy Sample.with_copy) <->
  PosixPath.splitext_root (PosixPath.basename Sample.doc)
    = PosixPath.splitext_root (PosixPath.basename Sample.copy) /\
  fst (get_file_hash Sample.world Sample.doc Sample.with_copy)
    = fst (get_file_hash Sample.world Sample.copy Sample.with_copy).
Proof.
  apply (get_embedding_path_eq_iff Sample.world Sample.doc Sample.copy
           Sample.with_copy Sample.with_copy).
  - eexists. vm_compute. reflexivity.
  - eexists. vm_compute. reflexivity.
Defined.

Lemma check_file_embeddings_after_build_witness :
  exists b,
    check_file_embeddings Sample.world Sample.doc Sample.indexed
      = (Ok b, Sample.indexed) /\
    (b = true <->
     fst (get_file_hash Sample.world Sample.doc Sample.indexed)
       = fst (get_file_hash Sample.world Sample.doc Sample.start)) /\
    (source_files (fs Sample.indexed) !! Sample.doc
       = source_files (fs Sample.start) !! Sample.doc -> b = true).
Proof.
  apply (check_file_embeddings_after_build Sample.world [0; 1; 2] Sample.doc
           Sample.start Sample.indexed Sample.indexed
           {| d := 3; xb := Sample.xb_indexed |}).
  - reflexivity.
  - apply run_eq. vm_compute. reflexivity.
  - reflexivity.
Defined.

Lemma build_keeps_other_files_witness :
  fst (check_file_embeddings Sample.world Sample.other Sample.indexed)
    = fst (check_file_embeddings Sample.world Sample.other Sample.start).
Proof.
  apply (build_keeps_other_files Sample.world [0; 1; 2] (Some Sample.doc)
           Sample.other Sample.start Sample.indexed
           (Ok (Some {| d := 3; xb := Sample.xb_indexed |}))).
  - intros H. vm_compute in H. discriminate.
  - apply run_eq. vm_compute. reflexivity.
Defined.

Lemma build_records_chunk_positions_witness :
  exists e,
    data_file_map (stored (fs Sample.indexed)) !! Sample.doc = Some e /\
    Ok (hash e) = fst (get_file_hash Sample.world Sample.doc Sample.start) /\
    length (chunk_indices e) = length [0; 1; 2] /\
    forall j c,
      [0; 1; 2] !! j = Some c ->
      chunk_indices e !! j = Some (length (data_chunks (stored (fs Sample.start))) + j) /\
      data_chunks (stored (fs Sample.indexed))
        !! (length (data_chunks (stored (fs Sample.start))) + j)
        = Some (heap Sample.indexed c).
Proof.
  apply (build_records_chunk_positions Sample.world [0; 1; 2] Sample.doc
           Sample.start Sample.indexed {| d := 3; xb := Sample.xb_indexed |}).
  - reflexivity.
  - apply run_eq. vm_compute. reflexivity.
Defined.

Lemma build_vector_store_append_only_witness :
  data_chunks (stored (fs Sample.one_chunk))
    `prefix_of` data_chunks (stored (fs Sample.stale_cache)) /\
  forall ix0,
    data_index (stored (fs Sample.one_chunk)) = Some ix0 ->
    exists ix',
      data_index (stored (fs Sample.stale_cache)) = Some ix' /\
      d ix' = d ix0 /\
      xb ix0 `prefix_of` xb ix'.
Proof.
  apply (build_vector_store_append_only Sample.world [1; 2] (Some Sample.doc)
           Sample.one_chunk Sample.stale_cache
           (fst (build_vector_store Sample.world [1; 2] (Some Sample.doc)
                   Sample.one_chunk))).
  apply run_eq. reflexivity.
Defined.

Lemma build_vector_store_failure_atomic_witness :
  store_file (fs Sample.poisoned) = store_file (fs Sample.start) /\
  heap Sample.poisoned = heap Sample.start /\
  source_files (fs Sample.poisoned) = source_files (fs Sample.start).
Proof.
  apply (build_vector_store_failure_atomic Sample.world_flaky [0; 1; 2]
           (Some Sample.doc) Sample.start Sample.poisoned (Raise ValueError)).
  - apply run_eq. vm_compute. reflexivity.
  - discriminate.
Defined.


Lemma build_then_load_witness :
  load_vector_store Sample.indexed =
    (Ok (Some {| d := 3; xb := Sample.xb_indexed |},
         Some (data_chunks (stored (fs Sample.start))
               ++ map (heap Sample.indexed) [0; 1; 2])),
     Sample.indexed) /\
  xb {| d := 3; xb := Sample.xb_indexed |}
    = xb (base_index (fs Sample.start) Sample.xb_indexed) ++ Sample.xb_indexed /\
  d {| d := 3; xb := Sample.xb_indexed |}
    = d (base_index (fs Sample.start) Sample.xb_indexed).
Proof.
  apply (build_then_load Sample.world [0; 1; 2] (Some Sample.doc) Sample.start
           (snd (obtain_embeddings Sample.world [0; 1; 2] (Some Sample.doc) Sample.start))
           Sample.indexed {| d := 3; xb := Sample.xb_indexed |} Sample.xb_indexed).
  - apply run_eq. vm_compute. reflexivity.
  - apply run_eq. vm_compute. reflexivity.
  - reflexivity.
  - reflexivity.
Defined.

Lemma build_keeps_broken_store_broken_witness :
  load_vector_store Sample.still_broken = (Ok (None, None), Sample.still_broken).
Proof.
  apply (build_keeps_broken_store_broken Sample.world [3] None Sample.stale_cache
           (snd (obtain_embeddings Sample.world [3] None Sample.stale_cache))
           Sample.still_broken
           {| d := 3; xb := [[22; 0; 1]; [22; 0; 1]; [13; 1; 1]]%Q |}
           [[13; 1; 1]]%Q).
  - apply run_eq. vm_compute. reflexivity.
  - apply run_eq. vm_compute. reflexivity.
  - reflexivity.
  - vm_compute. lia.
Defined.

Lemma retrieve_without_key_witness :
  retrieve Sample.world_no_key "artificial intelligence" 2 None Sample.indexed
    = (Ok [], Sample.indexed) /\
  hybrid_search Sample.world_no_key "artificial intelligence" (Some "AI") 2 Sample.indexed
    = (Ok [], Sample.indexed) /\
  get_embedding Sample.world_no_key ["artificial intelligence"] Sample.indexed
    = (Raise ValueError, Sample.indexed).
Proof.
  apply (retrieve_without_key Sample.world_no_key "artificial intelligence" 2 None
           (Some "AI") Sample.indexed).
  reflexivity.
Defined.

Lemma retrieve_failed_embedding_witness :
  get_embedding Sample.world_flaky ["artificial intelligence"] Sample.indexed
    = (Ok [zeros 768], log_calls Sample.indexed ["artificial intelligence"]) /\
  retrieve Sample.world_flaky "artificial intelligence" 2 None Sample.indexed
    = (Ok [], log_calls Sample.indexed ["artificial intelligence"]).
Proof.
  apply (retrieve_failed_embedding Sample.world_flaky "artificial intelligence" 2 None
           Sample.indexed {| d := 3; xb := Sample.xb_indexed |} Sample.persisted).
  - reflexivity.
  - vm_compute. reflexivity.
  - exact load_indexed_run.
  - discriminate.
  - simpl. lia.
Defined.

Lemma get_similar_chunks_result_witness :
  (0 <= 1)%Z /\
  Forall2 (fun r h => Sample.persisted !! py_position Sample.persisted (fst h) = Some r)
    [set_index (Sample.objects 0) 0]
    (drop 1 (knn Sample.world {| d := 3; xb := Sample.xb_indexed |}
               (embed_or_zero Sample.world (length (provider_calls Sample.indexed) + 0)
                  (text (set_index (Sample.objects 0) 0)))
               (Z.to_nat (1 + 1)))) /\
  Forall (fun r => r ∈ Sample.persisted) [set_index (Sample.objects 0) 0].
Proof.
  apply (get_similar_chunks_result Sample.world 0 1 Sample.indexed
           (snd (get_similar_chunks Sample.world 0 1 Sample.indexed))
           {| d := 3; xb := Sample.xb_indexed |} Sample.persisted
           [set_index (Sample.objects 0) 0] (set_index (Sample.objects 0) 0)).
  - reflexivity.
  - exact load_indexed_run.
  - reflexivity.
  - apply run_eq. vm_compute. reflexivity.
Defined.

Lemma get_similar_chunks_reembeds_store_witness :
  provider_calls (snd (get_similar_chunks Sample.world 0 1 Sample.indexed))
    = provider_calls Sample.indexed ++ map text Sample.persisted /\
  fs (snd (get_similar_chunks Sample.world 0 1 Sample.indexed)) = fs Sample.indexed /\
  heap (snd (get_similar_chunks Sample.world 0 1 Sample.indexed)) = heap Sample.indexed.
Proof.
  apply (get_similar_chunks_reembeds_store Sample.world 0 1 Sample.indexed
           (snd (get_similar_chunks Sample.world 0 1 Sample.indexed))
           {| d := 3; xb := Sample.xb_indexed |} Sample.persisted
           (fst (get_similar_chunks Sample.world 0 1 Sample.indexed))).
  - reflexivity.
  - exact load_indexed_run.
  - simpl. lia.
  - apply run_eq. reflexivity.
Defined.

Lemma get_similar_chunks_without_key_witness :
  get_similar_chunks Sample.world_no_key 0 1 Sample.indexed
    = (Raise ValueError, Sample.indexed).
Proof.
  apply (get_similar_chunks_without_key Sample.world_no_key 0 1 Sample.indexed
           {| d := 3; xb := Sample.xb_indexed |} Sample.persisted).
  - reflexivity.
  - exact load_indexed_run.
  - discriminate.
  - simpl. lia.
Defined.

Lemma get_similar_chunks_bounds_witness :
  ((Z.of_nat (length Sample.persisted) <= 3)%Z ->
   get_similar_chunks Sample.world 3 1 Sample.indexed = (Ok [], Sample.indexed)) /\
  ((3 = -1 \/ 3 < - Z.of_nat (length Sample.persisted))%Z ->
   exists e,
     get_similar_chunks Sample.world 3 1 Sample.indexed
       = (Raise e, log_calls Sample.indexed (map text Sample.persisted))).
Proof.
  apply (get_similar_chunks_bounds Sample.world 3 1 Sample.indexed
           {| d := 3; xb := Sample.xb_indexed |} Sample.persisted).
  - reflexivity.
  - exact load_indexed_run.
Defined.

(** The last chunk cannot be asked for as -1. *)
Example get_similar_chunks_last :
  fst (get_similar_chunks Sample.world (-1) 2 Sample.indexed) = Raise IndexError.
Proof. vm_compute. reflexivity. Qed.

Lemma upload_again_is_free_witness :
  exists m' s2,
    upload_pdf Sample.world "doc.pdf" [Byte.x25; Byte.x50; Byte.x44; Byte.x46]
      Sample.pages 20 Sample.uploaded = (Ok m', s2) /\
    m' <> Failed /\
    provider_calls s2 = provider_calls Sample.uploaded /\
    store_file (fs s2) = store_file (fs Sample.uploaded) /\
    (process_pdf ("data/sample_docs/" ++ "doc.pdf") Sample.pages <> [] ->
     m' = UsingCached).
Proof.
  apply (upload_again_is_free Sample.world "doc.pdf"
           [Byte.x25; Byte.x50; Byte.x44; Byte.x46] Sample.pages 10 20
           Sample.start Sample.uploaded Processed).
  - apply run_eq. vm_compute. reflexivity.
  - discriminate.
Defined.

(** A document goes through [process_pdf]: the page without words gives
    no chunk, and the headers are the lines that begin with a capital. *)
Example process_pdf_pages :
  map (fun c => (source c, page c, headers c))
    (process_pdf "data/sample_docs/doc.pdf" Sample.pages)
  = [ ("doc.pdf:page1", 1%Z, ["Introduction"; "AI is a field of study."]);
      ("doc.pdf:page3", 3%Z, ["Machine learning"]) ].
Proof. vm_compute. reflexivity. Qed.

Example chunk_text_limit :
  chunk_text ("  one two" ++ PyStr.blank_line ++ "three" ++ PyStr.blank_line
              ++ "four five six seven" ++ PyStr.blank_line ++ " eight ")%string 3
  = [ ("one two" ++ PyStr.blank_line ++ "three")%string; "four five six seven"; "eight" ].
Proof. vm_compute. reflexivity. Qed.

Example clean_text_sample :
  clean_text "  Hello,   world! #1 (a-b) <x> 50% " = "Hello, world! 1 (a-b) x 50".
Proof. vm_compute. reflexivity. Qed.

Example extract_key_terms_sample :
  extract_key_terms "Deep learning and deep networks: Learning the deep end of learning" 2
  = ["deep"; "learning"].
Proof. vm_compute. reflexivity. Qed.
